(** * The [audit] command of the maintainers tool

    A shallow embedding of the two versions of [cmd/audit.go] that the
    repository carries, and the properties of its validation walk.

    - [Filtered] is the version that takes group names on the command line
      ([audit [name|all]...]) and grades findings as ERROR / WARNING /
      OPTIONAL;
    - [Unconditional] is the version that audits every group and reports
      every finding as a WARNING.

    Standard output, the HTTP client, the file system and the helpers of
    [maintainers/pkg/utils] are effects of the Go code.  They are modelled
    by a writer monad over a trace of events, with a result that records a
    Go panic or [os.Exit], and by a record of oracles [Env] that stands for
    the world the command runs in. *)

From Stdlib Require Import String Ascii List ZArith Lia Bool Permutation.
From stdpp Require Import base strings list gmap fin_maps pretty.

Local Open Scope string_scope.
Local Open Scope Z_scope.

(* ===================================================================== *)
(** * Part I: definitions *)
(* ===================================================================== *)

(** ** Go's [strings] package, as far as the audit uses it *)

Module GoStrings.

(** The line feed that ends every [Printf] format of the audit. *)
Definition nl : string := String "010"%char EmptyString.

(** [len(s) == 0] *)
Definition is_empty (s : string) : bool :=
  match s with EmptyString => true | String _ _ => false end.

(** [strings.HasPrefix(s, prefix)] *)
Definition HasPrefix (s prefix : string) : bool := String.prefix prefix s.

(** [strings.HasSuffix(s, suffix)]:
    [len(s) >= len(suffix) && s[len(s)-len(suffix):] == suffix] *)
Definition HasSuffix (s suffix : string) : bool :=
  (String.length suffix <=? String.length s)%nat
  && String.eqb
       (String.substring (String.length s - String.length suffix)
                         (String.length suffix) s)
       suffix.

(** [strings.Contains(s, substr)]: [substr] starts at some offset of [s],
    the offset [len(s)] included. *)
Fixpoint Contains (s substr : string) : bool :=
  String.prefix substr s
  || match s with
     | EmptyString => false
     | String _ s' => Contains s' substr
     end.

End GoStrings.

(** ** Go's [regexp] package, for the syntax of the two owner-URL patterns

    A string is the sequence of its bytes, and a pattern consumes it byte by
    byte; on ASCII text, which the patterns and the URLs of the examples
    are, that is Go's matching by code point. *)

Module Regexp.

Inductive regex : Type :=
| Fail                                   (* matches no string *)
| Eps                                    (* the empty string *)
| Lit (c : ascii)                        (* a literal character *)
| Dot                                    (* [.]: any character but line feed *)
| NotOneOf (cs : list ascii)             (* [[^...]] *)
| OneOf (cs : list ascii)                (* [[...]] *)
| Cat (r1 r2 : regex)
| Alt (r1 r2 : regex)
| Star (r : regex)
| Plus (r : regex)
| Capture (name : option string) (r : regex).   (* [(...)], [(?P<name>...)] *)

Definition mem_ascii (c : ascii) (cs : list ascii) : bool :=
  existsb (Ascii.eqb c) cs.

(** The strings a pattern matches as a whole. *)
Inductive Matches : regex -> string -> Prop :=
| M_Eps : Matches Eps EmptyString
| M_Lit c : Matches (Lit c) (String c EmptyString)
| M_Dot c : c <> "010"%char -> Matches Dot (String c EmptyString)
| M_NotOneOf cs c :
    mem_ascii c cs = false -> Matches (NotOneOf cs) (String c EmptyString)
| M_OneOf cs c :
    mem_ascii c cs = true -> Matches (OneOf cs) (String c EmptyString)
| M_Cat r1 r2 s1 s2 :
    Matches r1 s1 -> Matches r2 s2 -> Matches (Cat r1 r2) (s1 ++ s2)
| M_Alt_l r1 r2 s : Matches r1 s -> Matches (Alt r1 r2) s
| M_Alt_r r1 r2 s : Matches r2 s -> Matches (Alt r1 r2) s
| M_Star_nil r : Matches (Star r) EmptyString
| M_Star_cons r s1 s2 :
    Matches r s1 -> Matches (Star r) s2 -> Matches (Star r) (s1 ++ s2)
| M_Plus r s1 s2 :
    Matches r s1 -> Matches (Star r) s2 -> Matches (Plus r) (s1 ++ s2)
| M_Capture n r s : Matches r s -> Matches (Capture n r) s.

(** *** Matching by derivatives *)

Fixpoint nullable (r : regex) : bool :=
  match r with
  | Fail => false
  | Eps => true
  | Lit _ | Dot | NotOneOf _ | OneOf _ => false
  | Cat r1 r2 => nullable r1 && nullable r2
  | Alt r1 r2 => nullable r1 || nullable r2
  | Star _ => true
  | Plus r => nullable r
  | Capture _ r => nullable r
  end.

Definition mkCat (r1 r2 : regex) : regex :=
  match r1, r2 with
  | Fail, _ => Fail
  | _, Fail => Fail
  | Eps, _ => r2
  | _, Eps => r1
  | _, _ => Cat r1 r2
  end.

Definition mkAlt (r1 r2 : regex) : regex :=
  match r1, r2 with
  | Fail, _ => r2
  | _, Fail => r1
  | _, _ => Alt r1 r2
  end.

Fixpoint deriv (c : ascii) (r : regex) : regex :=
  match r with
  | Fail | Eps => Fail
  | Lit c' => if Ascii.eqb c c' then Eps else Fail
  | Dot => if Ascii.eqb c "010"%char then Fail else Eps
  | NotOneOf cs => if mem_ascii c cs then Fail else Eps
  | OneOf cs => if mem_ascii c cs then Eps else Fail
  | Cat r1 r2 =>
      mkAlt (mkCat (deriv c r1) r2)
            (if nullable r1 then deriv c r2 else Fail)
  | Alt r1 r2 => mkAlt (deriv c r1) (deriv c r2)
  | Star r1 => mkCat (deriv c r1) (Star r1)
  | Plus r1 => mkCat (deriv c r1) (Star r1)
  | Capture _ r1 => deriv c r1
  end.

(** Whole-string match. *)
Fixpoint matches (r : regex) (s : string) : bool :=
  match s with
  | EmptyString => nullable r
  | String c s' => matches (deriv c r) s'
  end.

(** Does some prefix of [s] match [r]? *)
Fixpoint matches_prefix (r : regex) (s : string) : bool :=
  nullable r
  || match s with
     | EmptyString => false
     | String c s' => matches_prefix (deriv c r) s'
     end.

(** [re.MatchString(s)]: the pattern is not anchored, so it is looked for
    at every offset of [s]. *)
Fixpoint MatchString (re : regex) (s : string) : bool :=
  matches_prefix re s
  || match s with
     | EmptyString => false
     | String _ s' => MatchString re s'
     end.

(** *** Reading a pattern: [regexp.MustCompile]

    A recursive-descent reader for the part of the RE2 syntax that the
    patterns of the audit are written in: literals, [.], [[...]] and
    [[^...]], groups [(...)] and [(?P<name>...)], [|], [*] and [+]. *)

Definition is_meta (c : ascii) : bool :=
  mem_ascii c ("("%char :: ")"%char :: "["%char :: "]"%char :: "|"%char
               :: "*"%char :: "+"%char :: "?"%char :: "."%char
               :: "\"%char :: "{"%char :: "}"%char :: "^"%char
               :: "$"%char :: nil).

(** The characters up to the closing ["]"] of a class, and what follows. *)
Fixpoint read_class (s : string) : option (list ascii * string) :=
  match s with
  | EmptyString => None
  | String c s' =>
      if Ascii.eqb c "]"%char then Some (nil, s')
      else match read_class s' with
           | Some (cs, rest) => Some (c :: cs, rest)
           | None => None
           end
  end.

(** The name of a [(?P<name>] group up to its closing [>], and what follows. *)
Fixpoint read_name (s : string) : option (string * string) :=
  match s with
  | EmptyString => None
  | String c s' =>
      if Ascii.eqb c ">"%char then Some (EmptyString, s')
      else match read_name s' with
           | Some (n, rest) => Some (String c n, rest)
           | None => None
           end
  end.

(** Postfix operators after an atom. *)
Fixpoint read_postfix (fuel : nat) (r : regex) (s : string) : regex * string :=
  match fuel with
  | O => (r, s)
  | S fuel' =>
      match s with
      | String "*"%char s' => read_postfix fuel' (Star r) s'
      | String "+"%char s' => read_postfix fuel' (Plus r) s'
      | _ => (r, s)
      end
  end.

(** [read_alt] reads an alternation up to an unmatched [)] or the end of
    the pattern; [read_cat] one branch of it; [read_atom] one atom with
    its postfix operators. *)
Fixpoint read_alt (fuel : nat) (s : string) : option (regex * string) :=
  match fuel with
  | O => None
  | S fuel' =>
      let read_atom (s : string) : option (regex * string) :=
        match s with
        | EmptyString => None
        | String c s' =>
            if Ascii.eqb c "("%char then
              let group (name : option string) (body : string) :=
                match read_alt fuel' body with
                | Some (r, String ")"%char rest) =>
                    Some (read_postfix fuel' (Capture name r) rest)
                | _ => None
                end in
              match s' with
              | String "?"%char (String "P"%char (String "<"%char s2)) =>
                  match read_name s2 with
                  | Some (n, body) => group (Some n) body
                  | None => None
                  end
              | _ => group None s'
              end
            else if Ascii.eqb c "["%char then
              match s' with
              | String "^"%char s2 =>
                  match read_class s2 with
                  | Some (cs, rest) =>
                      Some (read_postfix fuel' (NotOneOf cs) rest)
                  | None => None
                  end
              | _ =>
                  match read_class s' with
                  | Some (cs, rest) =>
                      Some (read_postfix fuel' (OneOf cs) rest)
                  | None => None
                  end
              end
            else if Ascii.eqb c "."%char then
              Some (read_postfix fuel' Dot s')
            else if is_meta c then None
            else Some (read_postfix fuel' (Lit c) s')
        end in
      let read_cat :=
        (fix read_cat (n : nat) (s : string) : option (regex * string) :=
           match n with
           | O => None
           | S n' =>
               match s with
               | EmptyString => Some (Eps, s)
               | String c _ =>
                   if Ascii.eqb c ")"%char || Ascii.eqb c "|"%char
                   then Some (Eps, s)
                   else
                     match read_atom s with
                     | Some (r, rest) =>
                         match read_cat n' rest with
                         | Some (r', rest') => Some (mkCat r r', rest')
                         | None => None
                         end
                     | None => None
                     end
               end
           end) in
      match read_cat fuel' s with
      | Some (r, String "|"%char rest) =>
          match read_alt fuel' rest with
          | Some (r', rest') => Some (Alt r r', rest')
          | None => None
          end
      | other => other
      end
  end.

(** [regexp.Compile]: the whole pattern has to be read. *)
Definition Compile (pattern : string) : option regex :=
  match read_alt (S (String.length pattern)) pattern with
  | Some (r, EmptyString) => Some r
  | _ => None
  end.

End Regexp.

(** ** Effects: what a run of the command does to the world *)

Module Effects.

(** What the command does that can be observed from outside. *)
Inductive Event : Type :=
| Print (text : string)            (* one call of [fmt.Printf] *)
| HttpGet (url : string)           (* [http.Get] or [client.Get] *)
| ReadBody (url : string)          (* [ioutil.ReadAll(resp.Body)] *)
| ParseOwners (bytes : string)     (* [utils.GetOwnersInfoFromBytes] *)
| Stat (path : string).            (* [os.Stat] *)

(** How a piece of Go code ends. *)
Inductive outcome (A : Type) : Type :=
| Ok (a : A)                       (* falls through, with a value *)
| Panic (msg : string)             (* [panic(...)] or a run-time panic *)
| Exit (code : Z).                 (* [os.Exit(code)] *)
Arguments Ok {A} a.
Arguments Panic {A} msg.
Arguments Exit {A} code.

(** A computation: the events so far, in order, and how it ended. *)
Record M (A : Type) : Type := mkM { trace : list Event; result : outcome A }.
Arguments mkM {A} trace result.
Arguments trace {A} m.
Arguments result {A} m.

Definition ret {A} (a : A) : M A := mkM nil (Ok a).

Definition bind {A B} (m : M A) (k : A -> M B) : M B :=
  match result m with
  | Ok a => let m' := k a in mkM (trace m ++ trace m') (result m')
  | Panic msg => mkM (trace m) (Panic msg)
  | Exit code => mkM (trace m) (Exit code)
  end.

#[global] Instance M_ret : MRet M := @ret.
#[global] Instance M_bind : MBind M := fun A B k m => bind m k.

Definition emit (e : Event) : M unit := mkM (e :: nil) (Ok tt).
Definition printf (text : string) : M unit := emit (Print text).
Definition panic {A} (msg : string) : M A := mkM nil (Panic msg).
Definition os_Exit {A} (code : Z) : M A := mkM nil (Exit code).

(** [if cond { body }] *)
Definition when (cond : bool) (body : M unit) : M unit :=
  if cond then body else ret tt.

(** [for _, x := range xs { body }] over a slice. *)
Fixpoint for_range {A} (xs : list A) (body : A -> M unit) : M unit :=
  match xs with
  | nil => ret tt
  | x :: xs' => bind (body x) (fun _ => for_range xs' body)
  end.

(** The texts written to standard output, in order. *)
Fixpoint printed (t : list Event) : list string :=
  match t with
  | nil => nil
  | Print text :: t' => text :: printed t'
  | _ :: t' => printed t'
  end.

Definition is_network_call (e : Event) : bool :=
  match e with HttpGet _ => true | _ => false end.

(** The run-time panic of reading a field through a nil pointer. *)
Definition nil_dereference : string :=
  "runtime error: invalid memory address or nil pointer dereference".

End Effects.

(** ** The data of [maintainers/pkg/utils] *)

Module Utils.

(** Modelled from the spec: the declaration of [utils.Person] is not part
    of the sources; "name, source-control-service handle, optional company
    affiliation". *)
Record Person : Type := mkPerson
  { person_Name : string; GitHub : string; Company : string }.

(** Modelled from the spec: the declaration of a meeting is not part of the
    sources, and the audit only counts meetings. *)
Record Meeting : Type := mkMeeting { meeting_Description : string }.

(** Modelled from the spec: [utils.Contact]; "chat channel, mailing list,
    optional private mailing list, optional list of source-control-service
    team names, optional Person liaison".  [Liaison] is a pointer in Go. *)
Record Contact : Type := mkContact
  { Slack : string;
    MailingList : string;
    PrivateMailingList : string;
    GithubTeams : list string;
    Liaison : option Person }.

(** Modelled from the spec: [utils.LeadershipGroup]; "three ordered lists
    of Person". *)
Record LeadershipGroup : Type := mkLeadership
  { Chairs : list Person;
    TechnicalLeads : list Person;
    EmeritusLeads : list Person }.

(** Modelled from the spec: [utils.Subproject]; "name, description,
    optional Contact override, list of owner-file URLs, meetings list".
    [Contact] is a pointer in Go. *)
Record Subproject : Type := mkSubproject
  { sub_Name : string;
    Description : string;
    sub_Contact : option Contact;
    Owners : list string;
    sub_Meetings : list Meeting }.

(** Modelled from the spec: [utils.Group], with the fields the audit
    reads. *)
Record Group : Type := mkGroup
  { Dir : string;
    Name : string;
    MissionStatement : string;
    CharterLink : string;
    StakeholderSIGs : list string;
    Label : string;
    Leadership : LeadershipGroup;
    Meetings : list Meeting;
    group_Contact : Contact;
    Subprojects : list Subproject }.

(** Modelled from the spec: [utils.Context]; "holds four named collections
    of Group". *)
Record Context : Type := mkContext
  { Sigs : list Group;
    WorkingGroups : list Group;
    UserGroups : list Group;
    Committees : list Group }.

(** Modelled from the spec: [utils.OwnersInfo]; "labels, approvers,
    reviewers, required-reviewers". *)
Record OwnersInfo : Type := mkOwnersInfo
  { Labels : list string;
    Approvers : list string;
    Reviewers : list string;
    RequiredReviewers : list string }.

End Utils.

(** ** The world the command runs in *)

Module World.
Import Utils.

(** The body of an HTTP response: what [ioutil.ReadAll] returns for it. *)
Record Body : Type := mkBody { body_bytes : string; body_err : option string }.

Record Response : Type := mkResponse { StatusCode : Z; resp_Body : Body }.

(** The oracles of a run.  Every one is a function of its arguments: the
    network and the file system do not change while the audit runs. *)
Record Env : Type := mkEnv
  { (** [time.Now().Format(...)] *)
    Now : string;
    (** [os.Getwd()] *)
    Getwd : string + string;
    (** the package variable [kubernetesDirectory] *)
    kubernetesDirectory : string;
    (** [errors.Is(err, os.ErrNotExist)] for the [err] of [os.Stat(path)] *)
    stat_NotExist : string -> bool;
    (** [path.Join] *)
    path_Join : list string -> string;
    (** [utils.GetSigsYamlFile] *)
    GetSigsYamlFile : string -> string + string;
    (** [utils.GetSigsYaml] *)
    GetSigsYaml : string -> Context + string;
    (** the method [PrefixToGroupMap] of [utils.Context] *)
    PrefixToGroupMap : Context -> gmap string (list Group);
    (** the methods [DirName] and [LabelName] of [utils.Group] *)
    DirName : Group -> string -> string;
    LabelName : Group -> string -> string;
    (** [http.Get(url)] and [client.Get(url)]: a pointer to the response
        and an error, either of which can be nil *)
    http_Get : string -> option Response * option string;
    (** [utils.GetOwnersInfoFromBytes] *)
    GetOwnersInfoFromBytes : string -> OwnersInfo + string;
    (** [%v] of a pointer to a [utils.Person] *)
    fmt_Person : Person -> string }.

End World.

(** ** Formatting and iteration helpers shared by the two versions *)

Module Go.
Import GoStrings Effects Utils World.

(** [%s] of an [error]: its message, or Go's rendering of a nil value. *)
Definition fmt_s_error (err : option string) : string :=
  match err with
  | Some msg => msg
  | None => "%!s(<nil>)"
  end.

(** [resp.StatusCode], [resp.Body]: a field read through a pointer, which
    panics when the pointer is nil. *)
Definition deref {A} (p : option A) : M A :=
  match p with
  | Some a => mret a
  | None => panic nil_dereference
  end.

(** [regexp.MustCompile] *)
Definition MustCompile (pattern : string) : M Regexp.regex :=
  match Regexp.Compile pattern with
  | Some re => mret re
  | None => panic ("regexp: Compile(" +:+ pattern +:+ "): error parsing regexp")
  end.

(** [for _, x := range xs { body }] where [body] updates a local variable
    of the enclosing function (the [found] flags). *)
Fixpoint for_range_with {A S} (xs : list A) (body : A -> S -> M S) (s : S)
  : M S :=
  match xs with
  | nil => mret s
  | x :: xs' => s' ← body x s; for_range_with xs' body s'
  end.

(** [for k, v := range m] over a Go map visits every entry once, in an
    order that the language leaves open and the run time varies.  An
    [IterationOrder] is the choice made for the [i]-th such loop of a
    run; it is admissible when it lists exactly the entries of the map. *)
Definition IterationOrder : Type :=
  nat -> gmap string (list Group) -> list (string * list Group).

Definition admissible (order : IterationOrder) : Prop :=
  forall i m, Permutation (order i m) (map_to_list m).

End Go.

(** ** The version with name filters and graded severities *)

Module Filtered.
Import GoStrings Effects Utils World Go.

(** The patterns, as the source writes them; their closing parenthesis is
    appended, so that the text can be quoted inside a comment. *)
Definition regexRawGitHubURL : string :=
  "https://raw.githubusercontent.com/(?P<org>[^/]+)/(?P<repo>[^/]+)/(?P<branch>[^/]+)/(?P<path>.*"
  +:+ ")".

Definition regexGitHubURL : string :=
  "https://github.com/(?P<org>[^/]+)/(?P<repo>[^/]+)/(blob|tree)/(?P<branch>[^/]+)/(?P<path>.*"
  +:+ ")".

(** The two patterns as [regexp.MustCompile] reads them. *)
Definition reRawGitHubURL : Regexp.regex :=
  Eval vm_compute in
    match Regexp.Compile regexRawGitHubURL with
    | Some re => re
    | None => Regexp.Fail
    end.

Definition reGitHubURL : Regexp.regex :=
  Eval vm_compute in
    match Regexp.Compile regexGitHubURL with
    | Some re => re
    | None => Regexp.Fail
    end.

Section WithEnv.
Variable E : Env.

Definition auditPerson (extra : string) (person : Person) : M unit :=
  when (String.length (person_Name person) =? 0)%nat
    (printf ("WARNING: missing 'name' key in " +:+ extra +:+ nl));;
  when (String.length (GitHub person) =? 0)%nat
    (printf ("WARNING: missing 'github' key in " +:+ extra +:+ " for "
             +:+ person_Name person +:+ nl));;
  when (String.length (Company person) =? 0)%nat
    (printf ("OPTIONAL: missing 'company' key in " +:+ extra +:+ " for "
             +:+ person_Name person +:+ nl)).

Definition auditLeadership (group : Group) (groupType : string) : M unit :=
  when (List.length (Chairs (Leadership group)) =? 0)%nat
    (printf ("WARNING: missing 'chairs' key (in 'leadership' section)" +:+ nl);;
     when (String.eqb groupType "sig")
       (when (List.length (Chairs (Leadership group)) =? 1)%nat
          (printf ("WARNING: please consider adding more folks in as 'chairs' (in 'leadership' section)" +:+ nl))));;
  when (List.length (TechnicalLeads (Leadership group)) =? 0)%nat
    (printf ("WARNING: missing 'tech_leads' key (in 'leadership' section)" +:+ nl);;
     when (String.eqb groupType "sig")
       (printf ("WARNING: if chairs are serving as tech leads, please add them explicitly in 'tech_leads' key (in 'leadership' section)" +:+ nl)));;
  let persons :=
    (nil ++ Chairs (Leadership group)
         ++ TechnicalLeads (Leadership group)
         ++ EmeritusLeads (Leadership group))%list in
  for_range persons (fun person => auditPerson "leadership" person).

(** The inner loop of [auditWorkingGroupStakeholders]: [found] is set,
    and the loop left, at the first sig whose name is [stakeholder]. *)
Fixpoint stakeholder_found (sigs : list Group) (stakeholder : string) : bool :=
  match sigs with
  | nil => false
  | group :: sigs' =>
      if String.eqb (Name group) stakeholder then true (* break *)
      else stakeholder_found sigs' stakeholder
  end.

Definition auditWorkingGroupStakeholders
    (groupType : string) (group : Group) (context : Context) : M unit :=
  if String.eqb groupType "wg" then
    if (List.length (StakeholderSIGs group) =? 0)%nat then
      printf ("WARNING: missing 'stakeholder_sigs' key" +:+ nl)
    else
      for_range (StakeholderSIGs group) (fun stakeholder =>
        let found := stakeholder_found (Sigs context) stakeholder in
        when (negb found)
          (printf ("WARNING: stakeholder_sigs entry '" +:+ stakeholder
                   +:+ "' not found (typo?)" +:+ nl)))
  else
    when (0 <? List.length (StakeholderSIGs group))%nat
      (printf ("ERROR: only 'workinggroups' may have stakeholder_sigs ()" +:+ nl)).

Definition auditCharterLink (pwd : string) (group : Group) : M unit :=
  if HasPrefix (CharterLink group) "http" then
    emit (HttpGet (CharterLink group));;
    let '(resp, err) := http_Get E (CharterLink group) in
    unreachable ← match err with
                  | Some _ => mret true
                  | None => r ← deref resp; mret (negb (StatusCode r =? 200))
                  end;
    when unreachable
      (printf ("WARNING: unable to reach url for 'charter_link' - "
               +:+ CharterLink group +:+ nl))
  else
    let charterPath := path_Join E (pwd :: Dir group :: CharterLink group :: nil) in
    emit (Stat charterPath);;
    when (stat_NotExist E charterPath)
      (printf ("WARNING: missing file for 'charter_link' - " +:+ charterPath +:+ nl)).

Definition auditContact (contact : Contact) : M unit :=
  when (String.length (Slack contact) =? 0)%nat
    (printf ("WARNING: missing 'slack' in contact" +:+ nl));;
  when (String.length (MailingList contact) =? 0)%nat
    (printf ("WARNING: missing 'mailing_list' in contact" +:+ nl));;
  when (String.length (PrivateMailingList contact) =? 0)%nat
    (printf ("OPTIONAL: missing 'private_mailing_list' in contact" +:+ nl));;
  when (List.length (GithubTeams contact) =? 0)%nat
    (printf ("OPTIONAL: missing 'teams' in contact" +:+ nl));;
  match Liaison contact with
  | Some liaison => auditPerson "contact/liaison" liaison
  | None => mret tt
  end.

Definition auditOwnersInfo (group : Group) (info : OwnersInfo) (url : string)
  : M unit :=
  (if (0 <? List.length (Labels info))%nat then
     when (0 <? String.length (Label group))%nat
       (let found :=
          fold_left (fun found label =>
                       if HasSuffix label (Label group) then true else found)
                    (Labels info) false in
        when (negb found)
          (printf ("WARNING: file does not have a label that contains with "
                   +:+ Label group
                   +:+ ". Please ensure OWNERS file has labels reflecting "
                   +:+ Dir group +:+ " - " +:+ url +:+ nl)))
   else
     printf ("WARNING: file at url does not have any labels. Please ensure OWNERS file has labels reflecting "
             +:+ Dir group +:+ " - " +:+ url +:+ nl));;
  let allOwners :=
    (nil ++ Approvers info ++ Reviewers info ++ RequiredReviewers info)%list in
  let found :=
    fold_left (fun found item =>
                 if Contains item (Label group) then true else found)
              allOwners false in
  when (negb found)
    (printf ("WARNING: file at url does not seem to have approvers/reviewers with the "
             +:+ "sig alias (defined in OWNER_ALIASES). Please consider adding a sig alias OWNER_ALIASES and "
             +:+ "add them to approvers/reviewers in this file - " +:+ url +:+ nl)).

(** One turn of the loop of [auditOwnersFiles] over the owner URLs. *)
Definition auditOwnersFiles_body
    (reRawGitHubURL reGitHubURL : Regexp.regex) (group : Group) (url : string)
  : M unit :=
  if negb (Regexp.MatchString reRawGitHubURL url)
     && negb (Regexp.MatchString reGitHubURL url)
  then
    printf ("ERROR: owner urls should match regexp " +:+ regexRawGitHubURL
            +:+ ", found: " +:+ url +:+ nl)
    (* continue *)
  else
    emit (HttpGet url);;
    let '(resp, err) := http_Get E url in
    ok ← match err with
         | None => r ← deref resp; mret (StatusCode r =? 200)
         | Some _ => mret false
         end;
    if ok : bool then
      r ← deref resp;
      emit (ReadBody url);;
      let bytes := body_bytes (resp_Body r) in
      match body_err (resp_Body r) with
      | Some err =>
          printf ("ERROR: unable to read owners file at " +:+ url
                  +:+ " url - " +:+ err +:+ nl)
      | None => mret tt
      end;;
      emit (ParseOwners bytes);;
      match GetOwnersInfoFromBytes E bytes with
      | inr err =>
          printf ("ERROR: unable to parse owners file at " +:+ url
                  +:+ " url - " +:+ err +:+ nl)
      | inl info =>
          if negb (Contains url "kubernetes/kubernetes") then
            mret tt (* continue *)
          else auditOwnersInfo group info url
      end
    else
      r ← deref resp;
      printf ("WARNING: stale url " +:+ url +:+ " - http status code = "
              +:+ pretty (StatusCode r) +:+ " - " +:+ fmt_s_error err +:+ nl).

Definition auditOwnersFiles (group : Group) (subproject : Subproject) : M unit :=
  reRawGitHubURL ← MustCompile regexRawGitHubURL;
  reGitHubURL ← MustCompile regexGitHubURL;
  printf (nl +:+ ">>>> Processing owners files for " +:+ Dir group +:+ "/"
          +:+ sub_Name subproject +:+ nl);;
  when (List.length (Owners subproject) =? 0)%nat
    (printf ("ERROR: subproject " +:+ sub_Name subproject +:+ " has no owners" +:+ nl));;
  for_range (Owners subproject)
    (auditOwnersFiles_body reRawGitHubURL reGitHubURL group).

(** One turn of the loop of [auditSubProject] over the subprojects. *)
Definition auditSubProject_body (group : Group) (subproject : Subproject)
  : M unit :=
  printf (nl +:+ ">>>> Processing subproject " +:+ sub_Name subproject
          +:+ " under " +:+ Dir group +:+ nl);;
  when (String.length (sub_Name subproject) =? 0)%nat
    (printf ("WARNING: missing 'name' key" +:+ nl));;
  when (String.length (Description subproject) =? 0)%nat
    (printf ("WARNING: missing 'description' key" +:+ nl));;
  match sub_Contact subproject with
  | None => printf ("WARNING: missing 'contact' key" +:+ nl)
  | Some contact => auditContact contact
  end;;
  (if (List.length (Owners subproject) =? 0)%nat then
     printf ("ERROR: missing 'owners' key" +:+ nl)
   else auditOwnersFiles group subproject);;
  when (List.length (sub_Meetings subproject) =? 0)%nat
    (printf ("WARNING: missing 'meetings' key" +:+ nl)).

Definition auditSubProject (group : Group) : M unit :=
  for_range (Subprojects group) (auditSubProject_body group).

(** The end of [auditGroup]: its two statements about subprojects. *)
Definition auditGroup_subprojects (groupType : string) (group : Group)
  : M unit :=
  when (String.eqb groupType "sig")
    (if (List.length (Subprojects group) =? 0)%nat then
       printf ("WARNING: missing 'subprojects' key" +:+ nl)
     else auditSubProject group);;
  when (negb (String.eqb groupType "committee")
        && negb (String.eqb groupType "sig"))
    (when (0 <? List.length (Subprojects group))%nat
       (printf ("ERROR: only sigs and committees can own code / have subprojects, found: "
                +:+ pretty (List.length (Subprojects group))
                +:+ " subprojects" +:+ nl))).

Definition auditGroup
    (pwd : string) (groupType : string) (group : Group) (context : Context)
  : M unit :=
  when (String.length (Dir group) =? 0)%nat
    (printf ("WARNING: missing 'dir' key" +:+ nl));;
  when (String.length (Name group) =? 0)%nat
    (printf ("WARNING: missing 'name' key" +:+ nl));;
  printf (nl +:+ ">>>> Processing " +:+ groupType +:+ " [" +:+ Dir group
          +:+ "/" +:+ Name group +:+ "]" +:+ nl);;
  let expectedDir := DirName E group groupType in
  when (negb (String.eqb expectedDir (Dir group)))
    (printf ("ERROR: expected dir: " +:+ expectedDir +:+ ", got: "
             +:+ Dir group +:+ nl));;
  let expectedLabel := LabelName E group groupType in
  when (negb (String.eqb expectedLabel (Label group)))
    (printf ("ERROR: expected label: " +:+ expectedLabel +:+ ", got: "
             +:+ Label group +:+ nl));;
  when (String.eqb groupType "sig")
    (when (String.length (MissionStatement group) =? 0)%nat
       (printf ("ERROR: missing 'mission_statement' key" +:+ nl));;
     if (String.length (CharterLink group) =? 0)%nat then
       printf ("ERROR: missing 'charter_link' key" +:+ nl)
     else auditCharterLink pwd group);;
  when (String.eqb groupType "wg")
    (auditWorkingGroupStakeholders groupType group context);;
  when (String.length (Label group) =? 0)%nat
    (printf ("WARNING: missing 'label' keys" +:+ nl));;
  auditLeadership group groupType;;
  when (List.length (Meetings group) =? 0)%nat
    (printf ("WARNING: missing 'meetings' key" +:+ nl));;
  auditContact (group_Contact group);;
  auditGroup_subprojects groupType group.

(** The body of the loop of [auditCmd.Run] over the names given on the
    command line; [entries] is the order in which this turn's [range]
    over the map of groups visits its entries. *)
Definition Run_body
    (pwd : string) (context : Context)
    (entries : list (string * list Group)) (name : string) : M unit :=
  found ← for_range_with entries (fun '(groupType, groups) found =>
            for_range_with groups (fun group found =>
              if String.eqb name "all"
                 || Contains (Name group) name
                 || Contains (Dir group) name
              then auditGroup pwd groupType group context;; mret true
              else mret found) found) false;
  when (negb found) (printf ("[" +:+ name +:+ "] not found" +:+ nl)).

(** The names are audited one after the other; the [i]-th of them with
    the [i]-th iteration order. *)
Fixpoint Run_names
    (order : IterationOrder) (i : nat) (pwd : string) (context : Context)
    (args : list string) : M unit :=
  match args with
  | nil => mret tt
  | name :: args' =>
      Run_body pwd context (order i (PrefixToGroupMap E context)) name;;
      Run_names order (S i) pwd context args'
  end.

(** [auditCmd.Run] *)
Definition Run (order : IterationOrder) (args : list string) : M unit :=
  printf ("Running script : " +:+ Now E +:+ nl);;
  pwd ← match Getwd E with
        | inl pwd => mret pwd
        | inr err => panic err
        end;
  emit (Stat (kubernetesDirectory E));;
  when (stat_NotExist E (kubernetesDirectory E))
    (printf ("please use --kubernetes-directory to set the path to the kubernetes directory. "
             +:+ kubernetesDirectory E +:+ " does not exist" +:+ nl);;
     os_Exit 1);;
  sigsYamlPath ← match GetSigsYamlFile E pwd with
                 | inl p => mret p
                 | inr err => panic ("unable to find sigs.yaml file: " +:+ err)
                 end;
  context ← match GetSigsYaml E sigsYamlPath with
            | inl c => mret c
            | inr err => panic ("error parsing file: " +:+ sigsYamlPath
                                +:+ " - " +:+ err)
            end;
  Run_names order 0 pwd context args;;
  printf ("Done." +:+ nl).

End WithEnv.
End Filtered.

(** ** The version that audits every group, with WARNING findings only *)

Module Unconditional.
Import GoStrings Effects Utils World Go.

Section WithEnv.
Variable E : Env.

Definition auditPerson
    (group : Group) (groupType : string) (extra : string) (person : Person)
  : M unit :=
  when (String.length (person_Name person) =? 0)%nat
    (printf ("WARNING: missing " +:+ extra +:+ " name for "
             +:+ fmt_Person E person +:+ " for " +:+ groupType +:+ "/"
             +:+ Dir group +:+ nl));;
  when (String.length (GitHub person) =? 0)%nat
    (printf ("WARNING: missing " +:+ extra +:+ " github id for "
             +:+ fmt_Person E person +:+ " for " +:+ groupType +:+ "/"
             +:+ Dir group +:+ nl));;
  when (String.length (Company person) =? 0)%nat
    (printf ("WARNING: missing " +:+ extra +:+ " company for "
             +:+ fmt_Person E person +:+ " for " +:+ groupType +:+ "/"
             +:+ Dir group +:+ nl)).

Definition auditLeadership (group : Group) (groupType : string) : M unit :=
  when (List.length (Chairs (Leadership group)) =? 0)%nat
    (printf ("WARNING: missing 'leadership/chairs' for " +:+ groupType
             +:+ "/" +:+ Dir group +:+ nl);;
     when (String.eqb groupType "sigs")
       (when (List.length (Chairs (Leadership group)) =? 1)%nat
          (printf ("WARNING: please consider adding more folks in 'leadership/chairs' for "
                   +:+ groupType +:+ "/" +:+ Dir group +:+ nl))));;
  when (List.length (TechnicalLeads (Leadership group)) =? 0)%nat
    (printf ("WARNING: missing 'leadership/tech_leads' for " +:+ groupType
             +:+ "/" +:+ Dir group +:+ nl);;
     when (String.eqb groupType "sigs")
       (printf ("WARNING: if chairs are serving as tech leads, please add them explicitly in 'leadership/tech_leads' for "
                +:+ groupType +:+ "/" +:+ Dir group +:+ nl)));;
  let persons :=
    (nil ++ Chairs (Leadership group)
         ++ TechnicalLeads (Leadership group)
         ++ EmeritusLeads (Leadership group))%list in
  for_range persons (fun person =>
    auditPerson group groupType "leadership" person).

(** The inner loop of [auditWorkingGroupStakeholders]: [found] is set,
    and the loop left, at the first sig whose name is [stakeholder]. *)
Fixpoint stakeholder_found (sigs : list Group) (stakeholder : string) : bool :=
  match sigs with
  | nil => false
  | group :: sigs' =>
      if String.eqb (Name group) stakeholder then true (* break *)
      else stakeholder_found sigs' stakeholder
  end.

Definition auditWorkingGroupStakeholders
    (group : Group) (groupType : string) (context : Context) : M unit :=
  if (List.length (StakeholderSIGs group) =? 0)%nat then
    printf ("WARNING: missing 'stakeholder_sigs' for " +:+ groupType
            +:+ "/" +:+ Dir group +:+ nl)
  else
    for_range (StakeholderSIGs group) (fun stakeholder =>
      let found := stakeholder_found (Sigs context) stakeholder in
      when (negb found)
        (printf ("WARNING: stakeholder_sigs entry '" +:+ stakeholder
                 +:+ "' not found for " +:+ groupType +:+ "/"
                 +:+ Dir group +:+ nl))).

Definition auditCharterLink (pwd : string) (groupType : string) (group : Group)
  : M unit :=
  if HasPrefix (CharterLink group) "http" then
    emit (HttpGet (CharterLink group));;
    let '(resp, err) := http_Get E (CharterLink group) in
    unreachable ← match err with
                  | Some _ => mret true
                  | None => r ← deref resp; mret (negb (StatusCode r =? 200))
                  end;
    when unreachable
      (printf ("WARNING: unable to reach url " +:+ CharterLink group
               +:+ " for " +:+ groupType +:+ "/" +:+ Dir group +:+ nl))
  else
    let charterPath := path_Join E (pwd :: Dir group :: CharterLink group :: nil) in
    emit (Stat charterPath);;
    when (stat_NotExist E charterPath)
      (printf ("WARNING: missing file " +:+ charterPath +:+ " for "
               +:+ groupType +:+ "/" +:+ Dir group +:+ nl)).

Definition auditContact (contact : Contact) (groupType : string) (group : Group)
  : M unit :=
  when (String.length (Slack contact) =? 0)%nat
    (printf ("WARNING: missing 'slack' for " +:+ groupType +:+ "/"
             +:+ Dir group +:+ " under contact" +:+ nl));;
  when (String.length (MailingList contact) =? 0)%nat
    (printf ("WARNING: missing 'mailing_list' for " +:+ groupType +:+ "/"
             +:+ Dir group +:+ " under contact" +:+ nl));;
  when (String.length (PrivateMailingList contact) =? 0)%nat
    (printf ("WARNING: missing 'private_mailing_list' for " +:+ groupType
             +:+ "/" +:+ Dir group +:+ " under contact" +:+ nl));;
  when (List.length (GithubTeams contact) =? 0)%nat
    (printf ("WARNING: missing 'teams' for " +:+ groupType +:+ "/"
             +:+ Dir group +:+ " under contact" +:+ nl));;
  match Liaison contact with
  | Some liaison => auditPerson group groupType "contact/liaison" liaison
  | None => mret tt
  end.

(** One turn of the loop of [auditSubProject] over the subprojects. *)
Definition auditSubProject_body
    (group : Group) (groupType : string) (subproject : Subproject) : M unit :=
  let extra :=
    "[" +:+ sub_Name subproject +:+ "/" +:+ Description subproject +:+ "]" in
  let where_ := " for a group under " +:+ groupType +:+ "/" +:+ Dir group +:+ nl in
  when (String.length (sub_Name subproject) =? 0)%nat
    (printf ("WARNING: missing name for subproject " +:+ extra +:+ where_));;
  when (String.length (Description subproject) =? 0)%nat
    (printf ("WARNING: missing description for subproject " +:+ extra +:+ where_));;
  match sub_Contact subproject with
  | None => printf ("WARNING: missing contact for subproject " +:+ extra +:+ where_)
  | Some contact => auditContact contact groupType group
  end;;
  when (List.length (Owners subproject) =? 0)%nat
    (printf ("WARNING: missing owners for subproject " +:+ extra +:+ where_));;
  when (List.length (sub_Meetings subproject) =? 0)%nat
    (printf ("WARNING: missing meetings for subproject " +:+ extra +:+ where_)).

Definition auditSubProject (group : Group) (groupType : string) : M unit :=
  for_range (Subprojects group) (auditSubProject_body group groupType).

Definition auditGroup
    (pwd : string) (groupType : string) (group : Group) (context : Context)
  : M unit :=
  when (String.length (Dir group) =? 0)%nat
    (printf ("WARNING: missing 'dir' for a group under " +:+ groupType
             +:+ "/" +:+ Name group +:+ nl));;
  when (String.length (Name group) =? 0)%nat
    (printf ("WARNING: missing 'name' for a group under " +:+ groupType
             +:+ "/" +:+ Dir group +:+ nl));;
  printf (">>>> Processing " +:+ groupType +:+ " [" +:+ Dir group +:+ "/"
          +:+ Name group +:+ "]" +:+ nl);;
  when (String.length (MissionStatement group) =? 0)%nat
    (printf ("WARNING: missing 'mission_statement' for " +:+ groupType
             +:+ "/" +:+ Dir group +:+ nl));;
  (if (String.length (CharterLink group) =? 0)%nat then
     printf ("WARNING: missing 'charter_link' for " +:+ groupType +:+ "/"
             +:+ Dir group +:+ nl)
   else auditCharterLink pwd groupType group);;
  when (String.eqb groupType "workinggroups")
    (auditWorkingGroupStakeholders group groupType context);;
  when (String.length (Label group) =? 0)%nat
    (printf ("WARNING: missing 'label' for " +:+ groupType +:+ "/"
             +:+ Dir group +:+ nl));;
  auditLeadership group groupType;;
  when (List.length (Meetings group) =? 0)%nat
    (printf ("WARNING: missing 'meetings' for " +:+ groupType +:+ "/"
             +:+ Dir group +:+ nl));;
  auditContact (group_Contact group) groupType group;;
  if (List.length (Subprojects group) =? 0)%nat then
    printf ("WARNING: missing 'subprojects' for a group under " +:+ groupType
            +:+ "/" +:+ Dir group +:+ nl)
  else auditSubProject group groupType.

(** The map literal [groupMap] of [auditCmd.Run]. *)
Definition groupMap (context : Context) : gmap string (list Group) :=
  list_to_map (("sigs", Sigs context)
               :: ("usergroups", UserGroups context)
               :: ("workinggroups", WorkingGroups context)
               :: ("committees", Committees context) :: nil).

(** The two nested loops of [auditCmd.Run], for the order [entries] in
    which the outer one visits the map. *)
Definition Run_groups
    (pwd : string) (context : Context) (entries : list (string * list Group))
  : M unit :=
  for_range entries (fun '(groupType, groups) =>
    for_range groups (fun group => auditGroup pwd groupType group context)).

(** [auditCmd.Run] *)
Definition Run (order : IterationOrder) : M unit :=
  printf ("Running script : " +:+ Now E +:+ nl);;
  pwd ← match Getwd E with
        | inl pwd => mret pwd
        | inr err => panic err
        end;
  sigsYamlPath ← match GetSigsYamlFile E pwd with
                 | inl p => mret p
                 | inr err => panic ("unable to find sigs.yaml file: " +:+ err)
                 end;
  context ← match GetSigsYaml E sigsYamlPath with
            | inl c => mret c
            | inr err => panic ("error parsing file: " +:+ sigsYamlPath
                                +:+ " - " +:+ err)
            end;
  Run_groups pwd context (order 0%nat (groupMap context));;
  printf ("Done." +:+ nl).

End WithEnv.
End Unconditional.

(** ** Properties of runs *)

Section RunProperties.
Import GoStrings Effects Utils World Go.

(** Every text that [m] writes satisfies [P]. *)
Definition prints_only {A} (P : string -> Prop) (m : M A) : Prop :=
  forall text, In (Print text) (trace m) -> P text.

(** [m] neither panics nor exits. *)
Definition finishes (m : M unit) : Prop := result m = Ok tt.

(** The URL has one of the two accepted shapes. *)
Definition accepted_shape (url : string) : Prop :=
  Regexp.MatchString Filtered.reRawGitHubURL url = true
  \/ Regexp.MatchString Filtered.reGitHubURL url = true.

(** The filter of a name given on the command line. *)
Definition selects (name : string) (group : Group) : bool :=
  String.eqb name "all" || Contains (Name group) name || Contains (Dir group) name.

(** The audits of one category for one name. *)
Definition audit_selected
    (E : Env) (pwd : string) (context : Context) (name : string)
    (entry : string * list Group) : M unit :=
  for_range (snd entry) (fun group =>
    when (selects name group)
      (Filtered.auditGroup E pwd (fst entry) group context)).

End RunProperties.

(** ** The texts of the findings that the properties name *)

Section Findings.
Import GoStrings Effects Utils World Go.

Definition is_warning (text : string) : Prop := HasPrefix text "WARNING: " = true.

(** How the suggestion to add chairs begins, in both versions. *)
Definition more_chairs_prefix : string :=
  "WARNING: please consider adding more folks".

Definition not_more_chairs (text : string) : Prop :=
  HasPrefix text more_chairs_prefix = false.

(** The finding for a stakeholder entry that names no sig. *)
Definition stakeholder_warning (stakeholder : string) : string :=
  "WARNING: stakeholder_sigs entry '" +:+ stakeholder
  +:+ "' not found (typo?)" +:+ nl.

(** How the ERROR about stakeholders outside working groups begins. *)
Definition stakeholder_error_prefix : string :=
  "ERROR: only 'workinggroups' may have stakeholder_sigs".

Definition not_stakeholder_error (text : string) : Prop :=
  HasPrefix text stakeholder_error_prefix = false.

Definition url_shape_error (url : string) : string :=
  "ERROR: owner urls should match regexp " +:+ Filtered.regexRawGitHubURL
  +:+ ", found: " +:+ url +:+ nl.

Definition stale_url_warning (url : string) (code : Z) (err : option string)
  : string :=
  "WARNING: stale url " +:+ url +:+ " - http status code = " +:+ pretty code
  +:+ " - " +:+ Go.fmt_s_error err +:+ nl.

Definition missing_labels_warning (group : Group) (url : string) : string :=
  "WARNING: file at url does not have any labels. Please ensure OWNERS file has labels reflecting "
  +:+ Dir group +:+ " - " +:+ url +:+ nl.

Definition label_suffix_warning (group : Group) (url : string) : string :=
  "WARNING: file does not have a label that contains with " +:+ Label group
  +:+ ". Please ensure OWNERS file has labels reflecting " +:+ Dir group
  +:+ " - " +:+ url +:+ nl.

Definition alias_warning (url : string) : string :=
  "WARNING: file at url does not seem to have approvers/reviewers with the "
  +:+ "sig alias (defined in OWNER_ALIASES). Please consider adding a sig alias OWNER_ALIASES and "
  +:+ "add them to approvers/reviewers in this file - " +:+ url +:+ nl.

Definition missing_owners_error : string := "ERROR: missing 'owners' key" +:+ nl.

Definition missing_owners_warning
    (group : Group) (groupType : string) (subproject : Subproject) : string :=
  "WARNING: missing owners for subproject "
  +:+ ("[" +:+ sub_Name subproject +:+ "/" +:+ Description subproject +:+ "]")
  +:+ (" for a group under " +:+ groupType +:+ "/" +:+ Dir group +:+ nl).

Definition missing_subprojects_warning : string :=
  "WARNING: missing 'subprojects' key" +:+ nl.

Definition subprojects_error (count : nat) : string :=
  "ERROR: only sigs and committees can own code / have subprojects, found: "
  +:+ pretty count +:+ " subprojects" +:+ nl.

Definition running_script (E : Env) : string :=
  "Running script : " +:+ Now E +:+ nl.

Definition done_line : string := "Done." +:+ nl.

Definition not_found_line (name : string) : string :=
  "[" +:+ name +:+ "] not found" +:+ nl.

End Findings.

(** ** The two accepted shapes of an owner URL *)

Section Shapes.
Import GoStrings Regexp.

(** The pattern for the literal text [p], followed by [r]. *)
Fixpoint lits (p : string) (r : regex) : regex :=
  match p with
  | EmptyString => r
  | String c p' => Cat (Lit c) (lits p' r)
  end.

(** A named group for one part of a path: [(?P<name>[^/]+)]. *)
Definition segment_pattern (name : string) : regex :=
  Capture (Some name) (Plus (NotOneOf ("/"%char :: nil))).

(** Does [c] occur in [s]? *)
Fixpoint has_char (c : ascii) (s : string) : bool :=
  match s with
  | EmptyString => false
  | String c' s' => Ascii.eqb c' c || has_char c s'
  end.

(** One part of a path: not empty, and without a slash. *)
Definition segment (s : string) : Prop :=
  s <> EmptyString /\ has_char "/"%char s = false.

(** Text without a line feed. *)
Definition one_line (s : string) : Prop := has_char "010"%char s = false.

(** The raw-content shape: the host, in which [.] stands for any character
    but a line feed, then [(org)/(repo)/(branch)/(path)]. *)
Definition raw_url_shape (s : string) : Prop :=
  exists c1 c2 org repo branch path,
    s = "https://raw" +:+ String c1 "githubusercontent" +:+ String c2 "com/"
        +:+ org +:+ "/" +:+ repo +:+ "/" +:+ branch +:+ "/" +:+ path
    /\ c1 <> "010"%char /\ c2 <> "010"%char
    /\ segment org /\ segment repo /\ segment branch /\ one_line path.

(** The web-UI shape: the host, then [(org)/(repo)], [blob] or [tree], and
    [(branch)/(path)]. *)
Definition web_url_shape (s : string) : Prop :=
  exists c1 org repo kind branch path,
    s = "https://github" +:+ String c1 "com/"
        +:+ org +:+ "/" +:+ repo +:+ "/" +:+ kind +:+ "/" +:+ branch +:+ "/" +:+ path
    /\ c1 <> "010"%char /\ (kind = "blob" \/ kind = "tree")
    /\ segment org /\ segment repo /\ segment branch /\ one_line path.

End Shapes.

(** ** The repository of an owner URL *)

Section Repository.

(** [s] without its prefix [p]. *)
Fixpoint strip_prefix (p s : string) : option string :=
  match p, s with
  | EmptyString, _ => Some s
  | String a p', String b s' =>
      if Ascii.eqb a b then strip_prefix p' s' else None
  | String _ _, EmptyString => None
  end.

(** The part of [s] before its first slash, and the part after it. *)
Fixpoint cut_at_slash (s : string) : option (string * string) :=
  match s with
  | EmptyString => None
  | String c s' =>
      if Ascii.eqb c "/"%char then Some (EmptyString, s')
      else match cut_at_slash s' with
           | Some (seg, rest) => Some (String c seg, rest)
           | None => None
           end
  end.

(** The repository of an owner URL, in the words of the specification: the
    [(org)/(repo)] that follows the host in either accepted shape.  The
    audit itself never computes it. *)
Definition url_repository (url : string) : option (string * string) :=
  let path :=
    match strip_prefix "https://raw.githubusercontent.com/" url with
    | Some rest => Some rest
    | None => strip_prefix "https://github.com/" url
    end in
  match path with
  | Some rest =>
      match cut_at_slash rest with
      | Some (org, rest') =>
          match cut_at_slash rest' with
          | Some (repo, _) => Some (org, repo)
          | None => None
          end
      | None => None
      end
  | None => None
  end.

End Repository.

(** ** Inputs and worlds of the examples *)

Section Examples.
Import GoStrings Effects Utils World Go.

(** A complete person and a complete contact block. *)
Definition ann : Person := mkPerson "Ann" "ann" "Acme".

Definition contact_complete : Contact :=
  mkContact "#sig-apps" "sig-apps@example.org" "sig-apps-leads@example.org"
            ("sig-apps-leads" :: nil) None.

(** A sig led by one chair, complete otherwise. *)
Definition sig_one_chair : Group :=
  mkGroup "sig-apps" "Apps" "Deploying applications" "charter.md" nil "apps"
          (mkLeadership (ann :: nil) (ann :: nil) nil)
          (mkMeeting "Regular SIG Meeting" :: nil) contact_complete nil.

(** A sig that lists a stakeholder, and is complete otherwise. *)
Definition sig_with_stakeholders : Group :=
  mkGroup "sig-apps" "Apps" "Deploying applications" "charter.md"
          ("Node" :: nil) "apps"
          (mkLeadership (ann :: ann :: nil) (ann :: nil) nil)
          (mkMeeting "Regular SIG Meeting" :: nil) contact_complete nil.

(** A sig whose label is missing. *)
Definition sig_unlabelled : Group :=
  mkGroup "sig-apps" "Apps" "Deploying applications" "charter.md" nil
          EmptyString
          (mkLeadership (ann :: ann :: nil) (ann :: nil) nil)
          (mkMeeting "Regular SIG Meeting" :: nil) contact_complete nil.

(** The working group and the sigs of the stakeholder example of the
    specification; the groups of the other categories carry the name that
    no sig has. *)
Definition sig_named (name : string) : Group :=
  mkGroup ("sig-" +:+ name) name "mission" "charter.md" nil name
          (mkLeadership (ann :: ann :: nil) (ann :: nil) nil)
          (mkMeeting "weekly" :: nil) contact_complete nil.

Definition wg_example : Group :=
  mkGroup "wg-example" "Example" "mission" "charter.md"
          ("sig-apps" :: "sig-nonexistent" :: nil) "example"
          (mkLeadership (ann :: ann :: nil) (ann :: nil) nil)
          (mkMeeting "weekly" :: nil) contact_complete nil.

Definition context_example : Context :=
  mkContext (sig_named "sig-node" :: sig_named "sig-apps" :: nil)
            (wg_example :: nil)
            (sig_named "sig-nonexistent" :: nil)
            (sig_named "sig-nonexistent" :: nil).

(** A committee without subprojects, and one with a subproject of which
    nothing but the name is declared. *)
Definition committee_steering : Group :=
  mkGroup "committee-steering" "Steering" "Governing the project" "charter.md"
          nil "steering"
          (mkLeadership (ann :: ann :: nil) (ann :: nil) nil)
          (mkMeeting "Monthly" :: nil) contact_complete nil.

Definition subproject_bare : Subproject :=
  mkSubproject "funding" EmptyString None nil nil.

Definition committee_with_subproject : Group :=
  mkGroup "committee-steering" "Steering" "Governing the project" "charter.md"
          nil "steering"
          (mkLeadership (ann :: ann :: nil) (ann :: nil) nil)
          (mkMeeting "Monthly" :: nil) contact_complete
          (subproject_bare :: nil).

(** A subproject that lacks nothing but owners. *)
Definition subproject_without_owners : Subproject :=
  mkSubproject "kubectl" "The command line client" (Some contact_complete) nil
               (mkMeeting "Bi-weekly" :: nil).

(** A sig whose only subproject names two ownership files. *)
Definition subproject_with_owners : Subproject :=
  mkSubproject "kubectl" "The command line client" (Some contact_complete)
               ("https://github.com/kubernetes/kubernetes/blob/master/OWNERS"
                :: "https://raw.githubusercontent.com/kubernetes/kubernetes/master/OWNERS"
                :: nil)
               (mkMeeting "Bi-weekly" :: nil).

Definition sig_with_owners : Group :=
  mkGroup "sig-cli" "CLI" "The command line" "charter.md" nil "cli"
          (mkLeadership (ann :: ann :: nil) (ann :: nil) nil)
          (mkMeeting "Bi-weekly" :: nil) contact_complete
          (subproject_with_owners :: nil).

(** Parsed ownership files. *)
Definition owners_labelled : OwnersInfo :=
  mkOwnersInfo ("sig/node" :: nil) ("ann" :: nil) nil nil.

Definition owners_blank : OwnersInfo := mkOwnersInfo nil nil nil nil.

Definition owners_of_ann : OwnersInfo := mkOwnersInfo nil ("ann" :: nil) nil nil.

(** Owner URLs: the three of the specification, and the OWNERS file of
    another repository of the organization. *)
Definition kubernetes_owners_url : string :=
  "https://raw.githubusercontent.com/kubernetes/kubernetes/master/OWNERS".

Definition github_owners_url : string :=
  "https://github.com/kubernetes/kubernetes/blob/master/OWNERS".

Definition example_com_url : string := "https://example.com/OWNERS".

Definition template_project_url : string :=
  "https://raw.githubusercontent.com/kubernetes/kubernetes-template-project/master/OWNERS".

(** Governance files. *)
Definition no_context : Context := mkContext nil nil nil nil.

Definition two_categories : Context :=
  mkContext (sig_one_chair :: nil) (wg_example :: nil) nil nil.

(** The server cannot be reached: no response, and an error. *)
Definition unreachable : string -> option Response * option string :=
  fun url => (None, Some ("Get " +:+ url +:+ ": dial tcp: connection refused")).

(** Every URL is answered with the same ownership file. *)
Definition serves (bytes : string) : string -> option Response * option string :=
  fun _ => (Some (mkResponse 200 (mkBody bytes None)), None).

(** A world in which the governance file holds [context], owner URLs are
    answered by [get] and ownership files are read by [parse].  The groups
    are keyed by category; the derived directory and label of a group are
    the stored ones, and every file exists. *)
Definition example_world
    (context : Context)
    (get : string -> option Response * option string)
    (parse : string -> OwnersInfo + string) : Env :=
  mkEnv "10-30-2026 12:00:00" (inl "/community") "/go/src/k8s.io/kubernetes"
        (fun _ => false) (String.concat "/")
        (fun pwd => inl (pwd +:+ "/sigs.yaml")) (fun _ => inl context)
        (fun c => list_to_map (("sig", Sigs c) :: ("wg", WorkingGroups c)
                               :: ("ug", UserGroups c)
                               :: ("committee", Committees c) :: nil))
        (fun g _ => Dir g) (fun g _ => Label g)
        get parse
        (fun p => "&{" +:+ person_Name p +:+ " " +:+ GitHub p +:+ " "
                  +:+ Company p +:+ "}").

Definition plain_world : Env :=
  example_world no_context unreachable (fun _ => inl owners_blank).

Definition template_project_world : Env :=
  example_world no_context (serves "approvers: [ann]")
    (fun _ => inl owners_of_ann).

(** One sig with ownership files, and no network. *)
Definition offline_world : Env :=
  example_world (mkContext (sig_with_owners :: nil) nil nil nil) unreachable
    (fun _ => inl owners_blank).

Definition two_categories_world : Env :=
  example_world two_categories unreachable (fun _ => inl owners_blank).

(** Two iteration orders: the entries as the map lists them, and the other
    way round. *)
Definition order_forward : IterationOrder := fun _ m => map_to_list m.

Definition order_backward : IterationOrder := fun _ m => reverse (map_to_list m).

End Examples.

(** ** Further properties of runs, and the texts and inputs they name *)

Section FurtherVocabulary.
Import GoStrings Effects Utils World Go.

(** Every event of [m] satisfies [Q]. *)
Definition events_only {A} (Q : Event -> Prop) (m : M A) : Prop :=
  forall e, In e (trace m) -> Q e.

(** The event is a write to standard output. *)
Definition is_print (e : Event) : Prop := exists text, e = Print text.

(** A finding with its severity, or the banner that announces a group, a
    subproject or the ownership files of a subproject. *)
Definition finding_or_banner (text : string) : Prop :=
  HasPrefix text "WARNING: "
  || HasPrefix text "ERROR: "
  || HasPrefix text "OPTIONAL: "
  || HasPrefix text (nl +:+ ">>>> Processing") = true.

(** The message of [auditCmd.Run] for a missing kubernetes directory. *)
Definition missing_directory_line (E : Env) : string :=
  "please use --kubernetes-directory to set the path to the kubernetes directory. "
  +:+ kubernetesDirectory E +:+ " does not exist" +:+ nl.

(** A text of a run of the version with name filters: a finding, a banner,
    or one of the four lines of [auditCmd.Run] itself. *)
Definition filtered_run_line (E : Env) (text : string) : Prop :=
  finding_or_banner text
  \/ text = running_script E
  \/ text = missing_directory_line E
  \/ (exists name, text = not_found_line name)
  \/ text = done_line.

(** A WARNING, or the banner of a group in the unconditional version. *)
Definition warning_or_banner (text : string) : Prop :=
  HasPrefix text "WARNING: " || HasPrefix text ">>>> Processing" = true.

(** A text of a run of the unconditional version. *)
Definition unconditional_run_line (E : Env) (text : string) : Prop :=
  warning_or_banner text \/ text = running_script E \/ text = done_line.

(** How the ERROR of [auditOwnersFiles] for a subproject without owners
    begins. *)
Definition no_owners_error_prefix : string := "ERROR: subproject ".

Definition not_no_owners_error (text : string) : Prop :=
  HasPrefix text no_owners_error_prefix = false.

(** The HTTP client keeps the contract of [net/http]: without an error there
    is a response. *)
Definition http_contract (E : Env) : Prop :=
  forall url, fst (http_Get E url) = None -> snd (http_Get E url) <> None.

(** The findings of Charter Verification. *)
Definition charter_unreachable_warning (link : string) : string :=
  "WARNING: unable to reach url for 'charter_link' - " +:+ link +:+ nl.

Definition charter_missing_warning (path : string) : string :=
  "WARNING: missing file for 'charter_link' - " +:+ path +:+ nl.

(** The answer to the request for a charter link is a response with status
    200 and no error. *)
Definition charter_reached (answer : option Response * option string) : bool :=
  match answer with
  | (Some r, None) => StatusCode r =? 200
  | _ => false
  end.

(** The findings of [auditOwnersFiles] for a body that cannot be read and
    for a file that cannot be parsed. *)
Definition read_error (url err : string) : string :=
  "ERROR: unable to read owners file at " +:+ url +:+ " url - " +:+ err +:+ nl.

Definition parse_error (url err : string) : string :=
  "ERROR: unable to parse owners file at " +:+ url +:+ " url - " +:+ err +:+ nl.

(** What reading the body of a response leaves in the trace. *)
Definition read_events (url : string) (r : Response) : list Event :=
  ReadBody url
  :: match body_err (resp_Body r) with
     | Some err => Print (read_error url err) :: nil
     | None => nil
     end.

(** A sig whose charter is a remote document. *)
Definition sig_remote_charter : Group :=
  mkGroup "sig-apps" "Apps" "Deploying applications"
          "https://example.org/sig-apps/charter.md" nil "apps"
          (mkLeadership (ann :: ann :: nil) (ann :: nil) nil)
          (mkMeeting "Regular SIG Meeting" :: nil) contact_complete nil.

(** A server that answers every request with a truncated body. *)
Definition serves_truncated (bytes : string)
  : string -> option Response * option string :=
  fun _ => (Some (mkResponse 200 (mkBody bytes (Some "unexpected EOF"))), None).

Definition truncated_world : Env :=
  example_world no_context (serves_truncated "approvers: [a")
    (fun _ => inr "yaml: line 1: did not find expected ',' or ']'").

(** A world in which the start of a run can fail: the working directory
    is [wd], the kubernetes directory is missing when [missing] holds, and
    the governance file is found by [file] and read by [yaml]. *)
Definition startup_world
    (wd : string + string) (missing : bool)
    (file : string -> string + string) (yaml : string -> Context + string)
  : Env :=
  mkEnv (Now plain_world) wd (kubernetesDirectory plain_world)
        (fun _ => missing) (path_Join plain_world) file yaml
        (PrefixToGroupMap plain_world) (DirName plain_world)
        (LabelName plain_world) (http_Get plain_world)
        (GetOwnersInfoFromBytes plain_world) (fmt_Person plain_world).

(** The stakeholder findings of the version that audits every group. *)
Definition unconditional_stakeholders_missing
    (groupType : string) (group : Group) : string :=
  "WARNING: missing 'stakeholder_sigs' for " +:+ groupType +:+ "/"
  +:+ Dir group +:+ nl.

Definition unconditional_stakeholder_warning
    (stakeholder groupType : string) (group : Group) : string :=
  "WARNING: stakeholder_sigs entry '" +:+ stakeholder +:+ "' not found for "
  +:+ groupType +:+ "/" +:+ Dir group +:+ nl.

(** The findings of the version with name filters about a person and about
    the leadership of a group. *)
Definition person_findings (extra : string) (person : Person) : list Event :=
  ((if (String.length (person_Name person) =? 0)%nat
    then Print ("WARNING: missing 'name' key in " +:+ extra +:+ nl) :: nil
    else nil)
   ++ (if (String.length (GitHub person) =? 0)%nat
       then Print ("WARNING: missing 'github' key in " +:+ extra +:+ " for "
                   +:+ person_Name person +:+ nl) :: nil
       else nil)
   ++ (if (String.length (Company person) =? 0)%nat
       then Print ("OPTIONAL: missing 'company' key in " +:+ extra +:+ " for "
                   +:+ person_Name person +:+ nl) :: nil
       else nil))%list.

Definition missing_chairs_warning : string :=
  "WARNING: missing 'chairs' key (in 'leadership' section)" +:+ nl.

Definition missing_tech_leads_warning : string :=
  "WARNING: missing 'tech_leads' key (in 'leadership' section)" +:+ nl.

Definition tech_leads_hint : string :=
  "WARNING: if chairs are serving as tech leads, please add them explicitly in 'tech_leads' key (in 'leadership' section)"
  +:+ nl.

(** The line that announces the audit of a group. *)
Definition processing_line (groupType : string) (group : Group) : string :=
  nl +:+ ">>>> Processing " +:+ groupType +:+ " [" +:+ Dir group +:+ "/"
  +:+ Name group +:+ "]" +:+ nl.

(** Nothing is missing from a person, a contact, a leadership, or a
    working group. *)
Definition complete_person (person : Person) : Prop :=
  person_Name person <> EmptyString /\ GitHub person <> EmptyString
  /\ Company person <> EmptyString.

Definition complete_contact (contact : Contact) : Prop :=
  Slack contact <> EmptyString /\ MailingList contact <> EmptyString
  /\ PrivateMailingList contact <> EmptyString /\ GithubTeams contact <> nil
  /\ (forall liaison, Liaison contact = Some liaison -> complete_person liaison).

Definition complete_leadership (leadership : LeadershipGroup) : Prop :=
  Chairs leadership <> nil /\ TechnicalLeads leadership <> nil
  /\ Forall complete_person
       (Chairs leadership ++ TechnicalLeads leadership
        ++ EmeritusLeads leadership).

Definition complete_working_group
    (E : Env) (group : Group) (context : Context) : Prop :=
  Dir group <> EmptyString /\ Name group <> EmptyString
  /\ DirName E group "wg" = Dir group /\ LabelName E group "wg" = Label group
  /\ StakeholderSIGs group <> nil
  /\ (forall stakeholder, In stakeholder (StakeholderSIGs group) ->
        exists sig, In sig (Sigs context) /\ Name sig = stakeholder)
  /\ Label group <> EmptyString
  /\ complete_leadership (Leadership group)
  /\ Meetings group <> nil
  /\ complete_contact (group_Contact group)
  /\ Subprojects group = nil.

(** A working group that declares neither a mission statement nor a
    charter, and is complete otherwise. *)
Definition wg_complete : Group :=
  mkGroup "wg-example" "Example" EmptyString EmptyString
          ("sig-apps" :: nil) "example"
          (mkLeadership (ann :: nil) (ann :: nil) nil)
          (mkMeeting "weekly" :: nil) contact_complete nil.

(** Every owner URL of an accepted shape, in every subproject of the group,
    gets a response to its request. *)
Definition owners_answered (E : Env) (group : Group) : Prop :=
  Forall (fun subproject =>
            Forall (fun url => accepted_shape url ->
                               fst (http_Get E url) <> None)
                   (Owners subproject))
         (Subprojects group).

(** One sig with ownership files, and a server that answers every request
    with the same ownership file. *)
Definition served_world : Env :=
  example_world (mkContext (sig_with_owners :: nil) nil nil nil)
    (serves "approvers: [ann]") (fun _ => inl owners_of_ann).

End FurtherVocabulary.

(* ===================================================================== *)
(** * Part II: properties *)
(* ===================================================================== *)

(** ** Laws of the effect monad *)

Section MonadLaws.
Import Effects.

Lemma bind_unfold {A B} (m : M A) (k : A -> M B) : (m ≫= k) = bind m k.
Proof. reflexivity. Qed.

Lemma M_eta {A} (m : M A) : mkM (trace m) (result m) = m.
Proof. now destruct m. Qed.

Lemma bind_ret_l {A B} (a : A) (k : A -> M B) : bind (ret a) k = k a.
Proof. unfold bind; simpl. apply M_eta. Qed.

Lemma bind_ret_r {A} (m : M A) : bind m ret = m.
Proof.
  destruct m as [t [a|msg|code]]; unfold bind; simpl; try reflexivity.
  now rewrite app_nil_r.
Qed.

Lemma bind_ret_tt (m : M unit) : bind m (fun _ => ret tt) = m.
Proof.
  destruct m as [t [[]|msg|code]]; unfold bind; simpl; try reflexivity.
  now rewrite app_nil_r.
Qed.

Lemma bind_assoc {A B C} (m : M A) (k : A -> M B) (h : B -> M C) :
  bind (bind m k) h = bind m (fun a => bind (k a) h).
Proof.
  destruct m as [t [a|msg|code]]; unfold bind; simpl; try reflexivity.
  destruct (k a) as [t' [b|msg|code]]; simpl; try reflexivity.
  now rewrite app_assoc.
Qed.

Lemma trace_bind {A B} (m : M A) (k : A -> M B) :
  trace (bind m k)
  = match result m with
    | Ok a => (trace m ++ trace (k a))%list
    | _ => trace m
    end.
Proof. unfold bind. now destruct (result m). Qed.

Lemma result_bind {A B} (m : M A) (k : A -> M B) :
  result (bind m k)
  = match result m with
    | Ok a => result (k a)
    | Panic msg => Panic msg
    | Exit code => Exit code
    end.
Proof. unfold bind. now destruct (result m). Qed.

(** A statement that falls through passes its events on to what follows. *)
Lemma bind_ok {A B} (t : list Event) (a : A) (k : A -> M B) :
  bind (mkM t (Ok a)) k = mkM (t ++ trace (k a)) (result (k a)).
Proof. reflexivity. Qed.

(** A statement that panics ends the run where it stands. *)
Lemma bind_panic {A B} (t : list Event) (msg : string) (k : A -> M B) :
  bind (mkM t (Panic msg)) k = mkM t (Panic msg).
Proof. reflexivity. Qed.

Lemma for_range_nil {A} (body : A -> M unit) : for_range nil body = ret tt.
Proof. reflexivity. Qed.

Lemma for_range_cons {A} (x : A) (xs : list A) (body : A -> M unit) :
  for_range (x :: xs) body = bind (body x) (fun _ => for_range xs body).
Proof. reflexivity. Qed.

Lemma for_range_app {A} (xs ys : list A) (body : A -> M unit) :
  for_range (xs ++ ys) body
  = bind (for_range xs body) (fun _ => for_range ys body).
Proof.
  induction xs as [|x xs IH]; simpl.
  - now rewrite bind_ret_l.
  - rewrite IH. now rewrite bind_assoc.
Qed.

(** A loop whose turns all fall through writes the turns' events one after
    the other. *)
Lemma for_range_finished {A} (xs : list A) (body : A -> M unit) :
  Forall (fun x => result (body x) = Ok tt) xs ->
  for_range xs body = mkM (flat_map (fun x => trace (body x)) xs) (Ok tt).
Proof.
  induction 1 as [|x xs Hx _ IH]; simpl; [reflexivity|].
  rewrite IH. unfold bind. now rewrite Hx.
Qed.

End MonadLaws.

(** ** What a computation writes *)

Section Prints.
Import Effects.

Context (P : string -> Prop).

Lemma prints_only_ret {A} (a : A) : prints_only P (ret a).
Proof. intros text []. Qed.

Lemma prints_only_mret {A} (a : A) : prints_only P (mret a : M A).
Proof. intros text []. Qed.

Lemma prints_only_panic {A} msg : prints_only P (panic msg : M A).
Proof. intros text []. Qed.

Lemma prints_only_printf text : P text -> prints_only P (printf text).
Proof. intros H t [[= <-]|[]]. exact H. Qed.

Lemma prints_only_emit e :
  (forall text, e <> Print text) -> prints_only P (emit e).
Proof. intros H t [->|[]]. now destruct (H t). Qed.

Lemma prints_only_bind {A B} (m : M A) (k : A -> M B) :
  prints_only P m -> (forall a, prints_only P (k a)) ->
  prints_only P (m ≫= k).
Proof.
  intros Hm Hk text. rewrite bind_unfold, trace_bind.
  destruct (result m) as [a| |]; [|apply Hm..].
  rewrite in_app_iff. intros [H|H]; [now apply Hm | now apply (Hk a)].
Qed.

Lemma prints_only_when (c : bool) (m : M unit) :
  prints_only P m -> prints_only P (when c m).
Proof. destruct c; [trivial | intros _; apply prints_only_ret]. Qed.

Lemma prints_only_for_range {A} (xs : list A) (body : A -> M unit) :
  (forall x, prints_only P (body x)) -> prints_only P (for_range xs body).
Proof.
  intros H. induction xs as [|x xs IH]; simpl.
  - apply prints_only_ret.
  - apply (prints_only_bind (body x)); auto.
Qed.

Lemma prints_only_for_range_with {A S} (xs : list A) (body : A -> S -> M S) s :
  (forall x s, prints_only P (body x s)) ->
  prints_only P (Go.for_range_with xs body s).
Proof.
  intros H. revert s. induction xs as [|x xs IH]; intros s; simpl.
  - apply prints_only_mret.
  - apply prints_only_bind; auto.
Qed.

Lemma prints_only_deref {A} (p : option A) : prints_only P (Go.deref p).
Proof. destruct p; [apply prints_only_mret | apply prints_only_panic]. Qed.

End Prints.

(** A proof that every text written by a piece of the audit satisfies a
    property follows the shape of the code; the texts themselves are then
    told apart by their first characters. *)
Ltac prints_only_step :=
  lazymatch goal with
  | |- prints_only _ (mbind _ _) => apply prints_only_bind; [|intros ?]
  | |- prints_only _ (Effects.bind _ _) =>
      rewrite <- bind_unfold; apply prints_only_bind; [|intros ?]
  | |- prints_only _ (Effects.when true ?m) => change (Effects.when true m) with m
  | |- prints_only _ (Effects.when false _) => apply prints_only_ret
  | |- prints_only _ (Effects.when _ _) => apply prints_only_when
  | |- prints_only _ (Effects.printf _) => apply prints_only_printf
  | |- prints_only _ (Effects.emit _) =>
      apply prints_only_emit; intros ?; discriminate
  | |- prints_only _ (Effects.for_range _ _) =>
      apply prints_only_for_range; intros ?
  | |- prints_only _ (Go.for_range_with _ _ _) =>
      apply prints_only_for_range_with; intros ? ?
  | |- prints_only _ (Go.deref _) => apply prints_only_deref
  | |- prints_only _ (Effects.ret _) => apply prints_only_ret
  | |- prints_only _ (mret _) => apply prints_only_mret
  | |- prints_only _ (Effects.panic _) => apply prints_only_panic
  | |- prints_only _ (if ?c then _ else _) => destruct c
  | |- prints_only _ (match ?x with _ => _ end) => destruct x
  | |- prints_only _ (let _ := _ in _) => cbv zeta
  end.

Ltac prints_only_auto := repeat prints_only_step.

(** Running the statements of a goal whose outcome is known. *)
Ltac run_monad :=
  cbv beta iota zeta delta
    [mbind mret Effects.M_bind Effects.M_ret Effects.bind Effects.ret
     Effects.emit Effects.printf Effects.panic Effects.os_Exit Effects.when
     Go.deref Effects.trace Effects.result];
  simpl app.

(** Case analysis on the conditions of the [if] statements of a goal. *)
Ltac destruct_condition :=
  match goal with
  | |- context [Effects.when ?c _] =>
      lazymatch c with
      | true => fail
      | false => fail
      | negb ?c' => destruct c'
      | _ => destruct c
      end
  | |- context [if ?c then _ else _] =>
      lazymatch c with
      | true => fail
      | false => fail
      | negb ?c' => destruct c'
      | _ => destruct c
      end
  end.

Ltac destruct_conditions := repeat (destruct_condition; simpl negb).

(** ** Go's [strings] functions *)

Section GoStringsFacts.
Import GoStrings.

Lemma prefix_empty (s : string) : String.prefix EmptyString s = true.
Proof. now destruct s. Qed.

(** Every string contains the empty string. *)
Lemma Contains_empty (s : string) : Contains s EmptyString = true.
Proof. destruct s; reflexivity. Qed.

Lemma append_nil_l (s : string) : EmptyString +:+ s = s.
Proof. reflexivity. Qed.

Lemma append_cons (c : ascii) (a b : string) :
  String c a +:+ b = String c (a +:+ b).
Proof. reflexivity. Qed.

Lemma append_assoc (a b c : string) : (a +:+ b) +:+ c = a +:+ (b +:+ c).
Proof.
  induction a as [|x a IH]; [reflexivity|].
  now rewrite !append_cons, IH.
Qed.

Lemma prefix_app (p s : string) : String.prefix p (p +:+ s) = true.
Proof.
  induction p as [|c p IH]; [apply prefix_empty|].
  rewrite append_cons. simpl.
  destruct (ascii_dec c c) as [_|Hne]; [exact IH | now destruct Hne].
Qed.

Lemma prefix_inv (p s : string) :
  String.prefix p s = true -> exists rest, s = p +:+ rest.
Proof.
  revert s. induction p as [|c p IH]; intros s.
  - intros _. now exists s.
  - destruct s as [|c' s]; simpl; [discriminate|].
    destruct (ascii_dec c c') as [->|]; [|discriminate].
    intros H. destruct (IH _ H) as [rest ->]. now exists rest.
Qed.

(** [Contains] is the search for a substring. *)
Lemma Contains_spec (s substr : string) :
  Contains s substr = true
  <-> exists before after, s = before +:+ substr +:+ after.
Proof.
  induction s as [|c s IH].
  - cbn [Contains]. rewrite orb_false_r. split.
    + intros H. apply prefix_inv in H as [rest Hr]. now exists EmptyString, rest.
    + intros (b & a & H). destruct b as [|c' b].
      * rewrite append_nil_l in H. rewrite H. apply prefix_app.
      * rewrite append_cons in H. discriminate.
  - cbn [Contains]. rewrite orb_true_iff, IH. split.
    + intros [H|(b & a & ->)].
      * apply prefix_inv in H as [rest Hr]. now exists EmptyString, rest.
      * now exists (String c b), a.
    + intros (b & a & H). destruct b as [|c' b].
      * left. rewrite append_nil_l in H. rewrite H. apply prefix_app.
      * right. rewrite append_cons in H. injection H as _ ->. now exists b, a.
Qed.

End GoStringsFacts.

(** ** The matcher agrees with the meaning of patterns *)

Section RegexpFacts.
Import Regexp.

Lemma append_nil_r (s : string) : s +:+ EmptyString = s.
Proof.
  induction s as [|c s IH]; [reflexivity|]. now rewrite append_cons, IH.
Qed.

Lemma append_eq_nil (s1 s2 : string) :
  s1 +:+ s2 = EmptyString -> s1 = EmptyString /\ s2 = EmptyString.
Proof.
  destruct s1 as [|c s1]; [now rewrite append_nil_l|].
  rewrite append_cons. discriminate.
Qed.

Lemma append_eq_cons (s1 s2 : string) (c : ascii) (s : string) :
  s1 +:+ s2 = String c s ->
  (s1 = EmptyString /\ s2 = String c s)
  \/ exists s1', s1 = String c s1' /\ s = s1' +:+ s2.
Proof.
  destruct s1 as [|c' s1].
  - rewrite append_nil_l. auto.
  - rewrite append_cons. intros [= -> <-]. right. now exists s1.
Qed.

Lemma nullable_spec (r : regex) : nullable r = true <-> Matches r EmptyString.
Proof.
  induction r as [| |c| |cs|cs|r1 IH1 r2 IH2|r1 IH1 r2 IH2|r IH|r IH|n r IH];
    simpl.
  - split; [discriminate | inversion 1].
  - split; [constructor | reflexivity].
  - split; [discriminate | inversion 1].
  - split; [discriminate | inversion 1].
  - split; [discriminate | inversion 1].
  - split; [discriminate | inversion 1].
  - rewrite andb_true_iff, IH1, IH2. split.
    + intros [H1 H2]. apply (M_Cat _ _ EmptyString EmptyString H1 H2).
    + inversion 1 as [| | | | |? ? s1 s2 H1 H2 [Hr1 Hr2] Hs| | | | | |]; subst.
      apply append_eq_nil in Hs as [-> ->]. auto.
  - rewrite orb_true_iff, IH1, IH2. split.
    + intros [H|H]; [now apply M_Alt_l | now apply M_Alt_r].
    + inversion 1; subst; auto.
  - split; [constructor | reflexivity].
  - rewrite IH. split.
    + intros H. apply (M_Plus _ EmptyString EmptyString H). constructor.
    + inversion 1 as [| | | | | | | | | |? s1 s2 H1 H2 Hr Hs|]; subst.
      apply append_eq_nil in Hs as [-> ->]. exact H1.
  - rewrite IH. split; [now constructor | now inversion 1].
Qed.

Lemma mkCat_spec (r1 r2 : regex) (s : string) :
  Matches (mkCat r1 r2) s <-> Matches (Cat r1 r2) s.
Proof.
  assert (forall r, Matches (Cat Fail r) s <-> Matches Fail s) as HF1.
  { intros r. split; inversion 1; subst.
    match goal with H : Matches Fail _ |- _ => inversion H end. }
  assert (forall r, Matches (Cat r Fail) s <-> Matches Fail s) as HF2.
  { intros r. split; inversion 1; subst.
    match goal with H : Matches Fail _ |- _ => inversion H end. }
  assert (forall r, Matches (Cat Eps r) s <-> Matches r s) as HE1.
  { intros r. split.
    - inversion 1 as [| | | | |? ? s1 s2 H1 H2 Hr Hs| | | | | |]; subst.
      inversion H1; subst. now rewrite append_nil_l.
    - intros H. rewrite <- (append_nil_l s). constructor; [constructor | exact H]. }
  assert (forall r, Matches (Cat r Eps) s <-> Matches r s) as HE2.
  { intros r. split.
    - inversion 1 as [| | | | |? ? s1 s2 H1 H2 Hr Hs| | | | | |]; subst.
      inversion H2; subst. now rewrite append_nil_r.
    - intros H. rewrite <- (append_nil_r s). constructor; [exact H | constructor]. }
  destruct r1, r2; simpl;
    rewrite ?HF1, ?HF2, ?HE1, ?HE2; reflexivity.
Qed.

Lemma mkAlt_spec (r1 r2 : regex) (s : string) :
  Matches (mkAlt r1 r2) s <-> Matches (Alt r1 r2) s.
Proof.
  assert (forall r, Matches (Alt Fail r) s <-> Matches r s) as HF1.
  { intros r. split.
    - inversion 1; subst; [|assumption].
      match goal with H : Matches Fail _ |- _ => inversion H end.
    - now apply M_Alt_r. }
  assert (forall r, Matches (Alt r Fail) s <-> Matches r s) as HF2.
  { intros r. split.
    - inversion 1; subst; [assumption|].
      match goal with H : Matches Fail _ |- _ => inversion H end.
    - now apply M_Alt_l. }
  destruct r1, r2; simpl; rewrite ?HF1, ?HF2; reflexivity.
Qed.

(** A repetition that matches a string with a first character starts with a
    turn that matches that character. *)
Lemma Matches_Star_cons (r : regex) (c : ascii) (s : string) :
  Matches (Star r) (String c s) ->
  exists s1 s2, s = s1 +:+ s2 /\ Matches r (String c s1) /\ Matches (Star r) s2.
Proof.
  intros H. remember (Star r) as r' eqn:Hr. remember (String c s) as s' eqn:Hs.
  revert s Hs.
  induction H as [| | | | | | | | |r0 s1 s2 H1 _ H2 IH2| |]; try discriminate.
  injection Hr as ->. intros s Hs.
  destruct (append_eq_cons _ _ _ _ Hs) as [[-> ->]|(s1' & -> & ->)].
  - now apply IH2.
  - now exists s1', s2.
Qed.

Lemma deriv_spec (c : ascii) (r : regex) (s : string) :
  Matches (deriv c r) s <-> Matches r (String c s).
Proof.
  revert s.
  induction r as [| |c'| |cs|cs|r1 IH1 r2 IH2|r1 IH1 r2 IH2|r IH|r IH|n r IH];
    intros s; simpl.
  - split; inversion 1.
  - split; inversion 1.
  - destruct (Ascii.eqb_spec c c') as [->|Hne].
    + split; [inversion 1; constructor | inversion 1; constructor].
    + split; [inversion 1 | inversion 1; congruence].
  - destruct (Ascii.eqb_spec c "010"%char) as [->|Hne].
    + split; [inversion 1 | inversion 1; congruence].
    + split; [inversion 1; now constructor | inversion 1; constructor].
  - destruct (mem_ascii c cs) eqn:Hm.
    + split; [inversion 1 | inversion 1; congruence].
    + split; [inversion 1; now constructor | inversion 1; constructor].
  - destruct (mem_ascii c cs) eqn:Hm.
    + split; [inversion 1; now constructor | inversion 1; constructor].
    + split; [inversion 1 | inversion 1; congruence].
  - rewrite mkAlt_spec. split.
    + inversion 1 as [| | | | | |? ? ? H1| ? ? ? H2| | | |]; subst.
      * apply mkCat_spec in H1.
        inversion H1 as [| | | | |? ? s1 s2 Ha Hb Hr Hs| | | | | |]; subst.
        apply IH1 in Ha. rewrite <- append_cons. now constructor.
      * destruct (nullable r1) eqn:Hn; [|inversion H2].
        apply nullable_spec in Hn. apply IH2 in H2.
        rewrite <- (append_nil_l (String c s)). now constructor.
    + inversion 1 as [| | | | |? ? s1 s2 Ha Hb Hr Hs| | | | | |]; subst.
      destruct (append_eq_cons _ _ _ _ Hs) as [[-> ->]|(s1' & -> & ->)].
      * apply M_Alt_r. apply nullable_spec in Ha. rewrite Ha. now apply IH2.
      * apply M_Alt_l, mkCat_spec. constructor; [now apply IH1 | exact Hb].
  - rewrite mkAlt_spec. split.
    + inversion 1; subst; [apply M_Alt_l | apply M_Alt_r]; firstorder.
    + inversion 1; subst; [apply M_Alt_l | apply M_Alt_r]; firstorder.
  - rewrite mkCat_spec. split.
    + inversion 1 as [| | | | |? ? s1 s2 Ha Hb Hr Hs| | | | | |]; subst.
      apply IH in Ha. rewrite <- append_cons. now constructor.
    + intros H. apply Matches_Star_cons in H as (s1 & s2 & -> & Ha & Hb).
      constructor; [now apply IH | exact Hb].
  - rewrite mkCat_spec. split.
    + inversion 1 as [| | | | |? ? s1 s2 Ha Hb Hr Hs| | | | | |]; subst.
      apply IH in Ha. rewrite <- append_cons. now constructor.
    + inversion 1 as [| | | | | | | | | |? s1 s2 Ha Hb Hr Hs|]; subst.
      destruct (append_eq_cons _ _ _ _ Hs) as [[-> ->]|(s1' & -> & ->)].
      * apply Matches_Star_cons in Hb as (s1 & s2 & -> & Ha' & Hb').
        constructor; [now apply IH | exact Hb'].
      * constructor; [now apply IH | exact Hb].
  - rewrite IH. split; [now constructor | now inversion 1].
Qed.

(** The matcher decides whether a pattern matches a whole string. *)
Lemma matches_spec (r : regex) (s : string) :
  matches r s = true <-> Matches r s.
Proof.
  revert r. induction s as [|c s IH]; intros r; simpl.
  - apply nullable_spec.
  - rewrite IH. apply deriv_spec.
Qed.

Lemma matches_prefix_spec (r : regex) (s : string) :
  matches_prefix r s = true
  <-> exists s1 s2, s = s1 +:+ s2 /\ Matches r s1.
Proof.
  revert r. induction s as [|c s IH]; intros r; cbn [matches_prefix].
  - rewrite orb_false_r, nullable_spec. split.
    + intros H. now exists EmptyString, EmptyString.
    + intros (s1 & s2 & Hs & H). symmetry in Hs.
      apply append_eq_nil in Hs as [-> _]. exact H.
  - rewrite orb_true_iff, nullable_spec, IH. split.
    + intros [H|(s1 & s2 & -> & H)].
      * now exists EmptyString, (String c s).
      * exists (String c s1), s2. split; [reflexivity | now apply deriv_spec].
    + intros (s1 & s2 & Hs & H). symmetry in Hs.
      destruct (append_eq_cons _ _ _ _ Hs) as [[-> _]|(s1' & -> & ->)].
      * now left.
      * right. exists s1', s2. split; [reflexivity | now apply deriv_spec].
Qed.

(** [MatchString] looks for a part of the string that the pattern matches. *)
Lemma MatchString_spec (re : regex) (s : string) :
  MatchString re s = true
  <-> exists before found after,
        s = before +:+ found +:+ after /\ Matches re found.
Proof.
  induction s as [|c s IH]; cbn [MatchString].
  - rewrite orb_false_r, matches_prefix_spec. split.
    + intros (s1 & s2 & Hs & H). now exists EmptyString, s1, s2.
    + intros (b & f & a & Hs & H). symmetry in Hs.
      apply append_eq_nil in Hs as [-> Hs].
      apply append_eq_nil in Hs as [-> ->].
      now exists EmptyString, EmptyString.
  - rewrite orb_true_iff, matches_prefix_spec, IH. split.
    + intros [(s1 & s2 & Hs & H)|(b & f & a & -> & H)].
      * now exists EmptyString, s1, s2.
      * now exists (String c b), f, a.
    + intros (b & f & a & Hs & H). destruct b as [|c' b].
      * left. rewrite append_nil_l in Hs. now exists f, a.
      * right. rewrite append_cons in Hs. injection Hs as _ ->.
        now exists b, f, a.
Qed.

End RegexpFacts.

(** ** What the two patterns match *)

Section PatternShapes.
Import GoStrings Regexp.

Lemma reRaw_structure :
  Filtered.reRawGitHubURL
  = lits "https://raw" (Cat Dot (lits "githubusercontent" (Cat Dot (lits "com/"
      (Cat (segment_pattern "org") (Cat (Lit "/") (Cat (segment_pattern "repo")
        (Cat (Lit "/") (Cat (segment_pattern "branch")
          (Cat (Lit "/") (Capture (Some "path") (Star Dot)))))))))))).
Proof. reflexivity. Qed.

Lemma reGH_structure :
  Filtered.reGitHubURL
  = lits "https://github" (Cat Dot (lits "com/"
      (Cat (segment_pattern "org") (Cat (Lit "/") (Cat (segment_pattern "repo")
        (Cat (Lit "/") (Cat (Capture None (Alt (lits "blo" (Lit "b")) (lits "tre" (Lit "e"))))
         (Cat (Lit "/") (Cat (segment_pattern "branch")
          (Cat (Lit "/") (Capture (Some "path") (Star Dot)))))))))))).
Proof. reflexivity. Qed.

Lemma Matches_Cat_iff r1 r2 s :
  Matches (Cat r1 r2) s
  <-> exists s1 s2, s = s1 +:+ s2 /\ Matches r1 s1 /\ Matches r2 s2.
Proof.
  split.
  - inversion 1; subst. eauto.
  - intros (s1 & s2 & -> & H1 & H2). now constructor.
Qed.

Lemma Matches_Lit_Cat c r s :
  Matches (Cat (Lit c) r) s <-> exists s', s = String c s' /\ Matches r s'.
Proof.
  rewrite Matches_Cat_iff. split.
  - intros (s1 & s2 & -> & H1 & H2). inversion H1; subst. eauto.
  - intros (s' & -> & H). exists (String c EmptyString), s'.
    repeat split; [constructor | exact H].
Qed.

Lemma Matches_Dot_Cat r s :
  Matches (Cat Dot r) s
  <-> exists c s', s = String c s' /\ c <> "010"%char /\ Matches r s'.
Proof.
  rewrite Matches_Cat_iff. split.
  - intros (s1 & s2 & -> & H1 & H2). inversion H1; subst. eauto.
  - intros (c & s' & -> & Hc & H). exists (String c EmptyString), s'.
    repeat split; [now constructor | exact H].
Qed.

Lemma Matches_lits p r s :
  Matches (lits p r) s <-> exists s', s = p +:+ s' /\ Matches r s'.
Proof.
  revert s. induction p as [|c p IH]; intros s; simpl.
  - split; [eauto | now intros (s' & -> & H)].
  - rewrite Matches_Lit_Cat. split.
    + intros (s' & -> & H). apply IH in H as (s2 & -> & H). eauto.
    + intros (s' & -> & H). exists (p +:+ s'). split; [reflexivity|].
      apply IH. eauto.
Qed.

Lemma has_char_app c s1 s2 :
  has_char c (s1 +:+ s2) = has_char c s1 || has_char c s2.
Proof.
  induction s1 as [|c' s1 IH]; [reflexivity|].
  rewrite append_cons. simpl. now rewrite IH, orb_assoc.
Qed.

Lemma Matches_Star_NotOneOf c s :
  Matches (Star (NotOneOf (c :: nil))) s <-> has_char c s = false.
Proof.
  split.
  - intros H. remember (Star (NotOneOf (c :: nil))) as r eqn:Hr.
    induction H as [| | | | | | | | |r0 s1 s2 H1 _ H2 IH2| |]; try discriminate.
    + reflexivity.
    + injection Hr as ->. inversion H1 as [| | |cs c' Hm| | | | | | | |]; subst.
      rewrite append_cons, append_nil_l. simpl.
      unfold mem_ascii in Hm. simpl in Hm. rewrite orb_false_r in Hm.
      rewrite Hm. now apply IH2.
  - induction s as [|c' s IH]; simpl; [constructor|].
    intros H. apply orb_false_elim in H as [Hc Hs].
    change (String c' s) with (String c' EmptyString +:+ s).
    constructor; [|now apply IH].
    constructor. unfold mem_ascii. simpl. now rewrite Hc.
Qed.

Lemma Matches_Star_Dot s : Matches (Star Dot) s <-> one_line s.
Proof.
  unfold one_line. split.
  - intros H. remember (Star Dot) as r eqn:Hr.
    induction H as [| | | | | | | | |r0 s1 s2 H1 _ H2 IH2| |]; try discriminate.
    + reflexivity.
    + injection Hr as ->. inversion H1 as [| |c' Hc| | | | | | | | |]; subst.
      rewrite append_cons, append_nil_l. simpl.
      apply Ascii.eqb_neq in Hc. rewrite Hc. now apply IH2.
  - induction s as [|c' s IH]; simpl; [constructor|].
    intros H. apply orb_false_elim in H as [Hc Hs].
    change (String c' s) with (String c' EmptyString +:+ s).
    constructor; [|now apply IH].
    constructor. now apply Ascii.eqb_neq.
Qed.

Lemma Matches_segment name s : Matches (segment_pattern name) s <-> segment s.
Proof.
  unfold segment_pattern, segment. split.
  - inversion 1 as [| | | | | | | | | | |n r s' H1]; subst.
    inversion H1 as [| | | | | | | | | |r s1 s2 Ha Hb|]; subst.
    inversion Ha as [| | |cs c' Hm| | | | | | | |]; subst.
    rewrite append_cons, append_nil_l. split; [discriminate|].
    simpl. unfold mem_ascii in Hm. simpl in Hm. rewrite orb_false_r in Hm.
    rewrite Hm. now apply Matches_Star_NotOneOf.
  - intros [Hne Hs]. destruct s as [|c s]; [contradiction|].
    simpl in Hs. apply orb_false_elim in Hs as [Hc Hs].
    constructor. change (String c s) with (String c EmptyString +:+ s).
    constructor; [|now apply Matches_Star_NotOneOf].
    constructor. unfold mem_ascii. simpl. now rewrite Hc.
Qed.

Lemma Matches_path s : Matches (Capture (Some "path") (Star Dot)) s <-> one_line s.
Proof.
  rewrite <- Matches_Star_Dot. split; [now inversion 1 | now constructor].
Qed.

Lemma Matches_segment_slash name r s :
  Matches (Cat (segment_pattern name) (Cat (Lit "/") r)) s
  <-> exists seg rest, s = seg +:+ "/" +:+ rest /\ segment seg /\ Matches r rest.
Proof.
  rewrite Matches_Cat_iff. split.
  - intros (s1 & s2 & -> & H1 & H2). apply Matches_segment in H1.
    apply Matches_Lit_Cat in H2 as (rest & -> & H2). now exists s1, rest.
  - intros (seg & rest & -> & Hseg & H). exists seg, ("/" +:+ rest).
    split; [reflexivity|]. split; [now apply Matches_segment|].
    apply Matches_Lit_Cat. eauto.
Qed.

Lemma Matches_reRaw s : Matches Filtered.reRawGitHubURL s <-> raw_url_shape s.
Proof.
  rewrite reRaw_structure. unfold raw_url_shape. split.
  - intros H.
    apply Matches_lits in H as (s1 & -> & H).
    apply Matches_Dot_Cat in H as (c1 & s2 & -> & Hc1 & H).
    apply Matches_lits in H as (s3 & -> & H).
    apply Matches_Dot_Cat in H as (c2 & s4 & -> & Hc2 & H).
    apply Matches_lits in H as (s5 & -> & H).
    apply Matches_segment_slash in H as (org & s6 & -> & Horg & H).
    apply Matches_segment_slash in H as (repo & s7 & -> & Hrepo & H).
    apply Matches_segment_slash in H as (branch & path & -> & Hbranch & H).
    apply Matches_path in H.
    exists c1, c2, org, repo, branch, path. split; [reflexivity | tauto].
  - intros (c1 & c2 & org & repo & branch & path & -> & Hc1 & Hc2 & Horg & Hrepo
            & Hbranch & Hpath).
    apply Matches_lits. eexists. split; [reflexivity|].
    apply Matches_Dot_Cat. eexists _, _. split; [reflexivity|]. split; [exact Hc1|].
    apply Matches_lits. eexists. split; [reflexivity|].
    apply Matches_Dot_Cat. eexists _, _. split; [reflexivity|]. split; [exact Hc2|].
    apply Matches_lits. eexists. split; [reflexivity|].
    apply Matches_segment_slash. exists org. eexists. split; [reflexivity|].
    split; [exact Horg|].
    apply Matches_segment_slash. exists repo. eexists. split; [reflexivity|].
    split; [exact Hrepo|].
    apply Matches_segment_slash. exists branch. eexists. split; [reflexivity|].
    split; [exact Hbranch|].
    now apply Matches_path.
Qed.

Lemma Matches_kind r s :
  Matches (Cat (Capture None (Alt (lits "blo" (Lit "b")) (lits "tre" (Lit "e"))))
               (Cat (Lit "/") r)) s
  <-> exists kind rest,
        s = kind +:+ "/" +:+ rest /\ (kind = "blob" \/ kind = "tree")
        /\ Matches r rest.
Proof.
  rewrite Matches_Cat_iff. split.
  - intros (s1 & s2 & -> & H1 & H2).
    apply Matches_Lit_Cat in H2 as (rest & -> & H2).
    exists s1, rest. split; [reflexivity|]. split; [|exact H2].
    inversion H1 as [| | | | | | | | | | |n r' s' Ha]; subst.
    inversion Ha as [| | | | | |? ? ? Hb|? ? ? Hb| | | |]; subst.
    + apply (Matches_lits "blo" (Lit "b")) in Hb as (s3 & -> & Hb).
      inversion Hb; subst; auto.
    + apply (Matches_lits "tre" (Lit "e")) in Hb as (s3 & -> & Hb).
      inversion Hb; subst; auto.
  - intros (kind & rest & -> & Hk & H). exists kind, ("/" +:+ rest).
    split; [reflexivity|]. split.
    + constructor. destruct Hk as [-> | ->].
      * apply M_Alt_l. apply Matches_lits. eexists. split; [reflexivity|constructor].
      * apply M_Alt_r. apply Matches_lits. eexists. split; [reflexivity|constructor].
    + apply Matches_Lit_Cat. eauto.
Qed.

Lemma Matches_reGH s : Matches Filtered.reGitHubURL s <-> web_url_shape s.
Proof.
  rewrite reGH_structure. unfold web_url_shape. split.
  - intros H.
    apply Matches_lits in H as (s1 & -> & H).
    apply Matches_Dot_Cat in H as (c1 & s2 & -> & Hc1 & H).
    apply Matches_lits in H as (s5 & -> & H).
    apply Matches_segment_slash in H as (org & s6 & -> & Horg & H).
    apply Matches_segment_slash in H as (repo & s7 & -> & Hrepo & H).
    apply Matches_kind in H as (kind & s8 & -> & Hkind & H).
    apply Matches_segment_slash in H as (branch & path & -> & Hbranch & H).
    apply Matches_path in H.
    exists c1, org, repo, kind, branch, path. split; [reflexivity | tauto].
  - intros (c1 & org & repo & kind & branch & path & -> & Hc1 & Hkind & Horg
            & Hrepo & Hbranch & Hpath).
    apply Matches_lits. eexists. split; [reflexivity|].
    apply Matches_Dot_Cat. eexists _, _. split; [reflexivity|]. split; [exact Hc1|].
    apply Matches_lits. eexists. split; [reflexivity|].
    apply Matches_segment_slash. exists org. eexists. split; [reflexivity|].
    split; [exact Horg|].
    apply Matches_segment_slash. exists repo. eexists. split; [reflexivity|].
    split; [exact Hrepo|].
    apply Matches_kind. exists kind. eexists. split; [reflexivity|].
    split; [exact Hkind|].
    apply Matches_segment_slash. exists branch. eexists. split; [reflexivity|].
    split; [exact Hbranch|].
    now apply Matches_path.
Qed.

(** An owner URL is accepted when some part of it has one of the two
    shapes. *)
Lemma accepted_shape_spec (url : string) :
  accepted_shape url
  <-> exists before found after,
        url = before +:+ found +:+ after
        /\ (raw_url_shape found \/ web_url_shape found).
Proof.
  unfold accepted_shape. rewrite !MatchString_spec. split.
  - intros [(b & f & a & -> & H)|(b & f & a & -> & H)]; exists b, f, a.
    + split; [reflexivity|]. left. now apply Matches_reRaw.
    + split; [reflexivity|]. right. now apply Matches_reGH.
  - intros (b & f & a & -> & [H|H]); [left | right]; exists b, f, a.
    + split; [reflexivity|]. now apply Matches_reRaw.
    + split; [reflexivity|]. now apply Matches_reGH.
Qed.

End PatternShapes.

(** ** Leadership Validation *)

Section Leadership.
Import GoStrings Effects Utils World.

Lemma Filtered_auditPerson_not_more_chairs extra person :
  prints_only not_more_chairs (Filtered.auditPerson extra person).
Proof. unfold Filtered.auditPerson. prints_only_auto; reflexivity. Qed.

Lemma Unconditional_auditPerson_not_more_chairs E group groupType extra person :
  prints_only not_more_chairs
    (Unconditional.auditPerson E group groupType extra person).
Proof. unfold Unconditional.auditPerson. prints_only_auto; reflexivity. Qed.

(** C1 (the code departs from the claim).  The suggestion to add chairs is
    tested only after the list of chairs was found empty, so it is never
    written: in neither version does Leadership Validation write a text
    that begins like the suggestion, whatever the group and its category;
    and a sig with exactly one chair, otherwise complete, gets no finding
    at all from it. *)
Theorem C1_more_chairs_never_suggested :
  (forall group groupType,
      prints_only not_more_chairs (Filtered.auditLeadership group groupType))
  /\ (forall E group groupType,
      prints_only not_more_chairs
        (Unconditional.auditLeadership E group groupType))
  /\ List.length (Chairs (Leadership sig_one_chair)) = 1%nat
  /\ Filtered.auditLeadership sig_one_chair "sig" = mkM nil (Ok tt)
  /\ (forall E, Unconditional.auditLeadership E sig_one_chair "sigs"
                = mkM nil (Ok tt)).
Proof.
  split; [|split; [|split; [|split]]].
  - intros group groupType. unfold Filtered.auditLeadership.
    destruct (Chairs (Leadership group)) as [|chair chairs]; simpl List.length;
      simpl Nat.eqb.
    + prints_only_auto; try reflexivity.
      apply Filtered_auditPerson_not_more_chairs.
    + prints_only_auto; try reflexivity.
      apply Filtered_auditPerson_not_more_chairs.
  - intros E group groupType. unfold Unconditional.auditLeadership.
    destruct (Chairs (Leadership group)) as [|chair chairs]; simpl List.length;
      simpl Nat.eqb.
    + prints_only_auto; try reflexivity.
      apply Unconditional_auditPerson_not_more_chairs.
    + prints_only_auto; try reflexivity.
      apply Unconditional_auditPerson_not_more_chairs.
  - reflexivity.
  - reflexivity.
  - intros E. reflexivity.
Qed.

End Leadership.

(** ** Stakeholder Validation *)

Section Stakeholders.
Import GoStrings Effects Utils World.

(** The inner loop finds a sig exactly when some sig has the entry for its
    name. *)
Lemma stakeholder_found_spec (sigs : list Group) (stakeholder : string) :
  Filtered.stakeholder_found sigs stakeholder = true
  <-> stakeholder ∈ Name <$> sigs.
Proof.
  induction sigs as [|g sigs IH]; simpl.
  - split; [discriminate | intros H; inversion H].
  - rewrite elem_of_cons. destruct (String.eqb_spec (Name g) stakeholder) as [->|Hne].
    + split; auto.
    + rewrite IH. split; [auto | intros [H|H]; [congruence | exact H]].
Qed.

Lemma stakeholders_loop (sigs : list Group) (stakeholders : list string) :
  for_range stakeholders (fun stakeholder =>
    when (negb (Filtered.stakeholder_found sigs stakeholder))
      (printf (stakeholder_warning stakeholder)))
  = mkM (map (fun s => Print (stakeholder_warning s))
             (filter (fun s => s ∉ Name <$> sigs) stakeholders))
        (Ok tt).
Proof.
  induction stakeholders as [|s l IH]; [reflexivity|].
  rewrite for_range_cons, IH.
  destruct (Filtered.stakeholder_found sigs s) eqn:Hf; simpl.
  - rewrite filter_cons_False; [reflexivity|].
    intros Hn. apply Hn. now apply stakeholder_found_spec.
  - rewrite filter_cons_True; [reflexivity|].
    intros Hin. apply stakeholder_found_spec in Hin. congruence.
Qed.

(** C8.  For a working group with stakeholders, Stakeholder Validation
    writes one WARNING for each entry that is not the name of a sig of the
    context, in the order of the entries, and nothing else; only the sigs
    of the context are consulted. *)
Theorem C8_stakeholders_checked_against_sig_names
    (group : Group) (context : Context) :
  StakeholderSIGs group <> nil ->
  Filtered.auditWorkingGroupStakeholders "wg" group context
  = mkM (map (fun s => Print (stakeholder_warning s))
             (filter (fun s => s ∉ Name <$> Sigs context)
                     (StakeholderSIGs group)))
        (Ok tt).
Proof.
  intros Hne. unfold Filtered.auditWorkingGroupStakeholders. simpl String.eqb.
  destruct (StakeholderSIGs group) as [|s l] eqn:Hs; [congruence|].
  simpl List.length. simpl Nat.eqb. cbv iota zeta.
  apply stakeholders_loop.
Qed.

Lemma C8_stakeholders_witness :
  StakeholderSIGs wg_example <> nil
  /\ Filtered.auditWorkingGroupStakeholders "wg" wg_example context_example
     = mkM (Print (stakeholder_warning "sig-nonexistent") :: nil) (Ok tt).
Proof.
  split; [discriminate|].
  exact (C8_stakeholders_checked_against_sig_names
           wg_example context_example ltac:(discriminate)).
Defined.

(** Called for another category, the routine reports a stakeholder list. *)
Lemma auditWorkingGroupStakeholders_other_category
    (groupType : string) (group : Group) (context : Context) :
  groupType <> "wg" ->
  Filtered.auditWorkingGroupStakeholders groupType group context
  = when (0 <? List.length (StakeholderSIGs group))%nat
      (printf ("ERROR: only 'workinggroups' may have stakeholder_sigs ()" +:+ nl)).
Proof.
  intros Hne. unfold Filtered.auditWorkingGroupStakeholders.
  destruct (String.eqb_spec groupType "wg"); [contradiction | reflexivity].
Qed.

End Stakeholders.

(** ** The stakeholder ERROR is out of reach of the audit *)

Section StakeholderError.
Import GoStrings Effects Utils World.

Local Abbreviation quiet := (prints_only not_stakeholder_error).

Variable E : Env.

Lemma auditPerson_quiet extra person : quiet (Filtered.auditPerson extra person).
Proof. unfold Filtered.auditPerson. prints_only_auto; reflexivity. Qed.

Lemma auditLeadership_quiet group groupType :
  quiet (Filtered.auditLeadership group groupType).
Proof.
  unfold Filtered.auditLeadership.
  prints_only_auto; try reflexivity. apply auditPerson_quiet.
Qed.

Lemma auditContact_quiet contact : quiet (Filtered.auditContact contact).
Proof.
  unfold Filtered.auditContact.
  prints_only_auto; try reflexivity. apply auditPerson_quiet.
Qed.

Lemma auditCharterLink_quiet pwd group :
  quiet (Filtered.auditCharterLink E pwd group).
Proof. unfold Filtered.auditCharterLink. prints_only_auto; reflexivity. Qed.

Lemma auditWorkingGroupStakeholders_wg_quiet group context :
  quiet (Filtered.auditWorkingGroupStakeholders "wg" group context).
Proof.
  unfold Filtered.auditWorkingGroupStakeholders. simpl String.eqb. cbv iota.
  prints_only_auto; reflexivity.
Qed.

Lemma auditOwnersInfo_quiet group info url :
  quiet (Filtered.auditOwnersInfo group info url).
Proof. unfold Filtered.auditOwnersInfo. prints_only_auto; reflexivity. Qed.

Lemma auditOwnersFiles_body_quiet reRaw reGH group url :
  quiet (Filtered.auditOwnersFiles_body E reRaw reGH group url).
Proof.
  unfold Filtered.auditOwnersFiles_body.
  prints_only_auto; try reflexivity. apply auditOwnersInfo_quiet.
Qed.

Lemma auditOwnersFiles_quiet group subproject :
  quiet (Filtered.auditOwnersFiles E group subproject).
Proof.
  unfold Filtered.auditOwnersFiles, Go.MustCompile.
  prints_only_auto; try reflexivity. apply auditOwnersFiles_body_quiet.
Qed.

Lemma auditSubProject_quiet group : quiet (Filtered.auditSubProject E group).
Proof.
  unfold Filtered.auditSubProject, Filtered.auditSubProject_body.
  prints_only_auto; try reflexivity.
  - apply auditContact_quiet.
  - apply auditOwnersFiles_quiet.
Qed.

Lemma auditGroup_subprojects_quiet groupType group :
  quiet (Filtered.auditGroup_subprojects E groupType group).
Proof.
  unfold Filtered.auditGroup_subprojects.
  prints_only_auto; try reflexivity. apply auditSubProject_quiet.
Qed.

End StakeholderError.

(** C4 (the code departs from the claim).  [auditGroup] hands a group to
    Stakeholder Validation only when its category is [wg], so the ERROR for
    a stakeholder list outside working groups is never written: the audit of
    a group, whatever its category and its stakeholder list, writes no text
    that begins like that ERROR.  A sig that lists a stakeholder, with no
    subprojects and otherwise complete, is audited without a word about its
    stakeholders. *)
Theorem C4_stakeholder_error_never_written :
  (forall (E : World.Env) (pwd groupType : string)
          (group : Utils.Group) (context : Utils.Context),
      prints_only not_stakeholder_error
        (Filtered.auditGroup E pwd groupType group context))
  /\ Utils.StakeholderSIGs sig_with_stakeholders = "Node" :: nil
  /\ Filtered.auditGroup plain_world "/community" "sig" sig_with_stakeholders
       no_context
     = Effects.mkM
         (Effects.Print (GoStrings.nl +:+ ">>>> Processing sig [sig-apps/Apps]"
                         +:+ GoStrings.nl)
          :: Effects.Stat "/community/sig-apps/charter.md"
          :: Effects.Print missing_subprojects_warning :: nil)
         (Effects.Ok tt).
Proof.
  split; [|split; [reflexivity | vm_compute; reflexivity]].
  intros E pwd groupType group context.
  unfold Filtered.auditGroup.
  destruct (String.eqb_spec groupType "wg") as [->|Hne].
  - prints_only_auto; try reflexivity;
      auto using auditCharterLink_quiet, auditWorkingGroupStakeholders_wg_quiet,
        auditLeadership_quiet, auditContact_quiet, auditGroup_subprojects_quiet.
  - prints_only_auto; try reflexivity;
      auto using auditCharterLink_quiet, auditLeadership_quiet,
        auditContact_quiet, auditGroup_subprojects_quiet.
Qed.

(** ** Owners Validation *)

Section Owners.
Import GoStrings Effects Utils World.

(** *** The patterns *)

Lemma Compile_regexRawGitHubURL :
  Regexp.Compile Filtered.regexRawGitHubURL = Some Filtered.reRawGitHubURL.
Proof. vm_compute. reflexivity. Qed.

Lemma Compile_regexGitHubURL :
  Regexp.Compile Filtered.regexGitHubURL = Some Filtered.reGitHubURL.
Proof. vm_compute. reflexivity. Qed.

(** Both patterns compile, so [auditOwnersFiles] is its loop over the owner
    URLs with the compiled patterns. *)
Lemma auditOwnersFiles_unfold (E : Env) (group : Group) (subproject : Subproject) :
  Filtered.auditOwnersFiles E group subproject
  = bind (printf (nl +:+ ">>>> Processing owners files for " +:+ Dir group
                  +:+ "/" +:+ sub_Name subproject +:+ nl))
      (fun _ =>
         bind (when (List.length (Owners subproject) =? 0)%nat
                 (printf ("ERROR: subproject " +:+ sub_Name subproject
                          +:+ " has no owners" +:+ nl)))
           (fun _ =>
              for_range (Owners subproject)
                (Filtered.auditOwnersFiles_body E Filtered.reRawGitHubURL
                   Filtered.reGitHubURL group))).
Proof.
  unfold Filtered.auditOwnersFiles, Go.MustCompile.
  rewrite Compile_regexRawGitHubURL, Compile_regexGitHubURL.
  reflexivity.
Qed.

(** *** The [found] flags *)

Lemma fold_found {A} (p : A -> bool) (l : list A) (found : bool) :
  fold_left (fun found x => if p x then true else found) l found
  = found || existsb p l.
Proof.
  revert found. induction l as [|x l IH]; intros found; simpl.
  - now rewrite orb_false_r.
  - rewrite IH. destruct (p x), found; reflexivity.
Qed.

Lemma existsb_always {A} (p : A -> bool) (l : list A) :
  (forall x, p x = true) ->
  existsb p l = match l with nil => false | _ => true end.
Proof. intros H. destruct l as [|x l]; simpl; [reflexivity | now rewrite H]. Qed.

(** The label and alias checks never panic. *)
Lemma auditOwnersInfo_finished group info url :
  result (Filtered.auditOwnersInfo group info url) = Ok tt.
Proof.
  unfold Filtered.auditOwnersInfo. cbv zeta.
  rewrite !fold_found. simpl orb.
  destruct_conditions; reflexivity.
Qed.

(** C10.  For a group whose label is empty, the cross-check of a parsed
    ownership file writes the missing-labels WARNING exactly when the file
    declares no label, the alias WARNING exactly when the file names no
    approver, reviewer or required reviewer, and nothing else: the
    label-suffix WARNING is never written. *)
Theorem C10_empty_label_cross_check
    (group : Group) (info : OwnersInfo) (url : string) :
  Label group = EmptyString ->
  Filtered.auditOwnersInfo group info url
  = mkM (match Labels info with
         | nil => Print (missing_labels_warning group url) :: nil
         | _ => nil
         end
         ++ match (Approvers info ++ Reviewers info ++ RequiredReviewers info)%list with
            | nil => Print (alias_warning url) :: nil
            | _ => nil
            end)%list
        (Ok tt)
  /\ ~ In (Print (label_suffix_warning group url))
          (trace (Filtered.auditOwnersInfo group info url))
  /\ (Labels info = nil ->
      In (Print (missing_labels_warning group url))
         (trace (Filtered.auditOwnersInfo group info url)))
  /\ (In (Print (alias_warning url))
         (trace (Filtered.auditOwnersInfo group info url))
      <-> (Approvers info ++ Reviewers info ++ RequiredReviewers info)%list = nil).
Proof.
  intros Hlabel.
  assert (Filtered.auditOwnersInfo group info url
          = mkM (match Labels info with
                 | nil => Print (missing_labels_warning group url) :: nil
                 | _ => nil
                 end
                 ++ match (Approvers info ++ Reviewers info
                           ++ RequiredReviewers info)%list with
                    | nil => Print (alias_warning url) :: nil
                    | _ => nil
                    end)%list
                (Ok tt)) as Heq.
  { unfold Filtered.auditOwnersInfo. cbv zeta. rewrite !fold_found.
    rewrite Hlabel. simpl orb.
    rewrite (existsb_always (fun item => Contains item EmptyString))
      by (intros item; apply Contains_empty).
    simpl app at 1.
    destruct (Labels info) as [|l ls];
      destruct (Approvers info ++ Reviewers info ++ RequiredReviewers info)%list;
      reflexivity. }
  rewrite Heq. simpl trace. split; [reflexivity|].
  unfold label_suffix_warning, missing_labels_warning, alias_warning.
  rewrite Hlabel.
  destruct (Labels info) as [|l ls];
    destruct (Approvers info ++ Reviewers info ++ RequiredReviewers info)%list;
    simpl; repeat split; try tauto; try discriminate;
    try (intros [H|H]; [discriminate H | tauto]);
    try (intros [H|[H|H]]; [discriminate H | discriminate H | tauto]).
Qed.

Lemma C10_empty_label_witness :
  Label sig_unlabelled = EmptyString
  /\ Filtered.auditOwnersInfo sig_unlabelled owners_labelled kubernetes_owners_url
     = mkM nil (Ok tt)
  /\ Filtered.auditOwnersInfo sig_unlabelled owners_blank kubernetes_owners_url
     = mkM (Print (missing_labels_warning sig_unlabelled kubernetes_owners_url)
            :: Print (alias_warning kubernetes_owners_url) :: nil)
           (Ok tt).
Proof.
  split; [reflexivity|]. split.
  - exact (proj1 (C10_empty_label_cross_check
                    sig_unlabelled owners_labelled kubernetes_owners_url eq_refl)).
  - exact (proj1 (C10_empty_label_cross_check
                    sig_unlabelled owners_blank kubernetes_owners_url eq_refl)).
Defined.

(** *** One owner URL *)

Section OneURL.
Variable E : Env.
Variable group : Group.

Local Abbreviation body :=
  (Filtered.auditOwnersFiles_body E Filtered.reRawGitHubURL
     Filtered.reGitHubURL group).

Lemma accepted_shape_guard (url : string) :
  accepted_shape url ->
  negb (Regexp.MatchString Filtered.reRawGitHubURL url)
  && negb (Regexp.MatchString Filtered.reGitHubURL url) = false.
Proof. intros [-> | ->]; simpl; [reflexivity | apply andb_false_r]. Qed.

(** A URL of neither shape: one ERROR, and no request. *)
Lemma body_rejected (url : string) :
  Regexp.MatchString Filtered.reRawGitHubURL url = false ->
  Regexp.MatchString Filtered.reGitHubURL url = false ->
  body url = mkM (Print (url_shape_error url) :: nil) (Ok tt).
Proof.
  intros H1 H2. unfold Filtered.auditOwnersFiles_body.
  rewrite H1, H2. reflexivity.
Qed.

(** The request fails in transport: no response, and an error. *)
Lemma body_transport_error (url msg : string) :
  accepted_shape url ->
  http_Get E url = (None, Some msg) ->
  body url = mkM (HttpGet url :: nil) (Panic nil_dereference).
Proof.
  intros Hs Hget. unfold Filtered.auditOwnersFiles_body.
  rewrite (accepted_shape_guard _ Hs), Hget. reflexivity.
Qed.

(** A response arrives, but not with status 200 and no error. *)
Lemma body_stale (url : string) (r : Response) (err : option string) :
  accepted_shape url ->
  http_Get E url = (Some r, err) ->
  err <> None \/ StatusCode r <> 200 ->
  body url
  = mkM (HttpGet url :: Print (stale_url_warning url (StatusCode r) err) :: nil)
        (Ok tt).
Proof.
  intros Hs Hget Hbad. unfold Filtered.auditOwnersFiles_body.
  rewrite (accepted_shape_guard _ Hs), Hget.
  destruct err as [msg|]; [reflexivity|].
  destruct Hbad as [Hbad|Hbad]; [congruence|].
  apply Z.eqb_neq in Hbad. run_monad. rewrite Hbad. reflexivity.
Qed.

(** The file was fetched and parsed. *)
Lemma body_parsed (url : string) (r : Response) (info : OwnersInfo) :
  accepted_shape url ->
  http_Get E url = (Some r, None) ->
  StatusCode r = 200 ->
  body_err (resp_Body r) = None ->
  GetOwnersInfoFromBytes E (body_bytes (resp_Body r)) = inl info ->
  body url
  = bind (mkM (HttpGet url :: ReadBody url
               :: ParseOwners (body_bytes (resp_Body r)) :: nil) (Ok tt))
      (fun _ =>
         if Contains url "kubernetes/kubernetes"
         then Filtered.auditOwnersInfo group info url
         else ret tt).
Proof.
  intros Hs Hget Hcode Herr Hparse. unfold Filtered.auditOwnersFiles_body.
  rewrite (accepted_shape_guard _ Hs), Hget. run_monad.
  rewrite Hcode, Z.eqb_refl, Herr, Hparse. run_monad.
  destruct (Contains url "kubernetes/kubernetes"); reflexivity.
Qed.

End OneURL.

(** *** The request fails, or the URL has no accepted shape *)

(** C2 (the code departs from the claim).  When the request for an owner
    URL of an accepted shape fails in transport, [http.Get] returns no
    response, and the branch that is to report the stale URL reads the
    status code through the nil pointer: the run panics after the request,
    no WARNING is written, and the URLs that follow are not audited. *)
Theorem C2_transport_error_panics
    (E : Env) (group : Group) (url msg : string) (urls : list string) :
  accepted_shape url ->
  http_Get E url = (None, Some msg) ->
  for_range (url :: urls)
    (Filtered.auditOwnersFiles_body E Filtered.reRawGitHubURL
       Filtered.reGitHubURL group)
  = mkM (HttpGet url :: nil) (Panic nil_dereference).
Proof.
  intros Hs Hget. rewrite for_range_cons.
  now rewrite (body_transport_error E group url msg Hs Hget).
Qed.

Lemma C2_transport_error_witness :
  accepted_shape github_owners_url
  /\ for_range (github_owners_url :: kubernetes_owners_url :: nil)
       (Filtered.auditOwnersFiles_body
          (example_world no_context unreachable (fun _ => inl owners_blank))
          Filtered.reRawGitHubURL Filtered.reGitHubURL sig_one_chair)
     = mkM (HttpGet github_owners_url :: nil) (Panic nil_dereference).
Proof.
  assert (accepted_shape github_owners_url) as Hs by (right; reflexivity).
  split; [exact Hs|].
  exact (C2_transport_error_panics
           (example_world no_context unreachable (fun _ => inl owners_blank))
           sig_one_chair github_owners_url _ (kubernetes_owners_url :: nil)
           Hs eq_refl).
Defined.

(** The same seen from the command line: without a network, the audit of a
    sig with ownership files ends in the panic, after the first request and
    before the line [Done.]. *)
Lemma transport_error_aborts_run :
  Filtered.Run offline_world order_forward ("all" :: nil)
  = mkM (Print (running_script offline_world)
         :: Stat "/go/src/k8s.io/kubernetes"
         :: Print (nl +:+ ">>>> Processing sig [sig-cli/CLI]" +:+ nl)
         :: Stat "/community/sig-cli/charter.md"
         :: Print (nl +:+ ">>>> Processing subproject kubectl under sig-cli" +:+ nl)
         :: Print (nl +:+ ">>>> Processing owners files for sig-cli/kubectl" +:+ nl)
         :: HttpGet github_owners_url :: nil)
        (Panic nil_dereference).
Proof. vm_compute. reflexivity. Qed.



(** *** Which ownership files are cross-checked *)

(** C9, as stated, fails: the ownership file of
    kubernetes/kubernetes-template-project is fetched and parsed, its
    repository is not kubernetes/kubernetes, and yet it is cross-checked
    against the label of the group and draws both label findings. *)
Lemma C9_counterexample :
  accepted_shape template_project_url
  /\ url_repository template_project_url
     = Some ("kubernetes", "kubernetes-template-project")
  /\ url_repository template_project_url <> Some ("kubernetes", "kubernetes")
  /\ http_Get template_project_world template_project_url
     = (Some (mkResponse 200 (mkBody "approvers: [ann]" None)), None)
  /\ GetOwnersInfoFromBytes template_project_world "approvers: [ann]"
     = inl owners_of_ann
  /\ Filtered.auditOwnersFiles_body template_project_world
       Filtered.reRawGitHubURL Filtered.reGitHubURL sig_one_chair
       template_project_url
     = mkM (HttpGet template_project_url
            :: ReadBody template_project_url
            :: ParseOwners "approvers: [ann]"
            :: Print (missing_labels_warning sig_one_chair template_project_url)
            :: Print (alias_warning template_project_url) :: nil)
           (Ok tt).
Proof.
  split; [left; vm_compute; reflexivity|].
  split; [vm_compute; reflexivity|].
  split; [vm_compute; discriminate|].
  split; [reflexivity|]. split; [reflexivity|].
  vm_compute. reflexivity.
Qed.

(** C9, amended.  An owner URL that was fetched and parsed is exempt from
    the cross-checks exactly when its text does not contain
    [kubernetes/kubernetes]: then nothing is written for it.  A URL that
    contains that text, wherever in the URL, has its parsed file
    cross-checked against the group. *)
Theorem C9_cross_check_by_substring
    (E : Env) (group : Group) (url : string) (r : Response) (info : OwnersInfo) :
  accepted_shape url ->
  http_Get E url = (Some r, None) ->
  StatusCode r = 200 ->
  body_err (resp_Body r) = None ->
  GetOwnersInfoFromBytes E (body_bytes (resp_Body r)) = inl info ->
  let fetched :=
    (HttpGet url :: ReadBody url
     :: ParseOwners (body_bytes (resp_Body r)) :: nil) in
  (Contains url "kubernetes/kubernetes" = false ->
   Filtered.auditOwnersFiles_body E Filtered.reRawGitHubURL
     Filtered.reGitHubURL group url
   = mkM fetched (Ok tt))
  /\ (Contains url "kubernetes/kubernetes" = true ->
      Filtered.auditOwnersFiles_body E Filtered.reRawGitHubURL
        Filtered.reGitHubURL group url
      = mkM (fetched ++ trace (Filtered.auditOwnersInfo group info url))
            (Ok tt)).
Proof.
  intros Hs Hget Hcode Herr Hparse fetched.
  rewrite (body_parsed E group url r info Hs Hget Hcode Herr Hparse).
  split; intros ->.
  - reflexivity.
  - unfold bind. simpl. now rewrite auditOwnersInfo_finished.
Qed.

Lemma C9_cross_check_witness :
  accepted_shape kubernetes_owners_url
  /\ Contains kubernetes_owners_url "kubernetes/kubernetes" = true
  /\ Filtered.auditOwnersFiles_body template_project_world
       Filtered.reRawGitHubURL Filtered.reGitHubURL sig_one_chair
       kubernetes_owners_url
     = mkM (HttpGet kubernetes_owners_url
            :: ReadBody kubernetes_owners_url
            :: ParseOwners "approvers: [ann]"
            :: Print (missing_labels_warning sig_one_chair kubernetes_owners_url)
            :: Print (alias_warning kubernetes_owners_url) :: nil)
           (Ok tt).
Proof.
  assert (accepted_shape kubernetes_owners_url) as Hs by (left; reflexivity).
  split; [exact Hs|]. split; [reflexivity|].
  exact (proj2 (C9_cross_check_by_substring template_project_world
                  sig_one_chair kubernetes_owners_url
                  (mkResponse 200 (mkBody "approvers: [ann]" None))
                  owners_of_ann Hs eq_refl eq_refl eq_refl eq_refl)
               eq_refl).
Defined.

End Owners.

(** ** Computations that fall through *)

Section Finishes.
Import Effects.

Lemma finishes_ret : finishes (ret tt).
Proof. reflexivity. Qed.

Lemma finishes_printf text : finishes (printf text).
Proof. reflexivity. Qed.

Lemma finishes_emit e : finishes (emit e).
Proof. reflexivity. Qed.

Lemma finishes_bind (m : M unit) (k : unit -> M unit) :
  finishes m -> finishes (k tt) -> finishes (m ≫= k).
Proof.
  unfold finishes. intros Hm Hk. rewrite bind_unfold, result_bind, Hm.
  exact Hk.
Qed.

Lemma finishes_bind_inv (m : M unit) (k : unit -> M unit) :
  finishes (bind m k) -> finishes m /\ finishes (k tt).
Proof.
  unfold finishes. rewrite result_bind.
  destruct (result m) as [[]|msg|code]; [auto | discriminate | discriminate].
Qed.

Lemma finishes_when (c : bool) (m : M unit) : finishes m -> finishes (when c m).
Proof. destruct c; [trivial | intros _; reflexivity]. Qed.

Lemma finishes_for_range {A} (xs : list A) (body : A -> M unit) :
  (forall x, finishes (body x)) -> finishes (for_range xs body).
Proof.
  intros H. induction xs as [|x xs IH]; [reflexivity|].
  simpl. apply (finishes_bind (body x)); auto.
Qed.

(** The events of two statements in sequence, when the first falls
    through. *)
Lemma trace_seq (m : M unit) (k : unit -> M unit) :
  finishes m -> trace (m ≫= k) = (trace m ++ trace (k tt))%list.
Proof. intros Hm. rewrite bind_unfold, trace_bind. now rewrite Hm. Qed.

Lemma In_trace_l {A B} (e : Event) (m : M A) (k : A -> M B) :
  In e (trace m) -> In e (trace (m ≫= k)).
Proof.
  intros H. rewrite bind_unfold, trace_bind.
  destruct (result m); [apply in_or_app; now left | exact H | exact H].
Qed.

Lemma In_trace_r (e : Event) (m : M unit) (k : unit -> M unit) :
  finishes m -> In e (trace (k tt)) -> In e (trace (m ≫= k)).
Proof. intros Hm H. rewrite trace_seq by exact Hm. apply in_or_app. now right. Qed.

End Finishes.

Ltac finishes_step :=
  lazymatch goal with
  | |- finishes (mbind _ _) => apply finishes_bind
  | |- finishes (Effects.when _ _) => apply finishes_when
  | |- finishes (Effects.printf _) => apply finishes_printf
  | |- finishes (Effects.emit _) => apply finishes_emit
  | |- finishes (Effects.for_range _ _) => apply finishes_for_range; intros ?
  | |- finishes (Effects.ret _) => apply finishes_ret
  | |- finishes (mret _) => apply finishes_ret
  | |- finishes (if ?c then _ else _) => destruct c
  | |- finishes (match ?x with _ => _ end) => destruct x
  | |- finishes (let _ := _ in _) => cbv zeta
  end.

Ltac finishes_auto := repeat finishes_step.

(** ** Subproject Validation in the two versions *)

Section Subprojects.
Import GoStrings Effects Utils World.

Lemma Filtered_auditPerson_finishes extra person :
  finishes (Filtered.auditPerson extra person).
Proof. unfold Filtered.auditPerson. finishes_auto. Qed.

Lemma Filtered_auditContact_finishes contact :
  finishes (Filtered.auditContact contact).
Proof.
  unfold Filtered.auditContact. finishes_auto.
  apply Filtered_auditPerson_finishes.
Qed.

Lemma Unconditional_auditPerson_finishes E group groupType extra person :
  finishes (Unconditional.auditPerson E group groupType extra person).
Proof. unfold Unconditional.auditPerson. finishes_auto. Qed.

Lemma Unconditional_auditContact_finishes E contact groupType group :
  finishes (Unconditional.auditContact E contact groupType group).
Proof.
  unfold Unconditional.auditContact. finishes_auto.
  apply Unconditional_auditPerson_finishes.
Qed.

Lemma Unconditional_auditSubProject_body_finishes E group groupType subproject :
  finishes (Unconditional.auditSubProject_body E group groupType subproject).
Proof.
  unfold Unconditional.auditSubProject_body. finishes_auto.
  apply Unconditional_auditContact_finishes.
Qed.

Lemma Unconditional_auditPerson_warnings E group groupType extra person :
  prints_only is_warning (Unconditional.auditPerson E group groupType extra person).
Proof. unfold Unconditional.auditPerson. prints_only_auto; reflexivity. Qed.

Lemma Unconditional_auditContact_warnings E contact groupType group :
  prints_only is_warning (Unconditional.auditContact E contact groupType group).
Proof.
  unfold Unconditional.auditContact. prints_only_auto; try reflexivity.
  apply Unconditional_auditPerson_warnings.
Qed.

(** The unconditional version reports on a subproject in WARNINGs only. *)
Lemma Unconditional_auditSubProject_body_warnings E group groupType subproject :
  prints_only is_warning
    (Unconditional.auditSubProject_body E group groupType subproject).
Proof.
  unfold Unconditional.auditSubProject_body. prints_only_auto; try reflexivity.
  apply Unconditional_auditContact_warnings.
Qed.

Lemma Filtered_missing_owners_written (E : Env) group subproject :
  Owners subproject = nil ->
  In (Print missing_owners_error)
     (trace (Filtered.auditSubProject_body E group subproject))
  /\ finishes (Filtered.auditSubProject_body E group subproject).
Proof.
  intros Howners. unfold Filtered.auditSubProject_body. rewrite Howners.
  simpl List.length. simpl Nat.eqb. cbv iota. split.
  - apply In_trace_r; [apply finishes_printf|].
    apply In_trace_r; [finishes_auto|].
    apply In_trace_r; [finishes_auto|].
    apply In_trace_r;
      [finishes_auto; apply Filtered_auditContact_finishes|].
    apply In_trace_l. left. reflexivity.
  - finishes_auto. apply Filtered_auditContact_finishes.
Qed.

Lemma Unconditional_missing_owners_written (E : Env) group groupType subproject :
  Owners subproject = nil ->
  In (Print (missing_owners_warning group groupType subproject))
     (trace (Unconditional.auditSubProject_body E group groupType subproject)).
Proof.
  intros Howners. unfold Unconditional.auditSubProject_body. rewrite Howners.
  simpl List.length. simpl Nat.eqb. cbv zeta.
  apply In_trace_r; [finishes_auto|].
  apply In_trace_r; [finishes_auto|].
  apply In_trace_r;
    [finishes_auto; apply Unconditional_auditContact_finishes|].
  apply In_trace_l. left. reflexivity.
Qed.



(** The same on the level of the loops over the subprojects of a group: the
    unconditional version reaches every subproject; the version with name
    filters reaches a subproject when the ones before it fall through. *)
Lemma In_trace_for_range {A} (e : Event) (before after : list A) (x : A)
    (body : A -> M unit) :
  finishes (for_range before body) ->
  In e (trace (body x)) ->
  In e (trace (for_range (before ++ x :: after) body)).
Proof.
  intros Hb Hin. rewrite for_range_app.
  apply (In_trace_r e (for_range before body)); [exact Hb|].
  rewrite for_range_cons. now apply (In_trace_l e (body x)).
Qed.

Lemma missing_owners_in_group
    (E : Env) (group : Group) (groupType : string)
    (before after : list Subproject) (subproject : Subproject) :
  Subprojects group = (before ++ subproject :: after)%list ->
  Owners subproject = nil ->
  In (Print (missing_owners_warning group groupType subproject))
     (trace (Unconditional.auditSubProject E group groupType))
  /\ (finishes (for_range before (Filtered.auditSubProject_body E group)) ->
      In (Print missing_owners_error)
         (trace (Filtered.auditSubProject E group))).
Proof.
  intros Hsub Howners.
  destruct (Filtered_missing_owners_written E group subproject Howners)
    as [HA _].
  pose proof (Unconditional_missing_owners_written E group groupType
                subproject Howners) as HB.
  unfold Unconditional.auditSubProject, Filtered.auditSubProject.
  rewrite Hsub. split.
  - apply In_trace_for_range; [|exact HB].
    apply finishes_for_range. intros sp.
    apply Unconditional_auditSubProject_body_finishes.
  - intros Hfin. now apply In_trace_for_range.
Qed.

(** And from the audit of a sig as a whole: when the audit of a sig does not
    panic, every subproject of the sig that has no owners has drawn the
    ERROR. *)
Lemma missing_owners_in_sig_audit
    (E : Env) (pwd : string) (group : Group) (context : Context)
    (before after : list Subproject) (subproject : Subproject) :
  Subprojects group = (before ++ subproject :: after)%list ->
  Owners subproject = nil ->
  finishes (Filtered.auditGroup E pwd "sig" group context) ->
  In (Print missing_owners_error)
     (trace (Filtered.auditGroup E pwd "sig" group context)).
Proof.
  intros Hsub Howners Hfin. unfold Filtered.auditGroup in *. cbv zeta in *.
  repeat match goal with
         | H : finishes (mbind _ _) |- In _ (trace (mbind _ _)) =>
             let Hm := fresh "Hm" in
             apply finishes_bind_inv in H as [Hm H];
             apply In_trace_r; [exact Hm|]
         end.
  unfold Filtered.auditGroup_subprojects in *. simpl String.eqb in *.
  apply finishes_bind_inv in Hfin as [Hfin _]. apply In_trace_l.
  change (when true ?m) with m in *.
  rewrite Hsub in *.
  replace (List.length (before ++ subproject :: after) =? 0)%nat with false in *
    by (symmetry; apply Nat.eqb_neq; rewrite length_app; simpl; lia).
  unfold Filtered.auditSubProject in *. rewrite Hsub in *.
  rewrite for_range_app in Hfin. apply finishes_bind_inv in Hfin as [Hbefore _].
  apply In_trace_for_range; [exact Hbefore|].
  now apply Filtered_missing_owners_written.
Qed.

End Subprojects.

(** ** Group Validation: who may own subprojects *)

Section GroupSubprojects.
Import GoStrings Effects Utils World.

(** C3, as stated, fails for committees: the audit of a committee writes
    the line that announces the group and nothing else, whether the
    committee has no subprojects (no WARNING for the missing list) or a
    subproject with nearly every field missing (no Subproject
    Validation). *)
Lemma C3_counterexample :
  Subprojects committee_steering = nil
  /\ Filtered.auditGroup plain_world "/community" "committee"
       committee_steering no_context
     = mkM (Print (nl +:+ ">>>> Processing committee [committee-steering/Steering]"
                   +:+ nl) :: nil)
           (Ok tt)
  /\ ~ In (Print missing_subprojects_warning)
          (trace (Filtered.auditGroup plain_world "/community" "committee"
                    committee_steering no_context))
  /\ Subprojects committee_with_subproject = subproject_bare :: nil
  /\ Filtered.auditGroup plain_world "/community" "committee"
       committee_with_subproject no_context
     = mkM (Print (nl +:+ ">>>> Processing committee [committee-steering/Steering]"
                   +:+ nl) :: nil)
           (Ok tt)
  /\ Filtered.auditSubProject plain_world committee_with_subproject
     <> mkM nil (Ok tt).
Proof.
  split; [reflexivity|]. split; [vm_compute; reflexivity|].
  split; [vm_compute; intros [H|[]]; discriminate H|].
  split; [reflexivity|]. split; [vm_compute; reflexivity|].
  vm_compute. discriminate.
Qed.

(** C3, amended.  The statements of [auditGroup] about subprojects do
    nothing at all for a committee, whatever its subprojects.  For a sig
    they write the WARNING for a missing list or hand a list that is not
    empty to Subproject Validation.  For every other category they write
    the ERROR with the number of subprojects when there are some, and
    nothing when there are none. *)
Theorem C3_subprojects_by_category
    (E : Env) (groupType : string) (group : Group) :
  Filtered.auditGroup_subprojects E "committee" group = mkM nil (Ok tt)
  /\ Filtered.auditGroup_subprojects E "sig" group
     = (if (List.length (Subprojects group) =? 0)%nat
        then printf missing_subprojects_warning
        else Filtered.auditSubProject E group)
  /\ (groupType <> "sig" -> groupType <> "committee" ->
      Filtered.auditGroup_subprojects E groupType group
      = match Subprojects group with
        | nil => mkM nil (Ok tt)
        | _ :: _ =>
            mkM (Print (subprojects_error (List.length (Subprojects group)))
                 :: nil) (Ok tt)
        end).
Proof.
  split; [reflexivity|]. split.
  - transitivity
      (bind (if (List.length (Subprojects group) =? 0)%nat
             then printf missing_subprojects_warning
             else Filtered.auditSubProject E group)
            (fun _ => ret tt)); [reflexivity | apply bind_ret_tt].
  - intros Hsig Hcom. unfold Filtered.auditGroup_subprojects.
    destruct (String.eqb_spec groupType "sig") as [|_]; [contradiction|].
    destruct (String.eqb_spec groupType "committee") as [|_]; [contradiction|].
    destruct (Subprojects group); reflexivity.
Qed.

(** The user group of the example of the specification: one subproject. *)
Lemma C3_subprojects_witness :
  "usergroups" <> "sig" /\ "usergroups" <> "committee"
  /\ Filtered.auditGroup_subprojects plain_world "usergroups"
       committee_with_subproject
     = mkM (Print ("ERROR: only sigs and committees can own code / have subprojects, found: 1 subprojects"
                   +:+ nl) :: nil) (Ok tt).
Proof.
  split; [discriminate|]. split; [discriminate|].
  exact (proj2 (proj2 (C3_subprojects_by_category plain_world "usergroups"
                         committee_with_subproject))
               ltac:(discriminate) ltac:(discriminate)).
Defined.

End GroupSubprojects.

(** ** Loops and the order of their turns *)

Section LoopOrder.
Import Effects.

Lemma for_range_finishes_inv {A} (xs : list A) (body : A -> M unit) :
  finishes (for_range xs body) -> Forall (fun x => finishes (body x)) xs.
Proof.
  induction xs as [|x xs IH]; [constructor|].
  rewrite for_range_cons. intros H. apply finishes_bind_inv in H as [Hx Hxs].
  constructor; auto.
Qed.

Lemma for_range_finishes {A} (xs : list A) (body : A -> M unit) :
  Forall (fun x => finishes (body x)) xs -> finishes (for_range xs body).
Proof. intros H. unfold finishes. now rewrite for_range_finished. Qed.

(** A loop that falls through does so whatever the order of its turns, and
    writes the same events up to that order. *)
Lemma for_range_Permutation {A} (xs ys : list A) (body : A -> M unit) :
  Permutation xs ys ->
  finishes (for_range xs body) ->
  finishes (for_range ys body)
  /\ Permutation (trace (for_range xs body)) (trace (for_range ys body)).
Proof.
  intros Hp Hfin. apply for_range_finishes_inv in Hfin.
  assert (Forall (fun x => finishes (body x)) ys) as Hys
    by (eapply Permutation_Forall; eauto).
  split; [now apply for_range_finishes|].
  rewrite (for_range_finished xs), (for_range_finished ys) by assumption.
  simpl. now apply Permutation_flat_map.
Qed.

(** Two nested loops visit the elements of the inner lists block by block. *)
Lemma for_range_nested {K A} (entries : list (K * list A)) (body : K -> A -> M unit) :
  for_range entries (fun '(k, xs) => for_range xs (body k))
  = for_range (flat_map (fun '(k, xs) => map (pair k) xs) entries)
      (fun '(k, x) => body k x).
Proof.
  induction entries as [|[k xs] entries IH]; [reflexivity|].
  rewrite for_range_cons. simpl flat_map. rewrite for_range_app, IH.
  f_equal. clear IH. induction xs as [|x xs IHx]; [reflexivity|].
  simpl. now rewrite IHx.
Qed.

Lemma bind_ext {A B} (m : M A) (k k' : A -> M B) :
  (forall a, k a = k' a) -> bind m k = bind m k'.
Proof. intros H. unfold bind. destruct (result m); [now rewrite H | reflexivity..]. Qed.

Lemma for_range_with_ext {A S} (xs : list A) (body body' : A -> S -> M S) (s : S) :
  (forall x s, body x s = body' x s) ->
  Go.for_range_with xs body s = Go.for_range_with xs body' s.
Proof.
  intros H. revert s. induction xs as [|x xs IH]; intros s; [reflexivity|].
  simpl. rewrite !bind_unfold, H. now apply bind_ext.
Qed.

(** A loop that runs [act] on every element and sets a flag on the elements
    that [hit]: the flag ends up set when it was set before or some element
    hits. *)
Lemma for_range_with_found {A} (xs : list A) (act : A -> M unit) (hit : A -> bool)
    (found : bool) :
  Go.for_range_with xs
    (fun x found => bind (act x) (fun _ => ret (found || hit x))) found
  = bind (for_range xs act) (fun _ => ret (found || existsb hit xs)).
Proof.
  revert found. induction xs as [|x xs IH]; intros found.
  - simpl. rewrite bind_ret_l. now rewrite orb_false_r.
  - cbn [Go.for_range_with for_range existsb].
    rewrite bind_unfold, !bind_assoc. apply bind_ext. intros [].
    rewrite bind_ret_l, IH. apply bind_ext. intros [].
    now rewrite orb_assoc.
Qed.

(** A loop between a first and a last line. *)
Lemma trace_framed (first last : string) (m : M unit) :
  finishes m ->
  trace (bind (printf first) (fun _ => bind m (fun _ => printf last)))
  = (Print first :: trace m ++ Print last :: nil)%list.
Proof. unfold finishes, bind. simpl. now intros ->. Qed.

Lemma finishes_framed (first last : string) (m : M unit) :
  finishes (bind (printf first) (fun _ => bind m (fun _ => printf last)))
  <-> finishes m.
Proof.
  unfold finishes, bind. simpl.
  destruct (result m) as [[]|msg|code]; simpl; split; congruence.
Qed.

Lemma existsb_Permutation {A} (p : A -> bool) (xs ys : list A) :
  Permutation xs ys -> existsb p xs = existsb p ys.
Proof.
  induction 1 as [|x xs ys _ IH|x y xs|xs ys zs _ IH1 _ IH2]; simpl.
  - reflexivity.
  - now rewrite IH.
  - destruct (p x), (p y); reflexivity.
  - congruence.
Qed.

End LoopOrder.

(** ** The run as a whole *)

Section WholeRun.
Import GoStrings Effects Utils World Go.

Variable E : Env.

(** *** The unconditional version *)

Lemma Unconditional_Run_loaded (order : IterationOrder) pwd path context :
  Getwd E = inl pwd ->
  GetSigsYamlFile E pwd = inl path ->
  GetSigsYaml E path = inl context ->
  Unconditional.Run E order
  = bind (printf (running_script E))
      (fun _ =>
         bind (Unconditional.Run_groups E pwd context
                 (order 0%nat (Unconditional.groupMap context)))
           (fun _ => printf done_line)).
Proof.
  intros Hwd Hfile Hyaml. unfold Unconditional.Run.
  rewrite Hwd. cbv beta iota zeta delta [mbind mret M_bind M_ret bind ret
    printf emit trace result app].
  rewrite Hfile. cbv beta iota zeta delta [trace result app].
  rewrite Hyaml. reflexivity.
Qed.

Lemma Unconditional_Run_finishes_inv (order : IterationOrder) :
  finishes (Unconditional.Run E order) ->
  exists pwd path context,
    Getwd E = inl pwd /\ GetSigsYamlFile E pwd = inl path
    /\ GetSigsYaml E path = inl context.
Proof.
  unfold finishes, Unconditional.Run.
  destruct (Getwd E) as [pwd|err] eqn:Hwd; [|discriminate].
  cbv beta iota zeta delta [mbind mret M_bind M_ret bind ret printf emit panic
    trace result app].
  destruct (GetSigsYamlFile E pwd) as [path|err] eqn:Hfile; [|discriminate].
  cbv beta iota zeta delta [trace result app].
  destruct (GetSigsYaml E path) as [context|err] eqn:Hyaml; [|discriminate].
  intros _. now exists pwd, path, context.
Qed.

(** Two runs of the unconditional version differ by the order of the four
    categories only. *)
Lemma Unconditional_Run_Permutation (order1 order2 : IterationOrder) :
  admissible order1 -> admissible order2 ->
  finishes (Unconditional.Run E order1) ->
  finishes (Unconditional.Run E order2)
  /\ Permutation (trace (Unconditional.Run E order1))
                 (trace (Unconditional.Run E order2)).
Proof.
  intros Ha1 Ha2 Hfin.
  destruct (Unconditional_Run_finishes_inv order1 Hfin)
    as (pwd & path & context & Hwd & Hfile & Hyaml).
  rewrite (Unconditional_Run_loaded order1 pwd path context Hwd Hfile Hyaml) in *.
  rewrite (Unconditional_Run_loaded order2 pwd path context Hwd Hfile Hyaml).
  apply finishes_framed in Hfin.
  assert (Permutation (order1 0%nat (Unconditional.groupMap context))
                      (order2 0%nat (Unconditional.groupMap context))) as Hp.
  { rewrite (Ha1 0%nat), (Ha2 0%nat). reflexivity. }
  destruct (for_range_Permutation _ _ _ Hp Hfin) as [Hfin2 Hperm].
  split.
  - now apply finishes_framed.
  - rewrite !trace_framed by assumption.
    apply perm_skip. now apply Permutation_app_tail.
Qed.

(** The map literal of the unconditional version has the four categories
    for its entries. *)
Lemma groupMap_entries (context : Context) :
  Permutation (map_to_list (Unconditional.groupMap context))
    (("sigs", Sigs context) :: ("usergroups", UserGroups context)
     :: ("workinggroups", WorkingGroups context)
     :: ("committees", Committees context) :: nil).
Proof.
  unfold Unconditional.groupMap. apply map_to_list_to_map.
  simpl. compute_done.
Qed.

(** *** The version with name filters *)

(** One turn of the loop over the names: the selected groups are audited
    category by category, and a name that selects no group is reported. *)
Lemma Run_body_selected pwd context entries name :
  Filtered.Run_body E pwd context entries name
  = bind (for_range entries (audit_selected E pwd context name))
      (fun _ =>
         when (negb (existsb (fun entry => existsb (selects name) (snd entry))
                       entries))
           (printf (not_found_line name))).
Proof.
  unfold Filtered.Run_body. rewrite bind_unfold.
  rewrite (for_range_with_ext entries _
             (fun entry found =>
                bind (audit_selected E pwd context name entry)
                  (fun _ => ret (found || existsb (selects name) (snd entry))))).
  - rewrite for_range_with_found, bind_assoc. apply bind_ext. intros [].
    now rewrite bind_ret_l.
  - intros [groupType groups] found. unfold audit_selected. simpl fst. simpl snd.
    rewrite <- for_range_with_found. apply for_range_with_ext.
    intros group found'. fold (selects name group).
    destruct (selects name group); simpl when.
    + rewrite bind_unfold. apply bind_ext. intros []. now rewrite orb_true_r.
    + rewrite bind_ret_l. now rewrite orb_false_r.
Qed.

Lemma Run_body_Permutation pwd context entries1 entries2 name :
  Permutation entries1 entries2 ->
  finishes (Filtered.Run_body E pwd context entries1 name) ->
  finishes (Filtered.Run_body E pwd context entries2 name)
  /\ Permutation (trace (Filtered.Run_body E pwd context entries1 name))
                 (trace (Filtered.Run_body E pwd context entries2 name)).
Proof.
  intros Hp. rewrite !Run_body_selected.
  rewrite (existsb_Permutation _ _ _ Hp).
  intros Hfin. apply finishes_bind_inv in Hfin as [Hloop Hwhen].
  destruct (for_range_Permutation _ _ (audit_selected E pwd context name) Hp Hloop)
    as [Hloop2 Hperm].
  split.
  - unfold finishes in *. now rewrite result_bind, Hloop2.
  - rewrite !trace_bind. unfold finishes in Hloop, Hloop2.
    rewrite Hloop, Hloop2. now apply Permutation_app_tail.
Qed.

Lemma Run_names_Permutation (order1 order2 : IterationOrder) pwd context args i :
  admissible order1 -> admissible order2 ->
  finishes (Filtered.Run_names E order1 i pwd context args) ->
  finishes (Filtered.Run_names E order2 i pwd context args)
  /\ Permutation (trace (Filtered.Run_names E order1 i pwd context args))
                 (trace (Filtered.Run_names E order2 i pwd context args)).
Proof.
  intros Ha1 Ha2. revert i.
  induction args as [|name args IH]; intros i Hfin.
  - split; [reflexivity | apply Permutation_refl].
  - cbn [Filtered.Run_names] in *. rewrite bind_unfold in *.
    apply finishes_bind_inv in Hfin as [Hbody Hrest].
    assert (Permutation (order1 i (PrefixToGroupMap E context))
                        (order2 i (PrefixToGroupMap E context))) as Hp.
    { rewrite (Ha1 i), (Ha2 i). reflexivity. }
    destruct (Run_body_Permutation pwd context _ _ name Hp Hbody) as [Hbody2 Hpb].
    destruct (IH (S i) Hrest) as [Hrest2 Hpr].
    split.
    + unfold finishes in *. now rewrite ?bind_unfold, result_bind, Hbody2.
    + rewrite ?bind_unfold, !trace_bind. unfold finishes in Hbody, Hbody2.
      rewrite Hbody, Hbody2. now apply Permutation_app.
Qed.

Lemma Filtered_Run_loaded (order : IterationOrder) args pwd path context :
  Getwd E = inl pwd ->
  stat_NotExist E (kubernetesDirectory E) = false ->
  GetSigsYamlFile E pwd = inl path ->
  GetSigsYaml E path = inl context ->
  Filtered.Run E order args
  = bind (mkM (Print (running_script E) :: Stat (kubernetesDirectory E) :: nil) (Ok tt))
      (fun _ =>
         bind (Filtered.Run_names E order 0 pwd context args)
           (fun _ => printf done_line)).
Proof.
  intros Hwd Hstat Hfile Hyaml. unfold Filtered.Run.
  rewrite Hwd, Hstat. cbv beta iota zeta delta [mbind mret M_bind M_ret bind ret
    printf emit when trace result app].
  rewrite Hfile. cbv beta iota zeta delta [trace result app].
  rewrite Hyaml. reflexivity.
Qed.

Lemma Filtered_Run_finishes_inv (order : IterationOrder) args :
  finishes (Filtered.Run E order args) ->
  exists pwd path context,
    Getwd E = inl pwd /\ stat_NotExist E (kubernetesDirectory E) = false
    /\ GetSigsYamlFile E pwd = inl path /\ GetSigsYaml E path = inl context.
Proof.
  unfold finishes, Filtered.Run.
  destruct (Getwd E) as [pwd|err] eqn:Hwd; [|discriminate].
  destruct (stat_NotExist E (kubernetesDirectory E)) eqn:Hstat; [discriminate|].
  cbv beta iota zeta delta [mbind mret M_bind M_ret bind ret printf emit panic
    when trace result app].
  destruct (GetSigsYamlFile E pwd) as [path|err] eqn:Hfile; [|discriminate].
  cbv beta iota zeta delta [trace result app].
  destruct (GetSigsYaml E path) as [context|err] eqn:Hyaml; [|discriminate].
  intros _. now exists pwd, path, context.
Qed.

(** Two runs of the version with name filters differ, for each name, by the
    order of the categories only. *)
Lemma Filtered_Run_Permutation (order1 order2 : IterationOrder) args :
  admissible order1 -> admissible order2 ->
  finishes (Filtered.Run E order1 args) ->
  finishes (Filtered.Run E order2 args)
  /\ Permutation (trace (Filtered.Run E order1 args))
                 (trace (Filtered.Run E order2 args)).
Proof.
  intros Ha1 Ha2 Hfin.
  destruct (Filtered_Run_finishes_inv order1 args Hfin)
    as (pwd & path & context & Hwd & Hstat & Hfile & Hyaml).
  rewrite (Filtered_Run_loaded order1 args pwd path context) in * by assumption.
  rewrite (Filtered_Run_loaded order2 args pwd path context) by assumption.
  apply finishes_bind_inv in Hfin as [_ Hfin].
  apply finishes_bind_inv in Hfin as [Hnames _].
  destruct (Run_names_Permutation order1 order2 pwd context args 0 Ha1 Ha2 Hnames)
    as [Hnames2 Hperm].
  unfold finishes in Hnames, Hnames2. split.
  - unfold finishes, bind. simpl. now rewrite Hnames2.
  - unfold bind. simpl. rewrite Hnames, Hnames2. simpl.
    do 2 apply perm_skip. now apply Permutation_app_tail.
Qed.

End WholeRun.

(** ** Runs of the audit on the same input *)

Section Reruns.
Import GoStrings Effects Utils World Go.

Lemma order_forward_admissible : admissible order_forward.
Proof. intros i m. reflexivity. Qed.

Lemma order_backward_admissible : admissible order_backward.
Proof. intros i m. unfold order_backward. apply reverse_Permutation. Qed.


Lemma Run_names_same_order (E : Env) (order1 order2 : IterationOrder)
    pwd context args i :
  (forall i m, order1 i m = order2 i m) ->
  Filtered.Run_names E order1 i pwd context args
  = Filtered.Run_names E order2 i pwd context args.
Proof.
  intros H. revert i. induction args as [|name args IH]; intros i; [reflexivity|].
  cbn [Filtered.Run_names]. now rewrite H, IH.
Qed.



End Reruns.

(* ===================================================================== *)
(** * Part III: further properties of the audit *)
(* ===================================================================== *)

(** ** What a computation does *)

Section Events.
Import Effects.

Context (Q : Event -> Prop).

Lemma events_only_ret {A} (a : A) : events_only Q (ret a).
Proof. intros e []. Qed.

Lemma events_only_mret {A} (a : A) : events_only Q (mret a : M A).
Proof. intros e []. Qed.

Lemma events_only_emit e : Q e -> events_only Q (emit e).
Proof. intros H e' [<-|[]]. exact H. Qed.

Lemma events_only_printf text : Q (Print text) -> events_only Q (printf text).
Proof. apply events_only_emit. Qed.

Lemma events_only_bind {A B} (m : M A) (k : A -> M B) :
  events_only Q m -> (forall a, events_only Q (k a)) ->
  events_only Q (m ≫= k).
Proof.
  intros Hm Hk e. rewrite bind_unfold, trace_bind.
  destruct (result m) as [a| |]; [|apply Hm..].
  rewrite in_app_iff. intros [H|H]; [now apply Hm | now apply (Hk a)].
Qed.

Lemma events_only_when (c : bool) (m : M unit) :
  events_only Q m -> events_only Q (when c m).
Proof. destruct c; [trivial | intros _; apply events_only_ret]. Qed.

Lemma events_only_for_range {A} (xs : list A) (body : A -> M unit) :
  (forall x, events_only Q (body x)) -> events_only Q (for_range xs body).
Proof.
  intros H. induction xs as [|x xs IH]; simpl.
  - apply events_only_ret.
  - apply (events_only_bind (body x)); auto.
Qed.

End Events.

Ltac events_only_step :=
  lazymatch goal with
  | |- events_only _ (mbind _ _) => apply events_only_bind; [|intros ?]
  | |- events_only _ (Effects.when true ?m) => change (Effects.when true m) with m
  | |- events_only _ (Effects.when false _) => apply events_only_ret
  | |- events_only _ (Effects.when _ _) => apply events_only_when
  | |- events_only _ (Effects.printf _) => apply events_only_printf
  | |- events_only _ (Effects.for_range _ _) =>
      apply events_only_for_range; intros ?
  | |- events_only _ (Effects.ret _) => apply events_only_ret
  | |- events_only _ (mret _) => apply events_only_mret
  | |- events_only _ (if ?c then _ else _) => destruct c
  | |- events_only _ (match ?x with _ => _ end) => destruct x
  | |- events_only _ (let _ := _ in _) => cbv zeta
  end.

Ltac events_only_auto := repeat events_only_step.

Section PrintsMore.
Import Effects.

Lemma prints_only_weaken {A} (P Q : string -> Prop) (m : M A) :
  (forall text, P text -> Q text) -> prints_only P m -> prints_only Q m.
Proof. intros HPQ Hm text Hin. apply HPQ. now apply Hm. Qed.

Lemma prints_only_exit {A} (P : string -> Prop) code :
  prints_only P (os_Exit code : M A).
Proof. intros text []. Qed.

End PrintsMore.

(** ** The lines of the output *)

Section LineFormat.
Import GoStrings Effects Utils World.

Variable E : Env.

Local Abbreviation formed := (prints_only finding_or_banner).

Lemma auditPerson_formed extra person : formed (Filtered.auditPerson extra person).
Proof. unfold Filtered.auditPerson. prints_only_auto; reflexivity. Qed.

Lemma auditLeadership_formed group groupType :
  formed (Filtered.auditLeadership group groupType).
Proof.
  unfold Filtered.auditLeadership.
  prints_only_auto; try reflexivity. apply auditPerson_formed.
Qed.

Lemma auditContact_formed contact : formed (Filtered.auditContact contact).
Proof.
  unfold Filtered.auditContact.
  prints_only_auto; try reflexivity. apply auditPerson_formed.
Qed.

Lemma auditCharterLink_formed pwd group :
  formed (Filtered.auditCharterLink E pwd group).
Proof. unfold Filtered.auditCharterLink. prints_only_auto; reflexivity. Qed.

Lemma auditWorkingGroupStakeholders_formed groupType group context :
  formed (Filtered.auditWorkingGroupStakeholders groupType group context).
Proof.
  unfold Filtered.auditWorkingGroupStakeholders. prints_only_auto; reflexivity.
Qed.

Lemma auditOwnersInfo_formed group info url :
  formed (Filtered.auditOwnersInfo group info url).
Proof. unfold Filtered.auditOwnersInfo. prints_only_auto; reflexivity. Qed.

Lemma auditOwnersFiles_body_formed reRaw reGH group url :
  formed (Filtered.auditOwnersFiles_body E reRaw reGH group url).
Proof.
  unfold Filtered.auditOwnersFiles_body.
  prints_only_auto; try reflexivity. apply auditOwnersInfo_formed.
Qed.

Lemma auditOwnersFiles_formed group subproject :
  formed (Filtered.auditOwnersFiles E group subproject).
Proof.
  unfold Filtered.auditOwnersFiles, Go.MustCompile.
  prints_only_auto; try reflexivity. apply auditOwnersFiles_body_formed.
Qed.

Lemma auditSubProject_formed group : formed (Filtered.auditSubProject E group).
Proof.
  unfold Filtered.auditSubProject, Filtered.auditSubProject_body.
  prints_only_auto; try reflexivity.
  - apply auditContact_formed.
  - apply auditOwnersFiles_formed.
Qed.

Lemma auditGroup_subprojects_formed groupType group :
  formed (Filtered.auditGroup_subprojects E groupType group).
Proof.
  unfold Filtered.auditGroup_subprojects.
  prints_only_auto; try reflexivity. apply auditSubProject_formed.
Qed.

Lemma auditGroup_formed pwd groupType group context :
  formed (Filtered.auditGroup E pwd groupType group context).
Proof.
  unfold Filtered.auditGroup.
  prints_only_auto; try reflexivity;
    auto using auditCharterLink_formed, auditWorkingGroupStakeholders_formed,
      auditLeadership_formed, auditContact_formed, auditGroup_subprojects_formed.
Qed.

End LineFormat.

Section RunLines.
Import GoStrings Effects Utils World Go.

Variable E : Env.

Lemma Run_names_lines order i pwd context args :
  prints_only (filtered_run_line E) (Filtered.Run_names E order i pwd context args).
Proof.
  revert i. induction args as [|name args IH]; intros i; cbn [Filtered.Run_names].
  - apply prints_only_mret.
  - apply prints_only_bind; [|intros _; apply IH].
    unfold Filtered.Run_body. apply prints_only_bind.
    + apply prints_only_for_range_with. intros [groupType groups] found.
      cbv beta iota. prints_only_auto.
      apply (prints_only_weaken finding_or_banner); [now left|].
      apply auditGroup_formed.
    + intros found. prints_only_auto.
      right. right. right. left. now exists name.
Qed.

Lemma Unconditional_auditPerson_lines group groupType extra person :
  prints_only warning_or_banner
    (Unconditional.auditPerson E group groupType extra person).
Proof. unfold Unconditional.auditPerson. prints_only_auto; reflexivity. Qed.

Lemma Unconditional_auditContact_lines contact groupType group :
  prints_only warning_or_banner
    (Unconditional.auditContact E contact groupType group).
Proof.
  unfold Unconditional.auditContact. prints_only_auto; try reflexivity.
  apply Unconditional_auditPerson_lines.
Qed.

Lemma Unconditional_auditGroup_lines pwd groupType group context :
  prints_only warning_or_banner
    (Unconditional.auditGroup E pwd groupType group context).
Proof.
  unfold Unconditional.auditGroup, Unconditional.auditCharterLink,
    Unconditional.auditWorkingGroupStakeholders, Unconditional.auditLeadership,
    Unconditional.auditSubProject, Unconditional.auditSubProject_body.
  prints_only_auto; try reflexivity;
    auto using Unconditional_auditPerson_lines, Unconditional_auditContact_lines.
Qed.

End RunLines.



(** ** The ERROR of [auditOwnersFiles] for a subproject without owners *)

Section NoOwnersError.
Import GoStrings Effects Utils World.

Variable E : Env.

Local Abbreviation silent := (prints_only not_no_owners_error).

Lemma auditPerson_silent extra person : silent (Filtered.auditPerson extra person).
Proof. unfold Filtered.auditPerson. prints_only_auto; reflexivity. Qed.

Lemma auditContact_silent contact : silent (Filtered.auditContact contact).
Proof.
  unfold Filtered.auditContact.
  prints_only_auto; try reflexivity. apply auditPerson_silent.
Qed.

Lemma auditLeadership_silent group groupType :
  silent (Filtered.auditLeadership group groupType).
Proof.
  unfold Filtered.auditLeadership.
  prints_only_auto; try reflexivity. apply auditPerson_silent.
Qed.

Lemma auditOwnersFiles_body_silent reRaw reGH group url :
  silent (Filtered.auditOwnersFiles_body E reRaw reGH group url).
Proof.
  unfold Filtered.auditOwnersFiles_body, Filtered.auditOwnersInfo.
  prints_only_auto; reflexivity.
Qed.

(** [auditSubProject] calls [auditOwnersFiles] for a list of owners that is
    not empty, so the test of [auditOwnersFiles] for an empty list fails. *)
Lemma auditSubProject_body_silent group subproject :
  silent (Filtered.auditSubProject_body E group subproject).
Proof.
  unfold Filtered.auditSubProject_body.
  destruct (Owners subproject) as [|url urls] eqn:Howners.
  - simpl List.length. simpl Nat.eqb. cbv iota.
    prints_only_auto; try reflexivity. apply auditContact_silent.
  - unfold Filtered.auditOwnersFiles, Go.MustCompile. rewrite Howners.
    simpl List.length. simpl Nat.eqb. cbv iota.
    prints_only_auto; try reflexivity.
    + apply auditContact_silent.
    + apply auditOwnersFiles_body_silent.
Qed.

End NoOwnersError.


(** ** Audits that touch neither the network nor the file system *)

Section PureAudits.
Import GoStrings Effects Utils World.

Variable E : Env.

Lemma auditPerson_prints extra person :
  events_only is_print (Filtered.auditPerson extra person).
Proof. unfold Filtered.auditPerson. events_only_auto; eexists; reflexivity. Qed.

Lemma auditContact_prints contact :
  events_only is_print (Filtered.auditContact contact).
Proof.
  unfold Filtered.auditContact.
  events_only_auto; try (eexists; reflexivity). apply auditPerson_prints.
Qed.

Lemma auditLeadership_prints group groupType :
  events_only is_print (Filtered.auditLeadership group groupType).
Proof.
  unfold Filtered.auditLeadership.
  events_only_auto; try (eexists; reflexivity). apply auditPerson_prints.
Qed.

Lemma auditWorkingGroupStakeholders_prints groupType group context :
  events_only is_print
    (Filtered.auditWorkingGroupStakeholders groupType group context).
Proof.
  unfold Filtered.auditWorkingGroupStakeholders.
  events_only_auto; eexists; reflexivity.
Qed.

Lemma auditLeadership_finishes group groupType :
  finishes (Filtered.auditLeadership group groupType).
Proof.
  unfold Filtered.auditLeadership. finishes_auto.
  apply Filtered_auditPerson_finishes.
Qed.

Lemma auditWorkingGroupStakeholders_finishes groupType group context :
  finishes (Filtered.auditWorkingGroupStakeholders groupType group context).
Proof. unfold Filtered.auditWorkingGroupStakeholders. finishes_auto. Qed.

End PureAudits.

(** X4.  In the version with name filters only sigs have their charter link
    and their ownership files looked up.  The audit of a group of any other
    category makes no request and no file access, its only events are
    writes to standard output, and it cannot panic, whatever the world. *)
Theorem X4_other_categories_audited_offline
    (E : World.Env) (pwd groupType : string)
    (group : Utils.Group) (context : Utils.Context) :
  groupType <> "sig" ->
  finishes (Filtered.auditGroup E pwd groupType group context)
  /\ events_only is_print (Filtered.auditGroup E pwd groupType group context).
Proof.
  intros Hsig. unfold Filtered.auditGroup, Filtered.auditGroup_subprojects.
  destruct (String.eqb_spec groupType "sig") as [|_]; [contradiction|].
  split.
  - unfold Effects.when. simpl negb. finishes_auto;
      auto using auditLeadership_finishes, Filtered_auditContact_finishes,
        auditWorkingGroupStakeholders_finishes.
  - events_only_auto; try (eexists; reflexivity);
      auto using auditLeadership_prints, auditContact_prints,
        auditWorkingGroupStakeholders_prints.
Qed.

Lemma X4_other_categories_witness :
  "committee" <> "sig"
  /\ finishes (Filtered.auditGroup plain_world "/community" "committee"
                 committee_with_subproject no_context)
  /\ events_only is_print
       (Filtered.auditGroup plain_world "/community" "committee"
          committee_with_subproject no_context).
Proof.
  split; [discriminate|].
  exact (X4_other_categories_audited_offline plain_world "/community" "committee"
           committee_with_subproject no_context ltac:(discriminate)).
Defined.

(** ** The unconditional version does not panic *)

Section UnconditionalFinishes.
Import GoStrings Effects Utils World Go.

Variable E : Env.
Hypothesis contract : http_contract E.

Lemma Unconditional_auditCharterLink_finishes pwd groupType group :
  finishes (Unconditional.auditCharterLink E pwd groupType group).
Proof.
  unfold Unconditional.auditCharterLink.
  destruct (HasPrefix (CharterLink group) "http").
  - pose proof (contract (CharterLink group)) as Hc.
    destruct (http_Get E (CharterLink group)) as [[r|] [err|]]; simpl in Hc.
    + reflexivity.
    + unfold finishes. run_monad. now destruct (StatusCode r =? 200).
    + reflexivity.
    + now destruct Hc.
  - finishes_auto.
Qed.

Lemma Unconditional_auditLeadership_finishes group groupType :
  finishes (Unconditional.auditLeadership E group groupType).
Proof.
  unfold Unconditional.auditLeadership. finishes_auto.
  apply Unconditional_auditPerson_finishes.
Qed.

Lemma Unconditional_auditWorkingGroupStakeholders_finishes group groupType context :
  finishes (Unconditional.auditWorkingGroupStakeholders group groupType context).
Proof. unfold Unconditional.auditWorkingGroupStakeholders. finishes_auto. Qed.

Lemma Unconditional_auditGroup_finishes pwd groupType group context :
  finishes (Unconditional.auditGroup E pwd groupType group context).
Proof.
  unfold Unconditional.auditGroup, Unconditional.auditSubProject.
  finishes_auto;
    auto using Unconditional_auditCharterLink_finishes,
      Unconditional_auditLeadership_finishes,
      Unconditional_auditWorkingGroupStakeholders_finishes,
      Unconditional_auditContact_finishes,
      Unconditional_auditSubProject_body_finishes.
Qed.

Lemma Unconditional_Run_groups_finishes pwd context entries :
  finishes (Unconditional.Run_groups E pwd context entries).
Proof.
  unfold Unconditional.Run_groups.
  apply finishes_for_range. intros [groupType groups].
  apply finishes_for_range. intros group.
  apply Unconditional_auditGroup_finishes.
Qed.

End UnconditionalFinishes.

(** X5.  With an HTTP client that keeps its contract (no error means a
    response), the unconditional version cannot panic while it audits: a
    run falls through to its last line exactly when the working directory,
    the path of the governance file and the governance file itself were
    obtained, whatever the groups, the answers of the network and the
    iteration order; and a run that falls through ends with [Done.]. *)
Theorem X5_unconditional_run_finishes
    (E : World.Env) (order : Go.IterationOrder) :
  http_contract E ->
  (finishes (Unconditional.Run E order)
   <-> exists pwd path context,
         World.Getwd E = inl pwd /\ World.GetSigsYamlFile E pwd = inl path
         /\ World.GetSigsYaml E path = inl context)
  /\ (finishes (Unconditional.Run E order) ->
      exists events,
        Effects.trace (Unconditional.Run E order)
        = (Effects.Print (running_script E) :: events
           ++ Effects.Print done_line :: nil)%list).
Proof.
  intros Hc.
  assert (forall pwd path context,
             World.Getwd E = inl pwd -> World.GetSigsYamlFile E pwd = inl path ->
             World.GetSigsYaml E path = inl context ->
             finishes (Unconditional.Run E order)
             /\ exists events,
                 Effects.trace (Unconditional.Run E order)
                 = (Effects.Print (running_script E) :: events
                    ++ Effects.Print done_line :: nil)%list) as Hloaded.
  { intros pwd path context Hwd Hfile Hyaml.
    rewrite (Unconditional_Run_loaded E order pwd path context Hwd Hfile Hyaml).
    pose proof (Unconditional_Run_groups_finishes E Hc pwd context
                  (order 0%nat (Unconditional.groupMap context))) as Hfin.
    split.
    - now apply finishes_framed.
    - eexists. now apply trace_framed. }
  split; [split|].
  - apply Unconditional_Run_finishes_inv.
  - intros (pwd & path & context & Hwd & Hfile & Hyaml).
    now apply (Hloaded pwd path context).
  - intros Hfin.
    destruct (Unconditional_Run_finishes_inv E order Hfin)
      as (pwd & path & context & Hwd & Hfile & Hyaml).
    now apply (Hloaded pwd path context).
Qed.

Lemma two_categories_world_contract : http_contract two_categories_world.
Proof. intros url _. discriminate. Qed.

Lemma X5_unconditional_run_witness :
  http_contract two_categories_world
  /\ finishes (Unconditional.Run two_categories_world order_backward).
Proof.
  split; [exact two_categories_world_contract|].
  apply (proj1 (X5_unconditional_run_finishes two_categories_world
                  order_backward two_categories_world_contract)).
  exists "/community", "/community/sigs.yaml", two_categories.
  repeat split; reflexivity.
Defined.

(** ** Charter Verification *)

Section Charter.
Import GoStrings Effects Utils World.

(** X6.  Charter Verification makes one probe and never panics while the
    HTTP client keeps its contract.  A link that begins with [http] is
    requested, and not looked up as a file: there is a WARNING unless the
    answer is a response with status 200 and no error, so that a request
    that fails in transport draws the WARNING, where the same failure for an
    ownership file ends the run.  Every other link is looked up as a file
    under the working directory and the directory of the group, with a
    WARNING when the file does not exist, and without any request. *)
Theorem X6_charter_link_probe (E : Env) (pwd : string) (group : Group) :
  (HasPrefix (CharterLink group) "http" = true ->
   (fst (http_Get E (CharterLink group)) = None ->
    snd (http_Get E (CharterLink group)) <> None) ->
   Filtered.auditCharterLink E pwd group
   = mkM (HttpGet (CharterLink group)
          :: if charter_reached (http_Get E (CharterLink group)) then nil
             else Print (charter_unreachable_warning (CharterLink group)) :: nil)
         (Ok tt))
  /\ (HasPrefix (CharterLink group) "http" = false ->
      let path := path_Join E (pwd :: Dir group :: CharterLink group :: nil) in
      Filtered.auditCharterLink E pwd group
      = mkM (Stat path
             :: if stat_NotExist E path then
                  Print (charter_missing_warning path) :: nil
                else nil)
            (Ok tt)).
Proof.
  split.
  - intros Hhttp Hc. unfold Filtered.auditCharterLink. rewrite Hhttp.
    destruct (http_Get E (CharterLink group)) as [[r|] [err|]]; simpl in Hc.
    + reflexivity.
    + run_monad. unfold charter_reached.
      now destruct (StatusCode r =? 200).
    + reflexivity.
    + now destruct Hc.
  - intros Hfile path. unfold Filtered.auditCharterLink. rewrite Hfile.
    fold path. run_monad. now destruct (stat_NotExist E path).
Qed.

Lemma X6_charter_link_witness :
  HasPrefix (CharterLink sig_remote_charter) "http" = true
  /\ Filtered.auditCharterLink plain_world "/community" sig_remote_charter
     = mkM (HttpGet "https://example.org/sig-apps/charter.md"
            :: Print (charter_unreachable_warning
                        "https://example.org/sig-apps/charter.md") :: nil)
           (Ok tt)
  /\ HasPrefix (CharterLink sig_one_chair) "http" = false
  /\ Filtered.auditCharterLink plain_world "/community" sig_one_chair
     = mkM (Stat "/community/sig-apps/charter.md" :: nil) (Ok tt).
Proof.
  split; [reflexivity|]. split.
  - exact (proj1 (X6_charter_link_probe plain_world "/community" sig_remote_charter)
             eq_refl ltac:(discriminate)).
  - split; [reflexivity|].
    exact (proj2 (X6_charter_link_probe plain_world "/community" sig_one_chair)
             eq_refl).
Defined.

End Charter.

(** ** Suffixes *)

Section Suffixes.
Import GoStrings.

Lemma length_append (a b : string) :
  String.length (a +:+ b) = (String.length a + String.length b)%nat.
Proof.
  induction a as [|c a IH]; [reflexivity|].
  rewrite append_cons. simpl. now rewrite IH.
Qed.

Lemma substring_all (s : string) : String.substring 0 (String.length s) s = s.
Proof. induction s as [|c s IH]; [reflexivity|]. simpl. now rewrite IH. Qed.

Lemma substring_skip (before s : string) (m : nat) :
  String.substring (String.length before) m (before +:+ s)
  = String.substring 0 m s.
Proof.
  induction before as [|c before IH]; [reflexivity|].
  rewrite append_cons. simpl. exact IH.
Qed.

(** A string is what comes before an offset and what comes after it. *)
Lemma substring_rest (s : string) (n : nat) :
  (n <= String.length s)%nat ->
  exists before,
    s = before +:+ String.substring n (String.length s - n) s.
Proof.
  revert s. induction n as [|n IH]; intros s Hn.
  - exists EmptyString. rewrite Nat.sub_0_r, substring_all. reflexivity.
  - destruct s as [|c s]; [simpl in Hn; lia|].
    simpl in Hn. destruct (IH s ltac:(lia)) as [before Hs].
    exists (String c before). rewrite append_cons. simpl. now rewrite <- Hs.
Qed.

(** [HasSuffix] holds exactly for the strings that end with the suffix. *)
Lemma HasSuffix_spec (s suffix : string) :
  HasSuffix s suffix = true <-> exists before, s = before +:+ suffix.
Proof.
  unfold HasSuffix. rewrite andb_true_iff, Nat.leb_le, String.eqb_eq. split.
  - intros [Hle Hsub].
    destruct (substring_rest s (String.length s - String.length suffix)
                ltac:(lia)) as [before Hs].
    replace (String.length s - (String.length s - String.length suffix))%nat
      with (String.length suffix) in Hs by lia.
    rewrite Hsub in Hs. now exists before.
  - intros [before ->]. rewrite length_append. split; [lia|].
    replace (String.length before + String.length suffix
             - String.length suffix)%nat
      with (String.length before) by lia.
    rewrite substring_skip. apply substring_all.
Qed.

Lemma existsb_false_iff {A} (p : A -> bool) (l : list A) :
  existsb p l = false <-> forall x, In x l -> p x = false.
Proof.
  induction l as [|y l IH]; simpl.
  - split; [intros _ x [] | reflexivity].
  - rewrite orb_false_iff, IH. split.
    + intros [Hy Hl] x [<-|Hx]; auto.
    + intros H. split; [apply H; now left | intros x Hx; apply H; now right].
Qed.

Lemma length_zero (s : string) :
  (0 <? String.length s)%nat = false <-> s = EmptyString.
Proof. destruct s; unfold Nat.ltb; simpl; split; congruence. Qed.

End Suffixes.

(** ** The cross-check of an ownership file against its group *)

Section CrossCheck.
Import GoStrings Effects Utils World.

(** What [auditOwnersInfo] writes, by the outcome of its tests. *)
Lemma auditOwnersInfo_trace (group : Group) (info : OwnersInfo) (url : string) :
  trace (Filtered.auditOwnersInfo group info url)
  = ((if (0 <? List.length (Labels info))%nat then
        if (0 <? String.length (Label group))%nat then
          if existsb (fun label => HasSuffix label (Label group)) (Labels info)
          then nil
          else Print (label_suffix_warning group url) :: nil
        else nil
      else Print (missing_labels_warning group url) :: nil)
     ++ if existsb (fun item => Contains item (Label group))
             (Approvers info ++ Reviewers info ++ RequiredReviewers info)
        then nil
        else Print (alias_warning url) :: nil)%list.
Proof.
  unfold Filtered.auditOwnersInfo. cbv zeta. rewrite !fold_found. simpl orb.
  simpl app at 1.
  destruct (0 <? List.length (Labels info))%nat,
    (0 <? String.length (Label group))%nat,
    (existsb (fun label => HasSuffix label (Label group)) (Labels info)),
    (existsb (fun item => Contains item (Label group))
       (Approvers info ++ Reviewers info ++ RequiredReviewers info));
    reflexivity.
Qed.

(** X7.  The cross-check of a parsed ownership file against a group writes
    at most three findings, and each under one condition: the WARNING for
    missing labels exactly when the file declares no label; the WARNING
    about the label exactly when the file declares labels, the group has a
    label, and no label of the file ends with the label of the group; the
    WARNING about the alias exactly when no approver, reviewer or required
    reviewer contains the label of the group. *)
Theorem X7_owners_cross_check
    (group : Group) (info : OwnersInfo) (url : string) :
  (In (Print (missing_labels_warning group url))
      (trace (Filtered.auditOwnersInfo group info url))
   <-> Labels info = nil)
  /\ (In (Print (label_suffix_warning group url))
         (trace (Filtered.auditOwnersInfo group info url))
      <-> Labels info <> nil /\ Label group <> EmptyString
          /\ forall label, In label (Labels info) ->
                           ~ exists before, label = before +:+ Label group)
  /\ (In (Print (alias_warning url))
         (trace (Filtered.auditOwnersInfo group info url))
      <-> forall item,
            In item (Approvers info ++ Reviewers info ++ RequiredReviewers info) ->
            ~ exists before after, item = before +:+ Label group +:+ after).
Proof.
  rewrite auditOwnersInfo_trace.
  assert (Labels info = nil <-> (0 <? List.length (Labels info))%nat = false)
    as A1 by (destruct (Labels info); unfold Nat.ltb; simpl; split; congruence).
  assert (Label group = EmptyString
          <-> (0 <? String.length (Label group))%nat = false)
    as A2 by (symmetry; apply length_zero).
  assert ((forall label, In label (Labels info) ->
                         ~ exists before, label = before +:+ Label group)
          <-> existsb (fun label => HasSuffix label (Label group)) (Labels info)
              = false) as A3.
  { rewrite existsb_false_iff. split; intros H label Hin.
    - specialize (H label Hin). rewrite <- HasSuffix_spec in H.
      now destruct (HasSuffix label (Label group)).
    - rewrite <- HasSuffix_spec, (H label Hin). discriminate. }
  assert ((forall item,
              In item (Approvers info ++ Reviewers info ++ RequiredReviewers info) ->
              ~ exists before after, item = before +:+ Label group +:+ after)
          <-> existsb (fun item => Contains item (Label group))
                (Approvers info ++ Reviewers info ++ RequiredReviewers info)
              = false) as A4.
  { rewrite existsb_false_iff. split; intros H item Hin.
    - specialize (H item Hin). rewrite <- Contains_spec in H.
      now destruct (Contains item (Label group)).
    - rewrite <- Contains_spec, (H item Hin). discriminate. }
  rewrite A1, A2, A3, A4. clear A1 A2 A3 A4.
  assert (Print (label_suffix_warning group url)
          <> Print (missing_labels_warning group url)) as H1 by discriminate.
  assert (Print (label_suffix_warning group url) <> Print (alias_warning url))
    as H2 by discriminate.
  assert (Print (missing_labels_warning group url) <> Print (alias_warning url))
    as H3 by discriminate.
  destruct (0 <? List.length (Labels info))%nat,
    (0 <? String.length (Label group))%nat,
    (existsb (fun label => HasSuffix label (Label group)) (Labels info)),
    (existsb (fun item => Contains item (Label group))
       (Approvers info ++ Reviewers info ++ RequiredReviewers info));
    simpl; intuition congruence.
Qed.

End CrossCheck.

(** ** Ownership files that cannot be read or parsed, and requests that fail *)

Section OwnersErrors.
Import GoStrings Effects Utils World.

Variable E : Env.
Variable group : Group.

Local Abbreviation body :=
  (Filtered.auditOwnersFiles_body E Filtered.reRawGitHubURL
     Filtered.reGitHubURL group).

(** One owner URL is audited without a panic exactly when it is rejected for
    its shape or its request brings a response. *)
Lemma body_finishes_iff (url : string) :
  finishes (body url)
  <-> (accepted_shape url -> fst (http_Get E url) <> None).
Proof.
  unfold Filtered.auditOwnersFiles_body, accepted_shape, finishes.
  destruct (Regexp.MatchString Filtered.reRawGitHubURL url) eqn:Hraw;
    destruct (Regexp.MatchString Filtered.reGitHubURL url) eqn:Hweb;
    simpl negb; simpl andb; cbv iota.
  4: { split; [intros _ [H|H]; discriminate H | reflexivity]. }
  all: destruct (http_Get E url) as [[r|] [err|]]; simpl fst; run_monad;
    try solve [split; [intros _ _; discriminate | intros _; reflexivity]];
    try solve [split; [intros H; discriminate H
                      | intros H; exfalso; apply H; [auto | reflexivity]]].
  all: destruct (StatusCode r =? 200); cbv iota;
    try solve [split; [intros _ _; discriminate | intros _; reflexivity]].
  all: destruct (body_err (resp_Body r));
    destruct (GetOwnersInfoFromBytes E (body_bytes (resp_Body r)));
    try destruct (Contains url "kubernetes/kubernetes"); simpl negb; run_monad;
    try match goal with
        | |- context [Filtered.auditOwnersInfo ?g ?i ?u] =>
            let Hf := fresh "Hf" in
            pose proof (auditOwnersInfo_finished g i u) as Hf;
            unfold result in Hf; rewrite Hf
        end;
    (split; [intros _ _; discriminate | intros _; reflexivity]).
Qed.

End OwnersErrors.

Lemma auditOwnersFiles_finishes_iff
    (E : World.Env) (group : Utils.Group) (subproject : Utils.Subproject) :
  finishes (Filtered.auditOwnersFiles E group subproject)
  <-> Forall (fun url => accepted_shape url ->
                         fst (World.http_Get E url) <> None)
        (Utils.Owners subproject).
Proof.
  rewrite auditOwnersFiles_unfold.
  assert (forall (first : string) (m k : Effects.M unit),
             finishes m ->
             (finishes (Effects.bind (Effects.printf first)
                          (fun _ => Effects.bind m (fun _ => k)))
              <-> finishes k)) as Hframe.
  { intros first m k Hm. unfold finishes, Effects.bind in *. simpl.
    rewrite Hm. reflexivity. }
  rewrite Hframe by (unfold Effects.when; finishes_auto).
  split.
  - intros Hfin. apply for_range_finishes_inv in Hfin.
    eapply Forall_impl; [exact Hfin|].
    intros url Hurl. cbv beta in Hurl.
    exact (proj1 (body_finishes_iff E group url) Hurl).
  - intros Hall. apply for_range_finishes.
    eapply Forall_impl; [exact Hall|].
    intros url Hurl. cbv beta in Hurl.
    exact (proj2 (body_finishes_iff E group url) Hurl).
Qed.


(** X9.  When the body of the response for an owner URL cannot be read to
    its end, the ERROR for it is written and the bytes that were read are
    parsed all the same.  A file that cannot be parsed draws one ERROR and
    is not cross-checked, whatever its repository; a file that is parsed is
    cross-checked when its URL contains [kubernetes/kubernetes]. *)
Theorem X9_owners_read_and_parse_errors
    (E : World.Env) (group : Utils.Group) (url : string) (r : World.Response) :
  accepted_shape url ->
  World.http_Get E url = (Some r, None) ->
  World.StatusCode r = 200 ->
  let bytes := World.body_bytes (World.resp_Body r) in
  (forall err,
      World.GetOwnersInfoFromBytes E bytes = inr err ->
      Filtered.auditOwnersFiles_body E Filtered.reRawGitHubURL
        Filtered.reGitHubURL group url
      = Effects.mkM
          (Effects.HttpGet url
           :: read_events url r
           ++ Effects.ParseOwners bytes
           :: Effects.Print (parse_error url err) :: nil)%list
          (Effects.Ok tt))
  /\ (forall info,
         World.GetOwnersInfoFromBytes E bytes = inl info ->
         Filtered.auditOwnersFiles_body E Filtered.reRawGitHubURL
           Filtered.reGitHubURL group url
         = Effects.mkM
             (Effects.HttpGet url
              :: read_events url r
              ++ Effects.ParseOwners bytes
              :: if GoStrings.Contains url "kubernetes/kubernetes"
                 then Effects.trace (Filtered.auditOwnersInfo group info url)
                 else nil)%list
             (Effects.Ok tt)).
Proof.
  intros Hs Hget Hcode bytes. subst bytes.
  split; [intros err Hparse | intros info Hparse];
    unfold Filtered.auditOwnersFiles_body, read_events;
    rewrite (accepted_shape_guard _ Hs), Hget; run_monad;
    rewrite Hcode, Z.eqb_refl, Hparse; cbv iota;
    destruct (World.body_err (World.resp_Body r)); try reflexivity.
  - destruct (GoStrings.Contains url "kubernetes/kubernetes"); simpl negb;
      cbv iota; [|reflexivity].
    pose proof (auditOwnersInfo_finished group info url) as Hf.
    unfold Effects.result in Hf. rewrite Hf. reflexivity.
  - destruct (GoStrings.Contains url "kubernetes/kubernetes"); simpl negb;
      cbv iota; [|reflexivity].
    pose proof (auditOwnersInfo_finished group info url) as Hf.
    unfold Effects.result in Hf. rewrite Hf. reflexivity.
Qed.

Lemma X9_owners_read_and_parse_witness :
  accepted_shape kubernetes_owners_url
  /\ Filtered.auditOwnersFiles_body truncated_world Filtered.reRawGitHubURL
       Filtered.reGitHubURL sig_one_chair kubernetes_owners_url
     = Effects.mkM
         (Effects.HttpGet kubernetes_owners_url
          :: Effects.ReadBody kubernetes_owners_url
          :: Effects.Print (read_error kubernetes_owners_url "unexpected EOF")
          :: Effects.ParseOwners "approvers: [a"
          :: Effects.Print
               (parse_error kubernetes_owners_url
                  "yaml: line 1: did not find expected ',' or ']'") :: nil)
         (Effects.Ok tt).
Proof.
  assert (accepted_shape kubernetes_owners_url) as Hs by (left; reflexivity).
  split; [exact Hs|].
  exact (proj1 (X9_owners_read_and_parse_errors truncated_world sig_one_chair
                  kubernetes_owners_url
                  (World.mkResponse 200
                     (World.mkBody "approvers: [a" (Some "unexpected EOF")))
                  Hs eq_refl eq_refl)
           _ eq_refl).
Defined.

(** ** The names given on the command line *)

Section Names.
Import GoStrings Effects Utils World Go.

Variable E : Env.

(** A name selects a group when it is [all] or occurs in the name or in the
    directory of the group. *)
Lemma selects_spec (name : string) (group : Group) :
  selects name group = true
  <-> name = "all"
      \/ (exists before after, Name group = before +:+ name +:+ after)
      \/ (exists before after, Dir group = before +:+ name +:+ after).
Proof.
  unfold selects. rewrite !orb_true_iff, String.eqb_eq, !Contains_spec. tauto.
Qed.

Lemma for_range_ext {A} (xs : list A) (body body' : A -> M unit) :
  (forall x, In x xs -> body x = body' x) ->
  for_range xs body = for_range xs body'.
Proof.
  induction xs as [|x xs IH]; intros H; [reflexivity|].
  rewrite !for_range_cons, (H x) by now left.
  apply bind_ext. intros _. apply IH. intros y Hy. apply H. now right.
Qed.

(** Nothing is audited for a name that selects no group. *)
Lemma audit_selected_none pwd context name entries :
  existsb (fun entry => existsb (selects name) (snd entry)) entries = false ->
  for_range entries (audit_selected E pwd context name) = mkM nil (Ok tt).
Proof.
  intros Hnone. rewrite existsb_false_iff in Hnone.
  rewrite (for_range_ext entries _ (fun _ => ret tt)).
  - induction entries as [|entry entries IH]; [reflexivity|].
    rewrite for_range_cons, bind_ret_l. apply IH.
    intros x Hx. apply Hnone. now right.
  - intros entry Hentry. specialize (Hnone entry Hentry).
    rewrite existsb_false_iff in Hnone. unfold audit_selected.
    rewrite (for_range_ext (snd entry) _ (fun _ => ret tt)).
    + clear. induction (snd entry) as [|g gs IH]; [reflexivity|].
      now rewrite for_range_cons, bind_ret_l.
    + intros group Hgroup. now rewrite (Hnone group Hgroup).
Qed.

Lemma audit_selected_formed pwd context name entries :
  prints_only finding_or_banner
    (for_range entries (audit_selected E pwd context name)).
Proof.
  apply prints_only_for_range. intros entry. unfold audit_selected.
  apply prints_only_for_range. intros group. apply prints_only_when.
  apply auditGroup_formed.
Qed.

Lemma some_selected_iff name (entries : list (string * list Group)) :
  existsb (fun entry => existsb (selects name) (snd entry)) entries = true
  <-> exists groupType groups group,
        In (groupType, groups) entries /\ In group groups
        /\ selects name group = true.
Proof.
  rewrite existsb_exists. split.
  - intros ([groupType groups] & Hin & Hsel). apply existsb_exists in Hsel.
    destruct Hsel as (group & Hg & Hs). now exists groupType, groups, group.
  - intros (groupType & groups & group & Hin & Hg & Hs).
    exists (groupType, groups). split; [exact Hin|].
    apply existsb_exists. now exists group.
Qed.

End Names.

(** X10.  In the loop over the names of the command line, the line
    [[name] not found] is written exactly for a name that selects no group:
    a name that is not [all] and occurs neither in the name nor in the
    directory of any group of any category.  This holds for every iteration
    order of the categories, also when the audit of a selected group
    panics. *)
Theorem X10_not_found_iff_nothing_selected
    (E : World.Env) (pwd : string) (context : Utils.Context)
    (entries : list (string * list Utils.Group)) (name : string) :
  In (Effects.Print (not_found_line name))
     (Effects.trace (Filtered.Run_body E pwd context entries name))
  <-> ~ exists groupType groups group,
          In (groupType, groups) entries /\ In group groups
          /\ (name = "all"
              \/ (exists before after,
                     Utils.Name group = before +:+ name +:+ after)
              \/ (exists before after,
                     Utils.Dir group = before +:+ name +:+ after)).
Proof.
  assert ((exists groupType groups group,
              In (groupType, groups) entries /\ In group groups
              /\ (name = "all"
                  \/ (exists before after,
                         Utils.Name group = before +:+ name +:+ after)
                  \/ (exists before after,
                         Utils.Dir group = before +:+ name +:+ after)))
          <-> existsb (fun entry => existsb (selects name) (snd entry)) entries
              = true) as Hsel.
  { rewrite some_selected_iff. split;
      intros (groupType & groups & group & Hin & Hg & Hs);
      exists groupType, groups, group; repeat split; trivial;
      now apply selects_spec. }
  rewrite Hsel, Run_body_selected, trace_bind. clear Hsel.
  destruct (existsb (fun entry => existsb (selects name) (snd entry)) entries)
    eqn:Hany.
  - split; [|intros H; now destruct H].
    intros Hin.
    assert (In (Effects.Print (not_found_line name))
              (Effects.trace
                 (Effects.for_range entries (audit_selected E pwd context name))))
      as Hloop.
    { destruct (Effects.result _); trivial.
      apply in_app_or in Hin as [Hin|[]]. exact Hin. }
    apply (audit_selected_formed E pwd context name entries) in Hloop.
    discriminate Hloop.
  - rewrite (audit_selected_none E pwd context name entries Hany).
    split; [intros _; discriminate | intros _; now left].
Qed.

(** X11.  The empty name selects every group, as every string contains the
    empty string: when the governance file holds a group at all, the audit
    for the name [""] is the audit for the name [all]. *)
Theorem X11_empty_name_selects_all
    (E : World.Env) (pwd : string) (context : Utils.Context)
    (entries : list (string * list Utils.Group)) :
  (exists groupType groups group,
      In (groupType, groups) entries /\ In group groups) ->
  Filtered.Run_body E pwd context entries EmptyString
  = Filtered.Run_body E pwd context entries "all".
Proof.
  intros (groupType & groups & group & Hin & Hg).
  assert (forall name,
             (forall g, selects name g = true) ->
             Filtered.Run_body E pwd context entries name
             = Effects.for_range entries
                 (fun entry =>
                    Effects.for_range (snd entry)
                      (fun g => Filtered.auditGroup E pwd (fst entry) g context)))
    as Hall.
  { intros name Hname. rewrite Run_body_selected.
    assert (existsb (fun entry => existsb (selects name) (snd entry)) entries
            = true) as ->.
    { apply some_selected_iff. now exists groupType, groups, group. }
    simpl negb. unfold Effects.when. rewrite bind_ret_tt.
    apply for_range_ext. intros entry _. unfold audit_selected.
    apply for_range_ext. intros g _. now rewrite Hname. }
  rewrite (Hall EmptyString), (Hall "all"); trivial.
  intros g. unfold selects. simpl String.eqb.
  now rewrite Contains_empty.
Qed.

Lemma X11_empty_name_witness :
  (exists groupType groups group,
      In (groupType, groups) (("sig", sig_one_chair :: nil) :: nil)
      /\ In group groups)
  /\ Filtered.Run_body plain_world "/community" no_context
       (("sig", sig_one_chair :: nil) :: nil) EmptyString
     = Filtered.Run_body plain_world "/community" no_context
         (("sig", sig_one_chair :: nil) :: nil) "all".
Proof.
  assert (exists groupType groups group,
             In (groupType, groups) (("sig", sig_one_chair :: nil) :: nil)
             /\ In group groups) as H.
  { exists "sig", (sig_one_chair :: nil), sig_one_chair.
    split; left; reflexivity. }
  split; [exact H|].
  exact (X11_empty_name_selects_all plain_world "/community" no_context
           (("sig", sig_one_chair :: nil) :: nil) H).
Defined.

(** ** How a run starts *)

(** X12.  The run with name filters stops before any group is audited when
    its start fails, whatever names it was given: it panics with the error
    of the working directory; it writes one line and exits with status 1
    when the kubernetes directory does not exist, before the governance
    file is looked for; and it panics when the governance file is not found
    or cannot be read. *)
Theorem X12_fatal_starts
    (E : World.Env) (order : Go.IterationOrder) (args : list string) :
  (forall err,
      World.Getwd E = inr err ->
      Filtered.Run E order args
      = Effects.mkM (Effects.Print (running_script E) :: nil)
          (Effects.Panic err))
  /\ (forall pwd,
         World.Getwd E = inl pwd ->
         World.stat_NotExist E (World.kubernetesDirectory E) = true ->
         Filtered.Run E order args
         = Effects.mkM (Effects.Print (running_script E)
                        :: Effects.Stat (World.kubernetesDirectory E)
                        :: Effects.Print (missing_directory_line E) :: nil)
             (Effects.Exit 1))
  /\ (forall pwd err,
         World.Getwd E = inl pwd ->
         World.stat_NotExist E (World.kubernetesDirectory E) = false ->
         World.GetSigsYamlFile E pwd = inr err ->
         Filtered.Run E order args
         = Effects.mkM (Effects.Print (running_script E)
                        :: Effects.Stat (World.kubernetesDirectory E) :: nil)
             (Effects.Panic ("unable to find sigs.yaml file: " +:+ err)))
  /\ (forall pwd path err,
         World.Getwd E = inl pwd ->
         World.stat_NotExist E (World.kubernetesDirectory E) = false ->
         World.GetSigsYamlFile E pwd = inl path ->
         World.GetSigsYaml E path = inr err ->
         Filtered.Run E order args
         = Effects.mkM (Effects.Print (running_script E)
                        :: Effects.Stat (World.kubernetesDirectory E) :: nil)
             (Effects.Panic ("error parsing file: " +:+ path +:+ " - "
                             +:+ err))).
Proof.
  unfold Filtered.Run. repeat split.
  - intros err ->. reflexivity.
  - intros pwd -> ->. reflexivity.
  - intros pwd err -> -> Hfile.
    cbv beta iota zeta delta [mbind mret Effects.M_bind Effects.M_ret
      Effects.bind Effects.ret Effects.printf Effects.emit Effects.when
      Effects.trace Effects.result app].
    rewrite Hfile. reflexivity.
  - intros pwd path err -> -> Hfile Hyaml.
    cbv beta iota zeta delta [mbind mret Effects.M_bind Effects.M_ret
      Effects.bind Effects.ret Effects.printf Effects.emit Effects.when
      Effects.trace Effects.result app].
    rewrite Hfile.
    cbv beta iota zeta delta [Effects.trace Effects.result app].
    rewrite Hyaml. reflexivity.
Qed.

Lemma X12_fatal_starts_witness :
  Filtered.Run
    (startup_world (inr "getwd: no such file or directory") true
       (fun _ => inr "not found") (fun _ => inr "yaml: bad indentation"))
    order_forward ("all" :: nil)
  = Effects.mkM
      (Effects.Print
         (running_script
            (startup_world (inr "getwd: no such file or directory") true
               (fun _ => inr "not found")
               (fun _ => inr "yaml: bad indentation"))) :: nil)
      (Effects.Panic "getwd: no such file or directory")
  /\ Effects.result
       (Filtered.Run
          (startup_world (inl "/community") true
             (fun _ => inr "not found") (fun _ => inr "yaml: bad indentation"))
          order_forward ("all" :: nil))
     = Effects.Exit 1
  /\ Effects.result
       (Filtered.Run
          (startup_world (inl "/community") false
             (fun _ => inr "not found") (fun _ => inr "yaml: bad indentation"))
          order_forward ("all" :: nil))
     = Effects.Panic "unable to find sigs.yaml file: not found"
  /\ Effects.result
       (Filtered.Run
          (startup_world (inl "/community") false
             (fun _ => inl "/community/sigs.yaml")
             (fun _ => inr "yaml: bad indentation"))
          order_forward ("all" :: nil))
     = Effects.Panic
         "error parsing file: /community/sigs.yaml - yaml: bad indentation".
Proof.
  split; [|split; [|split]].
  - exact (proj1 (X12_fatal_starts
                     (startup_world (inr "getwd: no such file or directory")
                        true (fun _ => inr "not found")
                        (fun _ => inr "yaml: bad indentation"))
                     order_forward ("all" :: nil))
             "getwd: no such file or directory" eq_refl).
  - exact (f_equal Effects.result
             (proj1 (proj2 (X12_fatal_starts
                              (startup_world (inl "/community") true
                                 (fun _ => inr "not found")
                                 (fun _ => inr "yaml: bad indentation"))
                              order_forward ("all" :: nil)))
                "/community" eq_refl eq_refl)).
  - exact (f_equal Effects.result
             (proj1 (proj2 (proj2 (X12_fatal_starts
                              (startup_world (inl "/community") false
                                 (fun _ => inr "not found")
                                 (fun _ => inr "yaml: bad indentation"))
                              order_forward ("all" :: nil))))
                "/community" "not found" eq_refl eq_refl eq_refl)).
  - exact (f_equal Effects.result
             (proj2 (proj2 (proj2 (X12_fatal_starts
                              (startup_world (inl "/community") false
                                 (fun _ => inl "/community/sigs.yaml")
                                 (fun _ => inr "yaml: bad indentation"))
                              order_forward ("all" :: nil))))
                "/community" "/community/sigs.yaml" "yaml: bad indentation"
                eq_refl eq_refl eq_refl eq_refl)).
Defined.




(** ** Stakeholders in the version that audits every group *)

Section UnconditionalStakeholders.
Import GoStrings Effects Utils World.

Lemma Unconditional_stakeholder_found_spec
    (sigs : list Group) (stakeholder : string) :
  Unconditional.stakeholder_found sigs stakeholder = true
  <-> stakeholder ∈ Name <$> sigs.
Proof.
  induction sigs as [|g sigs IH]; simpl.
  - split; [discriminate | intros H; inversion H].
  - rewrite elem_of_cons.
    destruct (String.eqb_spec (Name g) stakeholder) as [->|Hne].
    + split; auto.
    + rewrite IH. split; [auto | intros [H|H]; [congruence | exact H]].
Qed.

Lemma Unconditional_stakeholders_loop
    (sigs : list Group) (groupType : string) (group : Group)
    (stakeholders : list string) :
  for_range stakeholders (fun stakeholder =>
    when (negb (Unconditional.stakeholder_found sigs stakeholder))
      (printf (unconditional_stakeholder_warning stakeholder groupType group)))
  = mkM (map (fun s =>
                Print (unconditional_stakeholder_warning s groupType group))
             (filter (fun s => s ∉ Name <$> sigs) stakeholders))
        (Ok tt).
Proof.
  induction stakeholders as [|s l IH]; [reflexivity|].
  rewrite for_range_cons, IH.
  destruct (Unconditional.stakeholder_found sigs s) eqn:Hf; simpl.
  - rewrite filter_cons_False; [reflexivity|].
    intros Hn. apply Hn. now apply Unconditional_stakeholder_found_spec.
  - rewrite filter_cons_True; [reflexivity|].
    intros Hin. apply Unconditional_stakeholder_found_spec in Hin. congruence.
Qed.

End UnconditionalStakeholders.

(** X15.  In the version that audits every group, Stakeholder Validation
    writes one WARNING when the group lists no stakeholder, and otherwise
    one WARNING for each entry that is not the name of a sig of the
    context, in the order of the entries; it writes nothing else and does
    not look at the category of the group. *)
Theorem X15_unconditional_stakeholders
    (group : Utils.Group) (groupType : string) (context : Utils.Context) :
  Unconditional.auditWorkingGroupStakeholders group groupType context
  = Effects.mkM
      (match Utils.StakeholderSIGs group with
       | nil =>
           Effects.Print (unconditional_stakeholders_missing groupType group)
           :: nil
       | _ :: _ =>
           map (fun s =>
                  Effects.Print
                    (unconditional_stakeholder_warning s groupType group))
               (filter (fun s => s ∉ Utils.Name <$> Utils.Sigs context)
                       (Utils.StakeholderSIGs group))
       end)
      (Effects.Ok tt).
Proof.
  unfold Unconditional.auditWorkingGroupStakeholders.
  destruct (Utils.StakeholderSIGs group) as [|s l] eqn:Hs; [reflexivity|].
  simpl List.length. simpl Nat.eqb. cbv iota.
  apply Unconditional_stakeholders_loop.
Qed.

(** ** What the audit of a working group finds *)

Section GroupEvents.
Import GoStrings Effects Utils World.

Lemma when_printf (c : bool) (text : string) :
  when c (printf text) = mkM (if c then Print text :: nil else nil) (Ok tt).
Proof. now destruct c. Qed.

Lemma finished_eta (m : M unit) : finishes m -> m = mkM (trace m) (Ok tt).
Proof. unfold finishes. destruct m as [t r]. simpl. now intros ->. Qed.

Lemma auditPerson_events (extra : string) (person : Person) :
  Filtered.auditPerson extra person = mkM (person_findings extra person) (Ok tt).
Proof.
  unfold Filtered.auditPerson, person_findings. rewrite !when_printf.
  destruct (String.length (person_Name person) =? 0)%nat,
    (String.length (GitHub person) =? 0)%nat,
    (String.length (Company person) =? 0)%nat; reflexivity.
Qed.

Lemma auditLeadership_events (group : Group) (groupType : string) :
  Filtered.auditLeadership group groupType
  = mkM ((match Chairs (Leadership group) with
          | nil => Print missing_chairs_warning :: nil
          | _ :: _ => nil
          end)
         ++ (match TechnicalLeads (Leadership group) with
             | nil =>
                 Print missing_tech_leads_warning
                 :: (if String.eqb groupType "sig"
                     then Print tech_leads_hint :: nil else nil)
             | _ :: _ => nil
             end)
         ++ flat_map (person_findings "leadership")
              (Chairs (Leadership group) ++ TechnicalLeads (Leadership group)
               ++ EmeritusLeads (Leadership group)))%list
        (Ok tt).
Proof.
  unfold Filtered.auditLeadership. cbv zeta. rewrite app_nil_l.
  rewrite for_range_finished
    by (apply Forall_forall; intros person _;
        apply Filtered_auditPerson_finishes).
  rewrite (flat_map_ext _ (person_findings "leadership"))
    by (intros person; now rewrite auditPerson_events).
  destruct (Chairs (Leadership group)) as [|chair chairs],
    (TechnicalLeads (Leadership group)) as [|lead leads],
    (String.eqb groupType "sig"); reflexivity.
Qed.

Lemma auditContact_events (contact : Contact) :
  Filtered.auditContact contact
  = mkM ((if (String.length (Slack contact) =? 0)%nat
          then Print ("WARNING: missing 'slack' in contact" +:+ nl) :: nil
          else nil)
         ++ (if (String.length (MailingList contact) =? 0)%nat
             then Print ("WARNING: missing 'mailing_list' in contact" +:+ nl)
                  :: nil
             else nil)
         ++ (if (String.length (PrivateMailingList contact) =? 0)%nat
             then Print ("OPTIONAL: missing 'private_mailing_list' in contact"
                         +:+ nl) :: nil
             else nil)
         ++ (if (List.length (GithubTeams contact) =? 0)%nat
             then Print ("OPTIONAL: missing 'teams' in contact" +:+ nl) :: nil
             else nil)
         ++ match Liaison contact with
            | Some liaison => person_findings "contact/liaison" liaison
            | None => nil
            end)%list
        (Ok tt).
Proof.
  unfold Filtered.auditContact. rewrite !when_printf.
  destruct (Liaison contact) as [liaison|].
  - rewrite auditPerson_events.
    destruct (String.length (Slack contact) =? 0)%nat,
      (String.length (MailingList contact) =? 0)%nat,
      (String.length (PrivateMailingList contact) =? 0)%nat,
      (List.length (GithubTeams contact) =? 0)%nat; reflexivity.
  - destruct (String.length (Slack contact) =? 0)%nat,
      (String.length (MailingList contact) =? 0)%nat,
      (String.length (PrivateMailingList contact) =? 0)%nat,
      (List.length (GithubTeams contact) =? 0)%nat; reflexivity.
Qed.

(** The events of the audit of a working group, check by check. *)
Lemma auditGroup_wg_events
    (E : Env) (pwd : string) (group : Group) (context : Context) :
  Filtered.auditGroup E pwd "wg" group context
  = mkM ((if (String.length (Dir group) =? 0)%nat
          then Print ("WARNING: missing 'dir' key" +:+ nl) :: nil else nil)
         ++ (if (String.length (Name group) =? 0)%nat
             then Print ("WARNING: missing 'name' key" +:+ nl) :: nil
             else nil)
         ++ Print (processing_line "wg" group)
         :: (if negb (String.eqb (DirName E group "wg") (Dir group))
             then Print ("ERROR: expected dir: " +:+ DirName E group "wg"
                         +:+ ", got: " +:+ Dir group +:+ nl) :: nil
             else nil)
         ++ (if negb (String.eqb (LabelName E group "wg") (Label group))
             then Print ("ERROR: expected label: " +:+ LabelName E group "wg"
                         +:+ ", got: " +:+ Label group +:+ nl) :: nil
             else nil)
         ++ trace (Filtered.auditWorkingGroupStakeholders "wg" group context)
         ++ (if (String.length (Label group) =? 0)%nat
             then Print ("WARNING: missing 'label' keys" +:+ nl) :: nil
             else nil)
         ++ trace (Filtered.auditLeadership group "wg")
         ++ (if (List.length (Meetings group) =? 0)%nat
             then Print ("WARNING: missing 'meetings' key" +:+ nl) :: nil
             else nil)
         ++ trace (Filtered.auditContact (group_Contact group))
         ++ (if (0 <? List.length (Subprojects group))%nat
             then Print ("ERROR: only sigs and committees can own code / have subprojects, found: "
                         +:+ pretty (List.length (Subprojects group))
                         +:+ " subprojects" +:+ nl) :: nil
             else nil))%list
        (Ok tt).
Proof.
  unfold Filtered.auditGroup, Filtered.auditGroup_subprojects, processing_line.
  cbv zeta. simpl String.eqb. simpl negb. simpl andb.
  rewrite (finished_eta _
             (auditWorkingGroupStakeholders_finishes "wg" group context)).
  rewrite (finished_eta _ (auditLeadership_finishes group "wg")).
  rewrite (finished_eta _ (Filtered_auditContact_finishes (group_Contact group))).
  cbn [trace].
  generalize (trace (Filtered.auditWorkingGroupStakeholders "wg" group context)),
    (trace (Filtered.auditLeadership group "wg")),
    (trace (Filtered.auditContact (group_Contact group))).
  intros stakeholders leadership contact.
  unfold when at 6 7 11 12. rewrite !when_printf.
  destruct (String.length (Dir group) =? 0)%nat,
    (String.length (Name group) =? 0)%nat,
    (negb (String.eqb (DirName E group "wg") (Dir group))),
    (negb (String.eqb (LabelName E group "wg") (Label group))),
    (String.length (Label group) =? 0)%nat,
    (List.length (Meetings group) =? 0)%nat,
    (0 <? List.length (Subprojects group))%nat; reflexivity.
Qed.

End GroupEvents.

(** X16.  Leadership Validation in the version with name filters never
    fails, and writes: the WARNING for missing chairs when there is no
    chair; the WARNING for missing tech leads when there is no tech lead,
    followed for a sig by the hint about chairs serving as tech leads; and
    then the findings about every chair, tech lead and emeritus lead, in
    this order, a person who serves in two roles being reported twice. *)
Theorem X16_leadership_findings (group : Utils.Group) (groupType : string) :
  Filtered.auditLeadership group groupType
  = Effects.mkM
      ((match Utils.Chairs (Utils.Leadership group) with
        | nil => Effects.Print missing_chairs_warning :: nil
        | _ :: _ => nil
        end)
       ++ (match Utils.TechnicalLeads (Utils.Leadership group) with
           | nil =>
               Effects.Print missing_tech_leads_warning
               :: (if String.eqb groupType "sig"
                   then Effects.Print tech_leads_hint :: nil else nil)
           | _ :: _ => nil
           end)
       ++ flat_map (person_findings "leadership")
            (Utils.Chairs (Utils.Leadership group)
             ++ Utils.TechnicalLeads (Utils.Leadership group)
             ++ Utils.EmeritusLeads (Utils.Leadership group)))%list
      (Effects.Ok tt).
Proof. apply auditLeadership_events. Qed.

Section Silence.
Import GoStrings Effects Utils World.

Lemma if_nil {A} (c : bool) (x : A) :
  (if c then x :: nil else nil) = nil <-> c = false.
Proof. destruct c; split; congruence. Qed.

Lemma string_present (s : string) :
  (String.length s =? 0)%nat = false <-> s <> EmptyString.
Proof. destruct s; simpl; split; congruence. Qed.

Lemma list_present {A} (l : list A) :
  (List.length l =? 0)%nat = false <-> l <> nil.
Proof. destruct l; simpl; split; congruence. Qed.

Lemma list_absent {A} (l : list A) :
  (0 <? List.length l)%nat = false <-> l = nil.
Proof. destruct l; unfold Nat.ltb; simpl; split; congruence. Qed.

Lemma same_text (a b : string) : negb (String.eqb a b) = false <-> a = b.
Proof. destruct (String.eqb_spec a b); simpl; split; congruence. Qed.

Lemma only_the_line {A} (before middle after : list A) (line : A) :
  (before ++ middle ++ line :: after)%list = line :: nil
  <-> before = nil /\ middle = nil /\ after = nil.
Proof.
  split.
  - intros H. pose proof (f_equal (@List.length A) H) as Hlen.
    rewrite !List.length_app in Hlen. simpl in Hlen.
    destruct before; [|simpl in Hlen; lia].
    destruct middle; [|simpl in Hlen; lia].
    destruct after; [auto | simpl in Hlen; lia].
  - now intros (-> & -> & ->).
Qed.

Lemma person_findings_nil (extra : string) (person : Person) :
  person_findings extra person = nil <-> complete_person person.
Proof.
  unfold person_findings, complete_person.
  rewrite !app_nil, !if_nil, !string_present. tauto.
Qed.

Lemma flat_map_nil {A B} (f : A -> list B) (l : list A) :
  flat_map f l = nil <-> Forall (fun x => f x = nil) l.
Proof.
  induction l as [|x l IH]; simpl.
  - split; [constructor | reflexivity].
  - rewrite app_nil, IH, Forall_cons. tauto.
Qed.

Lemma leadership_silent (group : Group) (groupType : string) :
  trace (Filtered.auditLeadership group groupType) = nil
  <-> complete_leadership (Leadership group).
Proof.
  rewrite auditLeadership_events. cbn [trace]. unfold complete_leadership.
  rewrite !app_nil, flat_map_nil.
  assert (Forall (fun x => person_findings "leadership" x = nil)
            (Chairs (Leadership group) ++ TechnicalLeads (Leadership group)
             ++ EmeritusLeads (Leadership group))
          <-> Forall complete_person
                (Chairs (Leadership group) ++ TechnicalLeads (Leadership group)
                 ++ EmeritusLeads (Leadership group))) as ->.
  { split; intros H; eapply Forall_impl; try exact H;
      intros person; apply person_findings_nil. }
  destruct (Chairs (Leadership group)), (TechnicalLeads (Leadership group));
    intuition congruence.
Qed.

Lemma contact_silent (contact : Contact) :
  trace (Filtered.auditContact contact) = nil <-> complete_contact contact.
Proof.
  rewrite auditContact_events. cbn [trace]. unfold complete_contact.
  rewrite !app_nil, !if_nil, !string_present, list_present.
  destruct (Liaison contact) as [liaison|].
  - rewrite person_findings_nil. split.
    + intros (H1 & H2 & H3 & H4 & H5).
      refine (conj H1 (conj H2 (conj H3 (conj H4 _)))).
      intros p Hp. now injection Hp as <-.
    + intros (H1 & H2 & H3 & H4 & H5).
      refine (conj H1 (conj H2 (conj H3 (conj H4 _)))). now apply H5.
  - split.
    + intros (H1 & H2 & H3 & H4 & _).
      refine (conj H1 (conj H2 (conj H3 (conj H4 _)))). discriminate.
    + intros (H1 & H2 & H3 & H4 & _). tauto.
Qed.

Lemma no_warning_iff {A B} (f : A -> B) (P : A -> Prop)
    `{forall x, Decision (P x)} (l : list A) :
  map f (filter P l) = nil <-> forall x, In x l -> ~ P x.
Proof.
  induction l as [|x l IH].
  - simpl. split; [intros _ y [] | reflexivity].
  - destruct (decide (P x)) as [Hx|Hx].
    + rewrite filter_cons_True by exact Hx. simpl. split; [discriminate|].
      intros Hall. exfalso. apply (Hall x); [now left | exact Hx].
    + rewrite filter_cons_False by exact Hx. rewrite IH. split.
      * intros Hall y [<-|Hy]; [exact Hx | now apply Hall].
      * intros Hall y Hy. apply Hall. now right.
Qed.

Lemma stakeholders_silent (group : Group) (context : Context) :
  trace (Filtered.auditWorkingGroupStakeholders "wg" group context) = nil
  <-> StakeholderSIGs group <> nil
      /\ (forall stakeholder, In stakeholder (StakeholderSIGs group) ->
            exists sig, In sig (Sigs context) /\ Name sig = stakeholder).
Proof.
  assert (forall x, x ∈ Name <$> Sigs context
                    <-> exists sig, In sig (Sigs context) /\ Name sig = x)
    as Hname.
  { intros x. rewrite list_elem_of_fmap. split.
    - intros (sig & -> & Hin). exists sig. split; [|reflexivity].
      now apply list_elem_of_In.
    - intros (sig & Hin & <-). exists sig. split; [reflexivity|].
      now apply list_elem_of_In. }
  unfold Filtered.auditWorkingGroupStakeholders. simpl String.eqb. cbv iota.
  destruct (StakeholderSIGs group) as [|s l].
  - simpl. split; [discriminate | intros [H _]; congruence].
  - simpl List.length. simpl Nat.eqb. cbv iota zeta.
    pose proof (stakeholders_loop (Sigs context) (s :: l)) as Hloop.
    unfold stakeholder_warning in Hloop. rewrite Hloop. cbn [trace].
    rewrite no_warning_iff. split.
    + intros Hall. split; [discriminate|].
      intros x Hx. apply Hname.
      destruct (decide (x ∈ Name <$> Sigs context)) as [Hin|Hout]; trivial.
      exfalso. exact (Hall x Hx Hout).
    + intros [_ Hall] x Hx Hout. apply Hout, Hname, Hall, Hx.
Qed.

End Silence.

(** X17.  In the version with name filters the audit of a working group
    writes the line that announces the group and nothing else exactly when
    the group is complete: directory, name and label are present and are
    the derived ones, every stakeholder is the name of a sig, chairs and
    tech leads are listed and every lead has name, GitHub id and company,
    meetings and the four contact fields are present, a liaison is a
    complete person, and no subproject is declared.  The mission statement
    and the charter of a working group are not looked at. *)
Theorem X17_working_group_silent_iff_complete
    (E : World.Env) (pwd : string)
    (group : Utils.Group) (context : Utils.Context) :
  Filtered.auditGroup E pwd "wg" group context
  = Effects.mkM (Effects.Print (processing_line "wg" group) :: nil)
      (Effects.Ok tt)
  <-> complete_working_group E group context.
Proof.
  rewrite auditGroup_wg_events.
  assert (forall events line,
             Effects.mkM events (Effects.Ok tt)
             = Effects.mkM (line :: nil) (Effects.Ok tt)
             <-> events = line :: nil) as ->.
  { intros events line. split; [intros H; now injection H | now intros ->]. }
  rewrite only_the_line, !app_nil, !if_nil, !string_present, list_present,
    list_absent, !same_text, stakeholders_silent, leadership_silent,
    contact_silent.
  unfold complete_working_group. tauto.
Qed.

Lemma X17_working_group_silent_witness :
  Filtered.auditGroup
    (example_world context_example unreachable (fun _ => inl owners_blank))
    "/community" "wg" wg_complete context_example
  = Effects.mkM (Effects.Print (processing_line "wg" wg_complete) :: nil)
      (Effects.Ok tt).
Proof.
  apply (proj2 (X17_working_group_silent_iff_complete
                  (example_world context_example unreachable
                     (fun _ => inl owners_blank))
                  "/community" wg_complete context_example)).
  unfold complete_working_group.
  refine (conj _ (conj _ (conj _ (conj _ (conj _ (conj _ (conj _
            (conj _ (conj _ (conj _ _)))))))))); try discriminate;
    try reflexivity.
  - intros stakeholder [<-|[]]. exists (sig_named "sig-apps").
    split; [right; left; reflexivity | reflexivity].
  - refine (conj _ (conj _ _)); try discriminate.
    repeat constructor; discriminate.
  - refine (conj _ (conj _ (conj _ (conj _ _)))); discriminate.
Defined.

(** ** When the run with name filters completes *)

Section FilteredFinishes.
Import GoStrings Effects Utils World Go.

Variable E : Env.
Hypothesis contract : http_contract E.

Lemma finishes_bind_iff (m : M unit) (k : unit -> M unit) :
  finishes (m ≫= k) <-> finishes m /\ finishes (k tt).
Proof.
  split; [apply finishes_bind_inv | intros [Hm Hk]; now apply finishes_bind].
Qed.

Lemma Filtered_auditCharterLink_finishes pwd group :
  finishes (Filtered.auditCharterLink E pwd group).
Proof.
  unfold Filtered.auditCharterLink.
  destruct (HasPrefix (CharterLink group) "http").
  - pose proof (contract (CharterLink group)) as Hc.
    destruct (http_Get E (CharterLink group)) as [[r|] [err|]]; simpl in Hc.
    + reflexivity.
    + unfold finishes. run_monad. now destruct (StatusCode r =? 200).
    + reflexivity.
    + now destruct Hc.
  - finishes_auto.
Qed.

Lemma auditSubProject_body_finishes_iff group subproject :
  finishes (Filtered.auditSubProject_body E group subproject)
  <-> Forall (fun url => accepted_shape url -> fst (http_Get E url) <> None)
        (Owners subproject).
Proof.
  unfold Filtered.auditSubProject_body. rewrite !finishes_bind_iff.
  rewrite <- auditOwnersFiles_finishes_iff. split.
  - intros (_ & _ & _ & _ & Howners & _).
    destruct (Owners subproject) as [|url urls] eqn:Hurls; [|exact Howners].
    rewrite auditOwnersFiles_finishes_iff, Hurls. constructor.
  - intros Howners.
    repeat split; try (unfold when; finishes_auto);
      try apply Filtered_auditContact_finishes.
    exact Howners.
Qed.

Lemma auditGroup_other_finishes pwd groupType group context :
  groupType <> "sig" ->
  finishes (Filtered.auditGroup E pwd groupType group context).
Proof.
  intros Hsig. unfold Filtered.auditGroup, Filtered.auditGroup_subprojects.
  destruct (String.eqb_spec groupType "sig") as [|_]; [contradiction|].
  unfold when. simpl negb. finishes_auto;
    auto using auditLeadership_finishes, Filtered_auditContact_finishes,
      auditWorkingGroupStakeholders_finishes.
Qed.

Lemma auditGroup_sig_finishes_iff pwd group context :
  finishes (Filtered.auditGroup E pwd "sig" group context)
  <-> owners_answered E group.
Proof.
  unfold Filtered.auditGroup, Filtered.auditGroup_subprojects, owners_answered.
  cbv zeta. simpl String.eqb. simpl negb. simpl andb.
  rewrite !finishes_bind_iff.
  assert (Forall (fun subproject =>
                    finishes (Filtered.auditSubProject_body E group subproject))
            (Subprojects group)
          <-> Forall (fun subproject =>
                        Forall (fun url => accepted_shape url ->
                                           fst (http_Get E url) <> None)
                          (Owners subproject))
                (Subprojects group)) as <-.
  { split; intros H; eapply Forall_impl; try exact H;
      intros subproject; apply auditSubProject_body_finishes_iff. }
  split.
  - intros (_ & _ & _ & _ & _ & _ & _ & _ & _ & _ & _ & Hsub & _).
    unfold when in Hsub.
    destruct (Subprojects group) as [|s l] eqn:Hs; [constructor|].
    simpl List.length in Hsub. simpl Nat.eqb in Hsub. cbv iota in Hsub.
    unfold Filtered.auditSubProject in Hsub. rewrite Hs in Hsub.
    now apply for_range_finishes_inv.
  - intros Hsub.
    repeat split; try (unfold when; finishes_auto);
      auto using auditLeadership_finishes, Filtered_auditContact_finishes,
        auditWorkingGroupStakeholders_finishes,
        Filtered_auditCharterLink_finishes.
    unfold Filtered.auditSubProject. now apply for_range_finishes.
Qed.

Lemma auditGroup_finishes_iff pwd groupType group context :
  finishes (Filtered.auditGroup E pwd groupType group context)
  <-> (groupType = "sig" -> owners_answered E group).
Proof.
  destruct (String.eqb_spec groupType "sig") as [->|Hother].
  - rewrite auditGroup_sig_finishes_iff. tauto.
  - split; [intros _ H; contradiction|].
    intros _. now apply auditGroup_other_finishes.
Qed.

Lemma Run_body_finishes_iff pwd context entries name :
  finishes (Filtered.Run_body E pwd context entries name)
  <-> forall groupType groups group,
        In (groupType, groups) entries -> In group groups ->
        selects name group = true ->
        groupType = "sig" -> owners_answered E group.
Proof.
  rewrite Run_body_selected.
  change (bind ?m ?k) with (m ≫= k). rewrite finishes_bind_iff.
  split.
  - intros [Hloop _] groupType groups group Hentry Hgroup Hsel.
    apply for_range_finishes_inv in Hloop.
    rewrite List.Forall_forall in Hloop. specialize (Hloop _ Hentry).
    unfold audit_selected in Hloop. simpl in Hloop.
    apply for_range_finishes_inv in Hloop.
    rewrite List.Forall_forall in Hloop. specialize (Hloop _ Hgroup).
    simpl in Hloop. rewrite Hsel in Hloop. unfold when in Hloop.
    exact (proj1 (auditGroup_finishes_iff pwd groupType group context) Hloop).
  - intros Hall. split; [|unfold when; finishes_auto].
    apply for_range_finishes. apply List.Forall_forall.
    intros [groupType groups] Hentry. unfold audit_selected.
    apply for_range_finishes. apply List.Forall_forall. intros group Hgroup.
    cbn [fst snd]. destruct (selects name group) eqn:Hsel; [|reflexivity].
    apply auditGroup_finishes_iff. now apply (Hall groupType groups group).
Qed.

Lemma Run_names_finishes_iff (order : IterationOrder) pwd context args :
  admissible order ->
  forall i,
    finishes (Filtered.Run_names E order i pwd context args)
    <-> forall name sigs sig,
          In name args ->
          PrefixToGroupMap E context !! "sig" = Some sigs ->
          In sig sigs -> selects name sig = true -> owners_answered E sig.
Proof.
  intros Horder.
  assert (forall i groupType groups,
             In (groupType, groups) (order i (PrefixToGroupMap E context))
             <-> PrefixToGroupMap E context !! groupType = Some groups)
    as Hentries.
  { intros i groupType groups. rewrite <- elem_of_map_to_list.
    rewrite <- list_elem_of_In. now rewrite (Horder i). }
  induction args as [|name args IH]; intros i.
  - split; [intros _ name sigs sig [] | reflexivity].
  - change (Filtered.Run_names E order i pwd context (name :: args))
      with (Filtered.Run_body E pwd context
              (order i (PrefixToGroupMap E context)) name
            ≫= fun _ => Filtered.Run_names E order (S i) pwd context args).
    rewrite finishes_bind_iff, Run_body_finishes_iff, IH. split.
    + intros [Hname Hargs] name' sigs sig [<-|Hin] Hsigs Hsig Hsel.
      * apply (Hname "sig" sigs sig); trivial. now apply Hentries.
      * now apply (Hargs name' sigs sig).
    + intros Hall. split.
      * intros groupType groups group Hentry Hgroup Hsel ->.
        apply (Hall name groups group); trivial; [now left|].
        now apply Hentries in Hentry.
      * intros name' sigs sig Hin. apply Hall. now right.
Qed.

End FilteredFinishes.


Lemma served_world_contract : http_contract served_world.
Proof. intros url H. discriminate H. Qed.

Lemma offline_world_contract : http_contract offline_world.
Proof. intros url _. discriminate. Qed.

